(** * products: field validators and services over a relational store

    A shallow embedding of the [products] back end (customers, mechanics,
    autoservices, vehicles and the maintenance they provide):

    - [Py]: the fragment of Python's [str] and [re] that the model
      validators use (strings as sequences of code points, [len],
      [str.upper], [re.sub] of white space, [re.match]);
    - one module per entity of [products/models], with the columns and the
      [@validates] functions;
    - the store: one table per model, the constraints the models declare,
      and the repository operations the services call;
    - the services of [products/services] in a state-and-exception monad;
    - the properties of the validators and of the services. *)

From Stdlib Require Ascii String.
From stdpp Require Import base numbers list option strings sets relations.

Local Open Scope N_scope.

(** ** Python strings and regular expressions *)

Module Py.

(** A [str] is a sequence of Unicode code points. *)
Abbreviation codepoint := N (only parsing).
Abbreviation str := (list N) (only parsing).

Definition codes (s : string) : str :=
  Ascii.N_of_ascii <$> String.list_ascii_of_string s.

Definition LF : codepoint := 10.

(** The part of Python's Unicode database beyond ASCII that [str.isspace],
    [\d] and [str.upper] consult.  It belongs to the interpreter, not to the
    repository: the validators take it as a parameter and the ASCII plane
    is written out below. *)
Record unicode := {
  uc_space : codepoint -> bool;
  uc_decimal : codepoint -> bool;
  uc_upper : codepoint -> str
}.

(** Tables without any entry beyond ASCII, for evaluating ASCII inputs. *)
Definition ascii_only : unicode :=
  {| uc_space := fun _ => false;
     uc_decimal := fun _ => false;
     uc_upper := fun c => [c] |}.

Definition between (lo hi c : codepoint) : bool := (lo <=? c) && (c <=? hi).

Definition is_ascii (c : codepoint) : bool := c <? 128.

(** [\t \n \v \f \r], the separators 0x1c-0x1f and the space. *)
Definition ascii_space (c : codepoint) : bool :=
  between 9 13 c || between 28 31 c || (c =? 32).

Definition ascii_digit (c : codepoint) : bool := between 48 57 c.

Definition ascii_upper (c : codepoint) : codepoint :=
  if between 97 122 c then c - 32 else c.

Section Unicode.
Context (U : unicode).

Definition is_space (c : codepoint) : bool :=
  if is_ascii c then ascii_space c else uc_space U c.

Definition is_decimal (c : codepoint) : bool :=
  if is_ascii c then ascii_digit c else uc_decimal U c.

Definition upper_char (c : codepoint) : str :=
  if is_ascii c then [ascii_upper c] else uc_upper U c.

(** [s.upper()] *)
Definition upper (s : str) : str := s ≫= upper_char.

(** [re.sub(r"\s+", "", s)]: every run of white space is deleted. *)
Definition sub_spaces (s : str) : str :=
  filter (fun c => is_space c = false) s.

(** The regular expressions of the validators: anchors, classes,
    concatenation, an optional group and a counted repetition. *)
Inductive charset :=
| Ranges (rs : list (codepoint * codepoint))
| Digit.

Inductive regex :=
| Bol
| Eol
| Set_ (cs : charset)
| Cat (r1 r2 : regex)
| Opt (r : regex)
| Rep (n : nat) (r : regex).

Definition in_charset (cs : charset) (c : codepoint) : bool :=
  match cs with
  | Ranges rs => existsb (fun r => between r.1 r.2 c) rs
  | Digit => is_decimal c
  end.

(** [$] without MULTILINE: the end of the string, or just before a line
    feed that ends the string. *)
Definition at_end (rest : str) : bool :=
  match rest with
  | [] => true
  | [c] => c =? LF
  | _ => false
  end.

(** Backtracking matcher: [go r pos rest k] holds when [r] matches a
    prefix of [rest] (which starts at offset [pos]) and [k] accepts what
    follows. *)
Fixpoint go (r : regex) (pos : nat) (rest : str)
    (k : nat -> str -> bool) {struct r} : bool :=
  match r with
  | Bol => Nat.eqb pos 0 && k pos rest
  | Eol => at_end rest && k pos rest
  | Set_ cs =>
      match rest with
      | c :: rest' => in_charset cs c && k (S pos) rest'
      | [] => false
      end
  | Cat r1 r2 => go r1 pos rest (fun pos' rest' => go r2 pos' rest' k)
  | Opt r1 => go r1 pos rest k || k pos rest
  | Rep n r1 =>
      (fix rep (n : nat) (pos : nat) (rest : str) : bool :=
         match n with
         | O => k pos rest
         | S n' => go r1 pos rest (fun pos' rest' => rep n' pos' rest')
         end) n pos rest
  end.

(** [re.match(pattern, s)] as a truth value: some prefix of [s] matches. *)
Definition re_match (pattern : regex) (s : str) : bool :=
  go pattern 0 s (fun _ _ => true).
End Unicode.

End Py.

Import Py.

(** ** Exceptions *)

(** The messages of the [ClientException]s raised by the validators. *)
Inductive client_message :=
| NameTooShort
| NameTooLong
| ItnFormat
| PsrnFormat
| VinFormat.

Inductive exn :=
(* litestar *)
| ClientException (msg : client_message)
(* products.exceptions *)
| CustomerNotFoundError
| CustomerBelongsToAnotherUserError
| MechanicNotFoundError
| MechanicBelongsToAnotherUserError
| AutoserviceNotFoundError
| AutoserviceUserNotFoundError
| AutoserviceUserDoesntHavePermissionsError
| CountryNotFoundError
| VehicleNotFoundError
| VehicleBrandNotFoundError
| VehicleModelNotFoundError
| VehicleGenerationNotFoundError
| VehicleModelDoesntMatchWithVehicleBrandError
| VehicleGenerationDoesntMatchWithVehicleModelError
| ProvidedMaintenanceTypeNotFoundError
| ProvidedMaintenanceNotFoundError
| ProvidedMaintenanceCountryAssociationAlreadyExistsError
| ProvidedMaintenanceVehicleBrandAssociationAlreadyExistsError
(* advanced_alchemy / sqlalchemy *)
| MultipleResultsFound
| IntegrityError
| NotFoundError.

#[global] Instance client_message_eq_dec : EqDecision client_message.
Proof. solve_decision. Defined.

#[global] Instance exn_eq_dec : EqDecision exn.
Proof. solve_decision. Defined.

Definition result (A : Type) : Type := exn + A.

(** ** The models

    One module per class of [products/models]: the columns as a record
    (time stamps left out: no service reads them), and the [@validates]
    functions.  SQLAlchemy runs a validator whenever the attribute is set,
    so an entity that reaches a service has passed them. *)

Abbreviation UUID := N (only parsing).

(** REAL and NUMERIC columns.  The services copy these values and never
    compute with them; they are carried as scaled integers (a price in
    hundredths). *)
Abbreviation real := Z (only parsing).

Module User.
Record t := mk { uid : UUID }.
End User.

Module Customer.
Record t := mk {
  customer_id : UUID;
  name : str;
  city : option str;
  uid : UUID
}.

(** A [Customer] built from [CustomerPatchDTO]: the attributes that the
    request did not give are [None]. *)
Record partial := mk_partial {
  new_name : option str;
  new_city : option str
}.

Definition with_uid (u : UUID) (c : t) : t :=
  mk (customer_id c) (name c) (city c) u.

(** [setattr] of every entry of [update_data]. *)
Definition setattrs (data : partial) (c : t) : t :=
  mk (customer_id c)
     (default (name c) (new_name data))
     (match new_city data with Some v => Some v | None => city c end)
     (uid c).

Definition validate_name (name : str) : result str :=
  let error_message : option client_message :=
    if (length name <? 2)%nat then Some NameTooShort
    else if (150 <? length name)%nat then Some NameTooLong
    else None in
  match error_message with
  | Some m => inl (ClientException m)
  | None => inr name
  end.
End Customer.

Module Mechanic.
Record t := mk {
  mechanic_id : UUID;
  name : str;
  description : option str;
  city : str;
  address : option str;
  lon : option real;
  lat : option real;
  private : bool;
  mobile : bool;
  uid : UUID
}.

Record partial := mk_partial {
  new_name : option str;
  new_description : option str;
  new_city : option str;
  new_address : option str;
  new_lon : option real;
  new_lat : option real;
  new_private : option bool;
  new_mobile : option bool
}.

Definition with_uid (u : UUID) (m : t) : t :=
  mk (mechanic_id m) (name m) (description m) (city m) (address m)
     (lon m) (lat m) (private m) (mobile m) u.

Definition keep {A} (new old : option A) : option A :=
  match new with Some v => Some v | None => old end.

Definition setattrs (data : partial) (m : t) : t :=
  mk (mechanic_id m)
     (default (name m) (new_name data))
     (keep (new_description data) (description m))
     (default (city m) (new_city data))
     (keep (new_address data) (address m))
     (keep (new_lon data) (lon m))
     (keep (new_lat data) (lat m))
     (default (private m) (new_private data))
     (default (mobile m) (new_mobile data))
     (uid m).

Definition validate_name (name : str) : result str :=
  let error_message : option client_message :=
    if (length name <? 2)%nat then Some NameTooShort
    else if (150 <? length name)%nat then Some NameTooLong
    else None in
  match error_message with
  | Some m => inl (ClientException m)
  | None => inr name
  end.
End Mechanic.

Inductive AutoserviceUserPermissions :=
| autoservice_manage
| autoservice_manage_provided_maintenance.

#[global] Instance AutoserviceUserPermissions_eq_dec :
  EqDecision AutoserviceUserPermissions.
Proof. solve_decision. Defined.

(** [list(AutoserviceUserPermissions)]: the members in definition order. *)
Definition all_permissions : list AutoserviceUserPermissions :=
  [autoservice_manage; autoservice_manage_provided_maintenance].

Module AutoserviceUser.
Record t := mk {
  uid : UUID;
  autoservice_id : UUID;
  permissions : list AutoserviceUserPermissions
}.
End AutoserviceUser.

Module Autoservice.
Record t := mk {
  autoservice_id : UUID;
  name : str;
  description : option str;
  itn : str;
  psrn : str;
  city : str;
  address : str;
  lon : option real;
  lat : option real
}.

(** What [patch_autoservice] keeps of the changed entity: its exclusion set
    names [autoservice_id], [itn], [psrn], [address], [lon] and the
    relations, which leaves [name], [description], [city] and [lat]. *)
Record partial := mk_partial {
  new_name : option str;
  new_description : option str;
  new_city : option str;
  new_lat : option real
}.

Definition setattrs (data : partial) (a : t) : t :=
  mk (autoservice_id a)
     (default (name a) (new_name data))
     (Mechanic.keep (new_description data) (description a))
     (itn a) (psrn a)
     (default (city a) (new_city data))
     (address a) (lon a)
     (Mechanic.keep (new_lat data) (lat a)).

Section Validators.
Context (U : unicode).

(** [r"^\d{10}(\d{2})?$"] *)
Definition itn_pattern : regex :=
  Cat Bol (Cat (Rep 10 (Set_ Digit)) (Cat (Opt (Rep 2 (Set_ Digit))) Eol)).

(** [r"^\d{13}$"] *)
Definition psrn_pattern : regex :=
  Cat Bol (Cat (Rep 13 (Set_ Digit)) Eol).

Definition validate_itn (value : str) : result str :=
  if negb (re_match U itn_pattern value) then inl (ClientException ItnFormat)
  else inr value.

Definition validate_psrn (value : str) : result str :=
  if negb (re_match U psrn_pattern value) then inl (ClientException PsrnFormat)
  else inr value.
End Validators.
End Autoservice.

Module Country.
Record t := mk { country_id : Z; name : str }.
End Country.

Module VehicleBrand.
Record t := mk {
  vehicle_brand_id : Z;
  name : str;
  popular : bool;
  country_id : Z
}.
End VehicleBrand.

Module VehicleModel.
Record t := mk {
  vehicle_model_id : Z;
  name : str;
  vehicle_brand_id : Z
}.
End VehicleModel.

Module VehicleGeneration.
Record t := mk {
  vehicle_generation_id : Z;
  name : str;
  start_year_production : Z;
  end_year_production : option Z;
  vehicle_model_id : Z
}.
End VehicleGeneration.

Module Vehicle.
Record t := mk {
  vehicle_id : UUID;
  state_number : option str;
  vin : option str;
  vehicle_brand_id : Z;
  vehicle_model_id : Z;
  vehicle_generation_id : Z;
  customer_id : UUID
}.

Section Validators.
Context (U : unicode).

(** [r"^[A-HJ-NPR-Z0-9]{17}$"] *)
Definition vin_pattern : regex :=
  Cat Bol
    (Cat (Rep 17 (Set_ (Ranges [(65, 72); (74, 78); (80, 80); (82, 90); (48, 57)])))
       Eol).

Definition validate_vin (vin : option str) : result (option str) :=
  match vin with
  | None => inr None
  | Some vin =>
      let vin := upper U (sub_spaces U vin) in
      if negb (re_match U vin_pattern vin) then inl (ClientException VinFormat)
      else inr (Some vin)
  end.
End Validators.
End Vehicle.

Module ProvidedMaintenanceType.
Record t := mk {
  provided_maintenance_type_id : Z;
  name : str;
  provided_maintenance_category_id : Z
}.
End ProvidedMaintenanceType.

Module ProvidedMaintenance.
Record t := mk {
  provided_maintenance_id : UUID;
  price : real;
  description : option str;
  provided_maintenance_type_id : Z;
  mechanic_id : option UUID;
  autoservice_id : option UUID
}.

(** [CheckConstraint("mechanic_id IS NOT NULL OR autoservice_id IS NOT NULL")] *)
Definition check_mechanic_or_autoservice (r : t) : Prop :=
  mechanic_id r ≠ None ∨ autoservice_id r ≠ None.
End ProvidedMaintenance.

Module ProvidedMaintenanceCountryAssociation.
Record t := mk { provided_maintenance_id : UUID; country_id : Z }.
Definition key (r : t) : UUID * Z := (provided_maintenance_id r, country_id r).
End ProvidedMaintenanceCountryAssociation.

Module ProvidedMaintenanceVehicleBrandAssociation.
Record t := mk { provided_maintenance_id : UUID; vehicle_brand_id : Z }.
Definition key (r : t) : UUID * Z :=
  (provided_maintenance_id r, vehicle_brand_id r).
End ProvidedMaintenanceVehicleBrandAssociation.

(** Rows are compared field by field. *)
#[global] Instance Customer_eq_dec : EqDecision Customer.t.
Proof. solve_decision. Defined.
#[global] Instance Mechanic_eq_dec : EqDecision Mechanic.t.
Proof. solve_decision. Defined.
#[global] Instance AutoserviceUser_eq_dec : EqDecision AutoserviceUser.t.
Proof. solve_decision. Defined.
#[global] Instance Autoservice_eq_dec : EqDecision Autoservice.t.
Proof. solve_decision. Defined.
#[global] Instance Country_eq_dec : EqDecision Country.t.
Proof. solve_decision. Defined.
#[global] Instance VehicleBrand_eq_dec : EqDecision VehicleBrand.t.
Proof. solve_decision. Defined.
#[global] Instance VehicleModel_eq_dec : EqDecision VehicleModel.t.
Proof. solve_decision. Defined.
#[global] Instance VehicleGeneration_eq_dec : EqDecision VehicleGeneration.t.
Proof. solve_decision. Defined.
#[global] Instance Vehicle_eq_dec : EqDecision Vehicle.t.
Proof. solve_decision. Defined.
#[global] Instance ProvidedMaintenanceType_eq_dec :
  EqDecision ProvidedMaintenanceType.t.
Proof. solve_decision. Defined.
#[global] Instance ProvidedMaintenance_eq_dec : EqDecision ProvidedMaintenance.t.
Proof. solve_decision. Defined.
#[global] Instance ProvidedMaintenanceCountryAssociation_eq_dec :
  EqDecision ProvidedMaintenanceCountryAssociation.t.
Proof. solve_decision. Defined.
#[global] Instance ProvidedMaintenanceVehicleBrandAssociation_eq_dec :
  EqDecision ProvidedMaintenanceVehicleBrandAssociation.t.
Proof. solve_decision. Defined.

(** ** The store

    One table per model, named by its [__tablename__]; a table is the list
    of its rows in insertion order. *)

Record DB := mkDB {
  customers : list Customer.t;
  mechanics : list Mechanic.t;
  autoservices : list Autoservice.t;
  autoservice_users : list AutoserviceUser.t;
  countries : list Country.t;
  vehicle_brands : list VehicleBrand.t;
  vehicle_models : list VehicleModel.t;
  vehicle_generations : list VehicleGeneration.t;
  vehicles : list Vehicle.t;
  provided_maintenance_types : list ProvidedMaintenanceType.t;
  provided_maintenance : list ProvidedMaintenance.t;
  provided_maintenance_country_association :
    list ProvidedMaintenanceCountryAssociation.t;
  provided_maintenance_vehicle_brand_association :
    list ProvidedMaintenanceVehicleBrandAssociation.t
}.

Definition with_customers (v : list Customer.t) (d : DB) : DB :=
  mkDB v (mechanics d) (autoservices d) (autoservice_users d) (countries d)
    (vehicle_brands d) (vehicle_models d) (vehicle_generations d) (vehicles d)
    (provided_maintenance_types d) (provided_maintenance d)
    (provided_maintenance_country_association d)
    (provided_maintenance_vehicle_brand_association d).

Definition with_mechanics (v : list Mechanic.t) (d : DB) : DB :=
  mkDB (customers d) v (autoservices d) (autoservice_users d) (countries d)
    (vehicle_brands d) (vehicle_models d) (vehicle_generations d) (vehicles d)
    (provided_maintenance_types d) (provided_maintenance d)
    (provided_maintenance_country_association d)
    (provided_maintenance_vehicle_brand_association d).

Definition with_autoservices (v : list Autoservice.t) (d : DB) : DB :=
  mkDB (customers d) (mechanics d) v (autoservice_users d) (countries d)
    (vehicle_brands d) (vehicle_models d) (vehicle_generations d) (vehicles d)
    (provided_maintenance_types d) (provided_maintenance d)
    (provided_maintenance_country_association d)
    (provided_maintenance_vehicle_brand_association d).

Definition with_autoservice_users (v : list AutoserviceUser.t) (d : DB) : DB :=
  mkDB (customers d) (mechanics d) (autoservices d) v (countries d)
    (vehicle_brands d) (vehicle_models d) (vehicle_generations d) (vehicles d)
    (provided_maintenance_types d) (provided_maintenance d)
    (provided_maintenance_country_association d)
    (provided_maintenance_vehicle_brand_association d).

Definition with_countries (v : list Country.t) (d : DB) : DB :=
  mkDB (customers d) (mechanics d) (autoservices d) (autoservice_users d) v
    (vehicle_brands d) (vehicle_models d) (vehicle_generations d) (vehicles d)
    (provided_maintenance_types d) (provided_maintenance d)
    (provided_maintenance_country_association d)
    (provided_maintenance_vehicle_brand_association d).

Definition with_vehicle_brands (v : list VehicleBrand.t) (d : DB) : DB :=
  mkDB (customers d) (mechanics d) (autoservices d) (autoservice_users d)
    (countries d) v (vehicle_models d) (vehicle_generations d) (vehicles d)
    (provided_maintenance_types d) (provided_maintenance d)
    (provided_maintenance_country_association d)
    (provided_maintenance_vehicle_brand_association d).

Definition with_vehicle_models (v : list VehicleModel.t) (d : DB) : DB :=
  mkDB (customers d) (mechanics d) (autoservices d) (autoservice_users d)
    (countries d) (vehicle_brands d) v (vehicle_generations d) (vehicles d)
    (provided_maintenance_types d) (provided_maintenance d)
    (provided_maintenance_country_association d)
    (provided_maintenance_vehicle_brand_association d).

Definition with_vehicle_generations (v : list VehicleGeneration.t) (d : DB) : DB :=
  mkDB (customers d) (mechanics d) (autoservices d) (autoservice_users d)
    (countries d) (vehicle_brands d) (vehicle_models d) v (vehicles d)
    (provided_maintenance_types d) (provided_maintenance d)
    (provided_maintenance_country_association d)
    (provided_maintenance_vehicle_brand_association d).

Definition with_vehicles (v : list Vehicle.t) (d : DB) : DB :=
  mkDB (customers d) (mechanics d) (autoservices d) (autoservice_users d)
    (countries d) (vehicle_brands d) (vehicle_models d) (vehicle_generations d) v
    (provided_maintenance_types d) (provided_maintenance d)
    (provided_maintenance_country_association d)
    (provided_maintenance_vehicle_brand_association d).

Definition with_provided_maintenance_types
    (v : list ProvidedMaintenanceType.t) (d : DB) : DB :=
  mkDB (customers d) (mechanics d) (autoservices d) (autoservice_users d)
    (countries d) (vehicle_brands d) (vehicle_models d) (vehicle_generations d)
    (vehicles d) v (provided_maintenance d)
    (provided_maintenance_country_association d)
    (provided_maintenance_vehicle_brand_association d).

Definition with_provided_maintenance
    (v : list ProvidedMaintenance.t) (d : DB) : DB :=
  mkDB (customers d) (mechanics d) (autoservices d) (autoservice_users d)
    (countries d) (vehicle_brands d) (vehicle_models d) (vehicle_generations d)
    (vehicles d) (provided_maintenance_types d) v
    (provided_maintenance_country_association d)
    (provided_maintenance_vehicle_brand_association d).

Definition with_provided_maintenance_country_association
    (v : list ProvidedMaintenanceCountryAssociation.t) (d : DB) : DB :=
  mkDB (customers d) (mechanics d) (autoservices d) (autoservice_users d)
    (countries d) (vehicle_brands d) (vehicle_models d) (vehicle_generations d)
    (vehicles d) (provided_maintenance_types d) (provided_maintenance d) v
    (provided_maintenance_vehicle_brand_association d).

Definition with_provided_maintenance_vehicle_brand_association
    (v : list ProvidedMaintenanceVehicleBrandAssociation.t) (d : DB) : DB :=
  mkDB (customers d) (mechanics d) (autoservices d) (autoservice_users d)
    (countries d) (vehicle_brands d) (vehicle_models d) (vehicle_generations d)
    (vehicles d) (provided_maintenance_types d) (provided_maintenance d)
    (provided_maintenance_country_association d) v.

(** *** Column types

    The integers of a [SmallInteger] and of an [Integer] column, the
    numbers of a [Numeric(10, 2)] column (carried in hundredths) and the
    strings of a [String(n)] column. *)

Definition smallint (z : Z) : Prop := (-32768 <= z <= 32767)%Z.
Definition integer (z : Z) : Prop := (-2147483648 <= z <= 2147483647)%Z.
Definition numeric_10_2 (hundredths : Z) : Prop :=
  (-10000000000 < hundredths < 10000000000)%Z.
Definition varchar (n : nat) (s : str) : Prop := (length s <= n)%nat.

#[global] Instance smallint_dec z : Decision (smallint z).
Proof. unfold smallint. apply _. Defined.
#[global] Instance integer_dec z : Decision (integer z).
Proof. unfold integer. apply _. Defined.
#[global] Instance numeric_10_2_dec z : Decision (numeric_10_2 z).
Proof. unfold numeric_10_2. apply _. Defined.
#[global] Instance varchar_dec n s : Decision (varchar n s).
Proof. unfold varchar. apply _. Defined.

(** *** What a table admits at INSERT

    The primary keys, [unique=True] columns, foreign keys and the check
    constraint that the models declare, and the types of the columns that
    no validator of the model bounds ([itn] and [psrn] of an autoservice,
    which their validators let exceed the column by a final line feed;
    [price] and [description] of a provided maintenance).  A nullable
    column satisfies a constraint when it is NULL. *)

Definition fresh {T K} (key : T -> K) (table : list T) (r : T) : Prop :=
  key r ∉ key <$> table.

Definition refers {T K} (key : T -> K) (table : list T) (k : K) : Prop :=
  k ∈ key <$> table.

Definition null_or {K} (P : K -> Prop) (k : option K) : Prop :=
  match k with None => True | Some k => P k end.

#[global] Instance null_or_dec {K} (P : K -> Prop) `{!forall k, Decision (P k)}
  (k : option K) : Decision (null_or P k).
Proof. destruct k; simpl; apply _. Defined.

Definition customer_admits (d : DB) (r : Customer.t) : Prop :=
  fresh Customer.customer_id (customers d) r ∧ fresh Customer.uid (customers d) r.

Definition mechanic_admits (d : DB) (r : Mechanic.t) : Prop :=
  fresh Mechanic.mechanic_id (mechanics d) r ∧ fresh Mechanic.uid (mechanics d) r.

Definition autoservice_admits (d : DB) (r : Autoservice.t) : Prop :=
  fresh Autoservice.autoservice_id (autoservices d) r
  ∧ varchar 12 (Autoservice.itn r) ∧ varchar 13 (Autoservice.psrn r).

Definition autoservice_user_key (r : AutoserviceUser.t) : UUID * UUID :=
  (AutoserviceUser.uid r, AutoserviceUser.autoservice_id r).

Definition autoservice_user_admits (d : DB) (r : AutoserviceUser.t) : Prop :=
  fresh autoservice_user_key (autoservice_users d) r
  ∧ refers Autoservice.autoservice_id (autoservices d) (AutoserviceUser.autoservice_id r).

Definition country_admits (d : DB) (r : Country.t) : Prop :=
  fresh Country.country_id (countries d) r ∧ fresh Country.name (countries d) r.

Definition vehicle_brand_admits (d : DB) (r : VehicleBrand.t) : Prop :=
  fresh VehicleBrand.vehicle_brand_id (vehicle_brands d) r
  ∧ fresh VehicleBrand.name (vehicle_brands d) r
  ∧ refers Country.country_id (countries d) (VehicleBrand.country_id r).

Definition vehicle_model_admits (d : DB) (r : VehicleModel.t) : Prop :=
  fresh VehicleModel.vehicle_model_id (vehicle_models d) r
  ∧ refers VehicleBrand.vehicle_brand_id (vehicle_brands d)
      (VehicleModel.vehicle_brand_id r).

Definition vehicle_generation_admits (d : DB) (r : VehicleGeneration.t) : Prop :=
  fresh VehicleGeneration.vehicle_generation_id (vehicle_generations d) r
  ∧ refers VehicleModel.vehicle_model_id (vehicle_models d)
      (VehicleGeneration.vehicle_model_id r).

Definition vehicle_admits (d : DB) (r : Vehicle.t) : Prop :=
  fresh Vehicle.vehicle_id (vehicles d) r
  ∧ null_or (fun v => Some v ∉ Vehicle.vin <$> vehicles d) (Vehicle.vin r)
  ∧ refers VehicleBrand.vehicle_brand_id (vehicle_brands d) (Vehicle.vehicle_brand_id r)
  ∧ refers VehicleModel.vehicle_model_id (vehicle_models d) (Vehicle.vehicle_model_id r)
  ∧ refers VehicleGeneration.vehicle_generation_id (vehicle_generations d)
      (Vehicle.vehicle_generation_id r)
  ∧ refers Customer.customer_id (customers d) (Vehicle.customer_id r).

Definition provided_maintenance_type_admits (d : DB)
    (r : ProvidedMaintenanceType.t) : Prop :=
  fresh ProvidedMaintenanceType.provided_maintenance_type_id
    (provided_maintenance_types d) r
  ∧ fresh ProvidedMaintenanceType.name (provided_maintenance_types d) r.

Definition provided_maintenance_admits (d : DB) (r : ProvidedMaintenance.t) : Prop :=
  fresh ProvidedMaintenance.provided_maintenance_id (provided_maintenance d) r
  ∧ ProvidedMaintenance.check_mechanic_or_autoservice r
  ∧ numeric_10_2 (ProvidedMaintenance.price r)
  ∧ null_or (varchar 500) (ProvidedMaintenance.description r)
  ∧ refers ProvidedMaintenanceType.provided_maintenance_type_id
      (provided_maintenance_types d) (ProvidedMaintenance.provided_maintenance_type_id r)
  ∧ null_or (refers Mechanic.mechanic_id (mechanics d))
      (ProvidedMaintenance.mechanic_id r)
  ∧ null_or (refers Autoservice.autoservice_id (autoservices d))
      (ProvidedMaintenance.autoservice_id r).

Definition country_association_admits (d : DB)
    (r : ProvidedMaintenanceCountryAssociation.t) : Prop :=
  fresh ProvidedMaintenanceCountryAssociation.key
    (provided_maintenance_country_association d) r
  ∧ refers ProvidedMaintenance.provided_maintenance_id (provided_maintenance d)
      (ProvidedMaintenanceCountryAssociation.provided_maintenance_id r)
  ∧ refers Country.country_id (countries d)
      (ProvidedMaintenanceCountryAssociation.country_id r).

Definition vehicle_brand_association_admits (d : DB)
    (r : ProvidedMaintenanceVehicleBrandAssociation.t) : Prop :=
  fresh ProvidedMaintenanceVehicleBrandAssociation.key
    (provided_maintenance_vehicle_brand_association d) r
  ∧ refers ProvidedMaintenance.provided_maintenance_id (provided_maintenance d)
      (ProvidedMaintenanceVehicleBrandAssociation.provided_maintenance_id r)
  ∧ refers VehicleBrand.vehicle_brand_id (vehicle_brands d)
      (ProvidedMaintenanceVehicleBrandAssociation.vehicle_brand_id r).

Ltac unfold_admits :=
  unfold customer_admits, mechanic_admits, autoservice_admits,
    autoservice_user_admits, country_admits, vehicle_brand_admits,
    vehicle_model_admits, vehicle_generation_admits, vehicle_admits,
    provided_maintenance_type_admits, provided_maintenance_admits,
    country_association_admits, vehicle_brand_association_admits,
    ProvidedMaintenance.check_mechanic_or_autoservice, fresh, refers.

#[global] Instance customer_admits_dec d r : Decision (customer_admits d r).
Proof. unfold_admits; apply _. Defined.
#[global] Instance mechanic_admits_dec d r : Decision (mechanic_admits d r).
Proof. unfold_admits; apply _. Defined.
#[global] Instance autoservice_admits_dec d r : Decision (autoservice_admits d r).
Proof. unfold_admits; apply _. Defined.
#[global] Instance autoservice_user_admits_dec d r :
  Decision (autoservice_user_admits d r).
Proof. unfold_admits; apply _. Defined.
#[global] Instance country_admits_dec d r : Decision (country_admits d r).
Proof. unfold_admits; apply _. Defined.
#[global] Instance vehicle_brand_admits_dec d r : Decision (vehicle_brand_admits d r).
Proof. unfold_admits; apply _. Defined.
#[global] Instance vehicle_model_admits_dec d r : Decision (vehicle_model_admits d r).
Proof. unfold_admits; apply _. Defined.
#[global] Instance vehicle_generation_admits_dec d r :
  Decision (vehicle_generation_admits d r).
Proof. unfold_admits; apply _. Defined.
#[global] Instance vehicle_admits_dec d r : Decision (vehicle_admits d r).
Proof. unfold_admits; apply _. Defined.
#[global] Instance provided_maintenance_type_admits_dec d r :
  Decision (provided_maintenance_type_admits d r).
Proof. unfold_admits; apply _. Defined.
#[global] Instance provided_maintenance_admits_dec d r :
  Decision (provided_maintenance_admits d r).
Proof. unfold_admits; apply _. Defined.
#[global] Instance country_association_admits_dec d r :
  Decision (country_association_admits d r).
Proof. unfold_admits; apply _. Defined.
#[global] Instance vehicle_brand_association_admits_dec d r :
  Decision (vehicle_brand_association_admits d r).
Proof. unfold_admits; apply _. Defined.

(** ** Services run in a session: state and exceptions *)

Definition M (A : Type) : Type := DB -> result A * DB.

#[global] Instance M_ret : MRet M := fun A a d => (inr a, d).

#[global] Instance M_bind : MBind M := fun A B k m d =>
  match m d with
  | (inl e, d') => (inl e, d')
  | (inr a, d') => k a d'
  end.

Definition raise {A} (e : exn) : M A := fun d => (inl e, d).

(** [statement] with the integer [value] bound to a column of type
    [type]: an integer outside the type is refused before the statement
    runs, which the repository reports as [IntegrityError]. *)
Definition bind_param {A} (type : Z -> Prop) `{!forall z, Decision (type z)}
    (value : Z) (statement : M A) : M A :=
  if decide (type value) then statement else raise IntegrityError.

(** *** Repositories ([SQLAlchemyAsyncRepository]) *)

Record Repository (T K : Type) := mkRepository {
  rows : DB -> list T;
  with_rows : list T -> DB -> DB;
  id_attribute : T -> K;
  admits : DB -> T -> Prop;
  admits_dec : forall d r, Decision (admits d r)
}.
Arguments rows {T K}.
Arguments with_rows {T K}.
Arguments id_attribute {T K}.
Arguments admits {T K}.
Arguments admits_dec {T K}.
#[global] Existing Instance admits_dec.

(** [scalar_one_or_none]: no row, the row, or [MultipleResultsFound]. *)
Definition one_or_none {T} (found : list T) : result (option T) :=
  match found with
  | [] => inr None
  | [row] => inr (Some row)
  | _ => inl MultipleResultsFound
  end.

(** The rows with identifier [k] rewritten by [f], the others kept. *)
Definition amend {T K} `{!EqDecision K} (key : T -> K) (k : K) (f : T -> T)
    (table : list T) : list T :=
  (fun r => if decide (key r = k) then f r else r) <$> table.

Section Repository.
Context {T K : Type} `{!EqDecision K} (R : Repository T K).

(** [get_one_or_none(criterion)] *)
Definition get_one_or_none (P : T -> Prop) `{!forall r, Decision (P r)} :
    M (option T) :=
  fun d => (one_or_none (filter P (rows R d)), d).

(** [create(data)]: the row is added and flushed, or the table refuses it. *)
Definition create (data : T) : M T :=
  fun d =>
    if decide (admits R d data)
    then (inr data, with_rows R (rows R d ++ [data]) d)
    else (inl IntegrityError, d).

(** [update(data, item_id)]: the row with this identifier gets the
    attributes of [data]; [NotFoundError] when there is none. *)
Definition update (setattrs : T -> T) (item_id : K) : M T :=
  fun d =>
    match filter (fun r => id_attribute R r = item_id) (rows R d) with
    | [] => (inl NotFoundError, d)
    | [existing] =>
        (inr (setattrs existing),
         with_rows R (amend (id_attribute R) item_id setattrs (rows R d)) d)
    | _ => (inl MultipleResultsFound, d)
    end.
End Repository.

(** The shape of every [get_..._by_...] method: the row that satisfies the
    criterion, or the exception of the service. *)
Definition get_or_raise {T K} (R : Repository T K) (P : T -> Prop)
    `{!forall r, Decision (P r)} (e : exn) : M T :=
  found ← get_one_or_none R P;
  match found with
  | None => raise e
  | Some row => mret row
  end.

Definition CustomerRepository : Repository Customer.t UUID :=
  mkRepository _ _ customers with_customers Customer.customer_id customer_admits _.

Definition MechanicRepository : Repository Mechanic.t UUID :=
  mkRepository _ _ mechanics with_mechanics Mechanic.mechanic_id mechanic_admits _.

Definition AutoserviceUserRepository : Repository AutoserviceUser.t UUID :=
  mkRepository _ _ autoservice_users with_autoservice_users AutoserviceUser.uid
    autoservice_user_admits _.

Definition AutoserviceRepository : Repository Autoservice.t UUID :=
  mkRepository _ _ autoservices with_autoservices Autoservice.autoservice_id
    autoservice_admits _.

Definition CountryRepository : Repository Country.t Z :=
  mkRepository _ _ countries with_countries Country.country_id country_admits _.

Definition VehicleBrandRepository : Repository VehicleBrand.t Z :=
  mkRepository _ _ vehicle_brands with_vehicle_brands VehicleBrand.vehicle_brand_id
    vehicle_brand_admits _.

Definition VehicleModelRepository : Repository VehicleModel.t Z :=
  mkRepository _ _ vehicle_models with_vehicle_models VehicleModel.vehicle_model_id
    vehicle_model_admits _.

Definition VehicleGenerationRepository : Repository VehicleGeneration.t Z :=
  mkRepository _ _ vehicle_generations with_vehicle_generations
    VehicleGeneration.vehicle_generation_id vehicle_generation_admits _.

Definition BaseVehicleRepository : Repository Vehicle.t UUID :=
  mkRepository _ _ vehicles with_vehicles Vehicle.vehicle_id vehicle_admits _.

Definition ProvidedMaintenanceTypeRepository :
    Repository ProvidedMaintenanceType.t Z :=
  mkRepository _ _ provided_maintenance_types with_provided_maintenance_types
    ProvidedMaintenanceType.provided_maintenance_type_id
    provided_maintenance_type_admits _.

Definition BaseProvidedMaintenanceRepository :
    Repository ProvidedMaintenance.t UUID :=
  mkRepository _ _ provided_maintenance with_provided_maintenance
    ProvidedMaintenance.provided_maintenance_id provided_maintenance_admits _.

Definition ProvidedMaintenanceVehicleBrandAssociationRepository :
    Repository ProvidedMaintenanceVehicleBrandAssociation.t UUID :=
  mkRepository _ _ provided_maintenance_vehicle_brand_association
    with_provided_maintenance_vehicle_brand_association
    ProvidedMaintenanceVehicleBrandAssociation.provided_maintenance_id
    vehicle_brand_association_admits _.

Definition ProvidedMaintenanceCountryAssociationRepository :
    Repository ProvidedMaintenanceCountryAssociation.t UUID :=
  mkRepository _ _ provided_maintenance_country_association
    with_provided_maintenance_country_association
    ProvidedMaintenanceCountryAssociation.provided_maintenance_id
    country_association_admits _.

(** ** The services *)

Module CustomerService.
Definition get_customer_by_customer_id (customer_id : UUID) : M Customer.t :=
  customer ← get_one_or_none CustomerRepository
                (fun c => Customer.customer_id c = customer_id);
  match customer with
  | None => raise CustomerNotFoundError
  | Some customer => mret customer
  end.

Definition create_customer (customer : Customer.t) (user : User.t) : M Customer.t :=
  saved_customer ← get_one_or_none CustomerRepository
                      (fun c => Customer.uid c = User.uid user);
  match saved_customer with
  | Some saved_customer => mret saved_customer
  | None => create CustomerRepository (Customer.with_uid (User.uid user) customer)
  end.

Definition patch_customer (customer_id : UUID) (changed_customer : Customer.partial)
    (user : User.t) : M Customer.t :=
  let update_data := changed_customer in
  customer ← get_customer_by_customer_id customer_id;
  if decide (Customer.uid customer ≠ User.uid user)
  then raise CustomerBelongsToAnotherUserError
  else update CustomerRepository (Customer.setattrs update_data)
         (Customer.customer_id customer).
End CustomerService.

Module MechanicService.
Definition validate_mechanic_owner (mechanic : Mechanic.t) (user : User.t) : M unit :=
  if decide (Mechanic.uid mechanic ≠ User.uid user)
  then raise MechanicBelongsToAnotherUserError
  else mret ().

Definition get_mechanic_by_mechanic_id (mechanic_id : UUID) : M Mechanic.t :=
  mechanic ← get_one_or_none MechanicRepository
                (fun m => Mechanic.mechanic_id m = mechanic_id);
  match mechanic with
  | None => raise MechanicNotFoundError
  | Some mechanic => mret mechanic
  end.

Definition create_mechanic (mechanic : Mechanic.t) (user : User.t) : M Mechanic.t :=
  saved_mechanic ← get_one_or_none MechanicRepository
                      (fun m => Mechanic.uid m = User.uid user);
  match saved_mechanic with
  | Some saved_mechanic => mret saved_mechanic
  | None => create MechanicRepository (Mechanic.with_uid (User.uid user) mechanic)
  end.

Definition patch_mechanic (mechanic_id : UUID) (changed_mechanic : Mechanic.partial)
    (user : User.t) : M Mechanic.t :=
  let update_data := changed_mechanic in
  mechanic ← get_mechanic_by_mechanic_id mechanic_id;
  if decide (Mechanic.uid mechanic ≠ User.uid user)
  then raise MechanicBelongsToAnotherUserError
  else update MechanicRepository (Mechanic.setattrs update_data)
         (Mechanic.mechanic_id mechanic).
End MechanicService.

Module AutoserviceUserService.
Definition get_autoservice_user_by_uid_and_autoservice_id
    (uid autoservice_id : UUID) : M AutoserviceUser.t :=
  autoservice_user ← get_one_or_none AutoserviceUserRepository
    (fun r => AutoserviceUser.uid r = uid
              ∧ AutoserviceUser.autoservice_id r = autoservice_id);
  match autoservice_user with
  | None => raise AutoserviceUserNotFoundError
  | Some autoservice_user => mret autoservice_user
  end.

Definition create_autoservice_owner (autoservice : Autoservice.t) (user : User.t) :
    M AutoserviceUser.t :=
  let autoservice_user :=
    AutoserviceUser.mk (User.uid user) (Autoservice.autoservice_id autoservice)
      all_permissions in
  create AutoserviceUserRepository autoservice_user.
End AutoserviceUserService.

Module BaseAutoserviceService.
Definition get_autoservice_by_autoservice_id (autoservice_id : UUID) :
    M Autoservice.t :=
  autoservice ← get_one_or_none AutoserviceRepository
                   (fun a => Autoservice.autoservice_id a = autoservice_id);
  match autoservice with
  | None => raise AutoserviceNotFoundError
  | Some autoservice => mret autoservice
  end.

Definition create_autoservice (autoservice : Autoservice.t) : M Autoservice.t :=
  create AutoserviceRepository autoservice.

Definition update_autoservice (autoservice_id : UUID)
    (changed_autoservice : Autoservice.partial) : M Autoservice.t :=
  update AutoserviceRepository (Autoservice.setattrs changed_autoservice)
    autoservice_id.
End BaseAutoserviceService.

Module AutoserviceService.
Definition get_autoservice_by_autoservice_id (autoservice_id : UUID) :
    M Autoservice.t :=
  BaseAutoserviceService.get_autoservice_by_autoservice_id autoservice_id.

Definition create_autoservice (autoservice : Autoservice.t) (user : User.t) :
    M Autoservice.t :=
  autoservice ← BaseAutoserviceService.create_autoservice autoservice;
  _ ← AutoserviceUserService.create_autoservice_owner autoservice user;
  mret autoservice.

Definition validate_autoservice_manage_provided_maintenance_permissions
    (autoservice : Autoservice.t) (user : User.t) : M unit :=
  autoservice_user ←
    AutoserviceUserService.get_autoservice_user_by_uid_and_autoservice_id
      (User.uid user) (Autoservice.autoservice_id autoservice);
  if decide (autoservice_manage_provided_maintenance
               ∉ AutoserviceUser.permissions autoservice_user)
  then raise AutoserviceUserDoesntHavePermissionsError
  else mret ().

Definition patch_autoservice (autoservice_id : UUID) (user : User.t)
    (changed_autoservice : Autoservice.partial) : M Autoservice.t :=
  let update_data := changed_autoservice in
  autoservice ← get_autoservice_by_autoservice_id autoservice_id;
  autoservice_user ←
    AutoserviceUserService.get_autoservice_user_by_uid_and_autoservice_id
      (User.uid user) (Autoservice.autoservice_id autoservice);
  if decide (autoservice_manage ∉ AutoserviceUser.permissions autoservice_user)
  then raise AutoserviceUserDoesntHavePermissionsError
  else BaseAutoserviceService.update_autoservice autoservice_id update_data.
End AutoserviceService.

Module CountryService.
Definition get_country_by_country_id (country_id : Z) : M Country.t :=
  country ← bind_param smallint country_id
               (get_one_or_none CountryRepository
                  (fun c => Country.country_id c = country_id));
  match country with
  | None => raise CountryNotFoundError
  | Some country => mret country
  end.
End CountryService.

Module VehicleBrandService.
Definition get_vehicle_brand_by_vehicle_brand_id (vehicle_brand_id : Z) :
    M VehicleBrand.t :=
  vehicle_brand ← bind_param smallint vehicle_brand_id
                     (get_one_or_none VehicleBrandRepository
                        (fun b => VehicleBrand.vehicle_brand_id b = vehicle_brand_id));
  match vehicle_brand with
  | None => raise VehicleBrandNotFoundError
  | Some vehicle_brand => mret vehicle_brand
  end.
End VehicleBrandService.

Module VehicleModelService.
Definition get_vehicle_model_by_vehicle_model_id (vehicle_model_id : Z) :
    M VehicleModel.t :=
  vehicle_model ← bind_param integer vehicle_model_id
                     (get_one_or_none VehicleModelRepository
                        (fun m => VehicleModel.vehicle_model_id m = vehicle_model_id));
  match vehicle_model with
  | None => raise VehicleModelNotFoundError
  | Some vehicle_model => mret vehicle_model
  end.
End VehicleModelService.

Module VehicleGenerationService.
Definition get_vehicle_generation_by_vehicle_generation_id
    (vehicle_generation_id : Z) : M VehicleGeneration.t :=
  vehicle_generation ← bind_param integer vehicle_generation_id
    (get_one_or_none VehicleGenerationRepository
       (fun g => VehicleGeneration.vehicle_generation_id g = vehicle_generation_id));
  match vehicle_generation with
  | None => raise VehicleGenerationNotFoundError
  | Some vehicle_generation => mret vehicle_generation
  end.
End VehicleGenerationService.

Module CommonVehicleService.
Definition validate_vehicle_params
    (vehicle_brand_id vehicle_model_id vehicle_generation_id : Z) :
    M (VehicleBrand.t * VehicleModel.t * VehicleGeneration.t) :=
  vehicle_brand ←
    VehicleBrandService.get_vehicle_brand_by_vehicle_brand_id vehicle_brand_id;
  vehicle_model ←
    VehicleModelService.get_vehicle_model_by_vehicle_model_id vehicle_model_id;
  if decide (VehicleModel.vehicle_brand_id vehicle_model
             ≠ VehicleBrand.vehicle_brand_id vehicle_brand)
  then raise VehicleModelDoesntMatchWithVehicleBrandError
  else
    vehicle_generation ←
      VehicleGenerationService.get_vehicle_generation_by_vehicle_generation_id
        vehicle_generation_id;
    if decide (VehicleGeneration.vehicle_model_id vehicle_generation
               ≠ VehicleModel.vehicle_model_id vehicle_model)
    then raise VehicleGenerationDoesntMatchWithVehicleModelError
    else mret (vehicle_brand, vehicle_model, vehicle_generation).
End CommonVehicleService.

Module BaseVehicleService.
Definition create_vehicle (vehicle : Vehicle.t) : M Vehicle.t :=
  create BaseVehicleRepository vehicle.
End BaseVehicleService.

(** A [Vehicle] with the relations that [create_vehicle] attaches to it. *)
Record LoadedVehicle := mkLoadedVehicle {
  vehicle_row : Vehicle.t;
  vehicle_brand : VehicleBrand.t;
  vehicle_model : VehicleModel.t;
  vehicle_generation : VehicleGeneration.t;
  vehicle_customer : Customer.t
}.

Module VehicleService.
Definition get_vehicle_by_vehicle_id (vehicle_id : UUID) : M Vehicle.t :=
  vehicle ← get_one_or_none BaseVehicleRepository
               (fun v => Vehicle.vehicle_id v = vehicle_id);
  match vehicle with
  | None => raise VehicleNotFoundError
  | Some vehicle => mret vehicle
  end.

Definition create_vehicle (vehicle : Vehicle.t) : M LoadedVehicle :=
  '(vehicle_brand, vehicle_model, vehicle_generation) ←
    CommonVehicleService.validate_vehicle_params
      (Vehicle.vehicle_brand_id vehicle) (Vehicle.vehicle_model_id vehicle)
      (Vehicle.vehicle_generation_id vehicle);
  customer ← CustomerService.get_customer_by_customer_id (Vehicle.customer_id vehicle);
  vehicle ← BaseVehicleService.create_vehicle vehicle;
  mret (mkLoadedVehicle vehicle vehicle_brand vehicle_model vehicle_generation customer).
End VehicleService.

Module ProvidedMaintenanceTypeService.
Definition get_provided_maintenance_type_by_provided_maintenance_id
    (provided_maintenance_type_id : Z) : M ProvidedMaintenanceType.t :=
  provided_maintenance_type ← bind_param smallint provided_maintenance_type_id
    (get_one_or_none ProvidedMaintenanceTypeRepository
       (fun t => ProvidedMaintenanceType.provided_maintenance_type_id t
                 = provided_maintenance_type_id));
  match provided_maintenance_type with
  | None => raise ProvidedMaintenanceTypeNotFoundError
  | Some provided_maintenance_type => mret provided_maintenance_type
  end.
End ProvidedMaintenanceTypeService.

Module BaseProvidedMaintenanceService.
Definition get_provided_maintenance_by_provided_maintenance_id
    (provided_maintenance_id : UUID) : M ProvidedMaintenance.t :=
  provided_maintenance ← get_one_or_none BaseProvidedMaintenanceRepository
    (fun p => ProvidedMaintenance.provided_maintenance_id p = provided_maintenance_id);
  match provided_maintenance with
  | None => raise ProvidedMaintenanceNotFoundError
  | Some provided_maintenance => mret provided_maintenance
  end.
End BaseProvidedMaintenanceService.

Module ProvidedMaintenanceVehicleBrandAssociationService.
Definition create_provided_maintenance_vehicle_brand_association
    (provided_maintenance_vehicle_brand_association :
       ProvidedMaintenanceVehicleBrandAssociation.t) :
    M ProvidedMaintenanceVehicleBrandAssociation.t :=
  existing ← get_one_or_none ProvidedMaintenanceVehicleBrandAssociationRepository
    (fun r =>
       ProvidedMaintenanceVehicleBrandAssociation.provided_maintenance_id r
       = ProvidedMaintenanceVehicleBrandAssociation.provided_maintenance_id
           provided_maintenance_vehicle_brand_association
       ∧ ProvidedMaintenanceVehicleBrandAssociation.vehicle_brand_id r
         = ProvidedMaintenanceVehicleBrandAssociation.vehicle_brand_id
             provided_maintenance_vehicle_brand_association);
  match existing with
  | Some _ => raise ProvidedMaintenanceVehicleBrandAssociationAlreadyExistsError
  | None =>
      create ProvidedMaintenanceVehicleBrandAssociationRepository
        provided_maintenance_vehicle_brand_association
  end.
End ProvidedMaintenanceVehicleBrandAssociationService.

Module ProvidedMaintenanceCountryAssociationService.
Definition create_provided_maintenance_country_association
    (provided_maintenance_country_association :
       ProvidedMaintenanceCountryAssociation.t) :
    M ProvidedMaintenanceCountryAssociation.t :=
  existing ← get_one_or_none ProvidedMaintenanceCountryAssociationRepository
    (fun r =>
       ProvidedMaintenanceCountryAssociation.provided_maintenance_id r
       = ProvidedMaintenanceCountryAssociation.provided_maintenance_id
           provided_maintenance_country_association
       ∧ ProvidedMaintenanceCountryAssociation.country_id r
         = ProvidedMaintenanceCountryAssociation.country_id
             provided_maintenance_country_association);
  match existing with
  | Some _ => raise ProvidedMaintenanceCountryAssociationAlreadyExistsError
  | None =>
      create ProvidedMaintenanceCountryAssociationRepository
        provided_maintenance_country_association
  end.
End ProvidedMaintenanceCountryAssociationService.

(** A [ProvidedMaintenance] with the performers that the service attaches. *)
Record LoadedProvidedMaintenance := mkLoadedProvidedMaintenance {
  provided_maintenance_row : ProvidedMaintenance.t;
  mechanic : option Mechanic.t;
  autoservice : option Autoservice.t
}.

Module ProvidedMaintenanceService.
Definition _get_provided_maintenance_with_owner (provided_maintenance_id : UUID)
    (user : User.t) : M LoadedProvidedMaintenance :=
  provided_maintenance ←
    BaseProvidedMaintenanceService.get_provided_maintenance_by_provided_maintenance_id
      provided_maintenance_id;
  mechanic ←
    match ProvidedMaintenance.mechanic_id provided_maintenance with
    | Some mechanic_id =>
        mechanic ← MechanicService.get_mechanic_by_mechanic_id mechanic_id;
        if decide (Mechanic.uid mechanic ≠ User.uid user)
        then raise MechanicBelongsToAnotherUserError
        else mret (Some mechanic)
    | None => mret None
    end;
  autoservice ←
    match ProvidedMaintenance.autoservice_id provided_maintenance with
    | Some autoservice_id =>
        autoservice ←
          AutoserviceService.get_autoservice_by_autoservice_id autoservice_id;
        _ ← AutoserviceService.validate_autoservice_manage_provided_maintenance_permissions
              autoservice user;
        mret (Some autoservice)
    | None => mret None
    end;
  mret (mkLoadedProvidedMaintenance provided_maintenance mechanic autoservice).

Definition create_provided_maintenance (provided_maintenance : ProvidedMaintenance.t)
    (user : User.t) : M (LoadedProvidedMaintenance * ProvidedMaintenanceType.t) :=
  provided_maintenance_type ←
    ProvidedMaintenanceTypeService.get_provided_maintenance_type_by_provided_maintenance_id
      (ProvidedMaintenance.provided_maintenance_type_id provided_maintenance);
  mechanic ←
    match ProvidedMaintenance.mechanic_id provided_maintenance with
    | Some mechanic_id =>
        mechanic ← MechanicService.get_mechanic_by_mechanic_id mechanic_id;
        _ ← MechanicService.validate_mechanic_owner mechanic user;
        mret (Some mechanic)
    | None => mret None
    end;
  autoservice ←
    match ProvidedMaintenance.autoservice_id provided_maintenance with
    | Some autoservice_id =>
        autoservice ←
          AutoserviceService.get_autoservice_by_autoservice_id autoservice_id;
        _ ← AutoserviceService.validate_autoservice_manage_provided_maintenance_permissions
              autoservice user;
        mret (Some autoservice)
    | None => mret None
    end;
  provided_maintenance ← create BaseProvidedMaintenanceRepository provided_maintenance;
  mret (mkLoadedProvidedMaintenance provided_maintenance mechanic autoservice,
        provided_maintenance_type).

Definition create_provided_maintenance_country_association
    (provided_maintenance_country_association :
       ProvidedMaintenanceCountryAssociation.t) (user : User.t) :
    M ProvidedMaintenanceCountryAssociation.t :=
  _ ← _get_provided_maintenance_with_owner
        (ProvidedMaintenanceCountryAssociation.provided_maintenance_id
           provided_maintenance_country_association) user;
  _ ← CountryService.get_country_by_country_id
        (ProvidedMaintenanceCountryAssociation.country_id
           provided_maintenance_country_association);
  ProvidedMaintenanceCountryAssociationService.create_provided_maintenance_country_association
    provided_maintenance_country_association.

Definition create_provided_maintenance_vehicle_brand_association
    (provided_maintenance_vehicle_brand_association :
       ProvidedMaintenanceVehicleBrandAssociation.t) (user : User.t) :
    M ProvidedMaintenanceVehicleBrandAssociation.t :=
  _ ← _get_provided_maintenance_with_owner
        (ProvidedMaintenanceVehicleBrandAssociation.provided_maintenance_id
           provided_maintenance_vehicle_brand_association) user;
  _ ← VehicleBrandService.get_vehicle_brand_by_vehicle_brand_id
        (ProvidedMaintenanceVehicleBrandAssociation.vehicle_brand_id
           provided_maintenance_vehicle_brand_association);
  ProvidedMaintenanceVehicleBrandAssociationService.create_provided_maintenance_vehicle_brand_association
    provided_maintenance_vehicle_brand_association.
End ProvidedMaintenanceService.

(** ** The controllers ([products/api/v1])

    A controller turns the exceptions it names into HTTP exceptions; the
    session plugin ([before_send_handler = "autocommit"]) commits the
    session when the response is a success and rolls it back otherwise. *)

Inductive http_exception :=
| NotFoundException
| PermissionDeniedException
| ConflictException
| Unhandled (e : exn).

Definition except {A} (handlers : exn -> option http_exception) (m : M A) :
    DB -> (http_exception + A) * DB :=
  fun d =>
    match m d with
    | (inr a, d') => (inr a, d')
    | (inl e, d') => (inl (default (Unhandled e) (handlers e)), d')
    end.

Definition autocommit {A} (before : DB) (r : (http_exception + A) * DB) : DB :=
  match r with
  | (inr _, after) => after
  | (inl _, _) => before
  end.

Module CustomerController.
Definition create_customer (user : User.t) (data : Customer.t) :=
  except (fun _ => None) (CustomerService.create_customer data user).

Definition patch_customer (user : User.t) (customer_id : UUID)
    (data : Customer.partial) :=
  except (fun e => match e with
                   | CustomerNotFoundError => Some NotFoundException
                   | CustomerBelongsToAnotherUserError => Some PermissionDeniedException
                   | _ => None
                   end)
    (CustomerService.patch_customer customer_id data user).
End CustomerController.

Module MechanicController.
Definition create_mechanic (user : User.t) (data : Mechanic.t) :=
  except (fun _ => None) (MechanicService.create_mechanic data user).

Definition patch_mechanic (user : User.t) (mechanic_id : UUID)
    (data : Mechanic.partial) :=
  except (fun e => match e with
                   | MechanicNotFoundError => Some NotFoundException
                   | MechanicBelongsToAnotherUserError => Some PermissionDeniedException
                   | _ => None
                   end)
    (MechanicService.patch_mechanic mechanic_id data user).
End MechanicController.

Module AutoserviceController.
Definition create_autoservice (user : User.t) (data : Autoservice.t) :=
  except (fun _ => None) (AutoserviceService.create_autoservice data user).

Definition patch_autoservice (user : User.t) (autoservice_id : UUID)
    (data : Autoservice.partial) :=
  except (fun e => match e with
                   | AutoserviceNotFoundError => Some NotFoundException
                   | AutoserviceUserNotFoundError
                   | AutoserviceUserDoesntHavePermissionsError =>
                       Some PermissionDeniedException
                   | _ => None
                   end)
    (AutoserviceService.patch_autoservice autoservice_id user data).
End AutoserviceController.

Module VehicleController.
Definition create_vehicle (data : Vehicle.t) :=
  except (fun e => match e with
                   | CustomerNotFoundError
                   | VehicleBrandNotFoundError
                   | VehicleModelNotFoundError
                   | VehicleGenerationNotFoundError
                   | VehicleModelDoesntMatchWithVehicleBrandError
                   | VehicleGenerationDoesntMatchWithVehicleModelError =>
                       Some ConflictException
                   | _ => None
                   end)
    (VehicleService.create_vehicle data).
End VehicleController.

Module MaintenanceController.
Definition create_provided_maintenance (user : User.t)
    (data : ProvidedMaintenance.t) :=
  except (fun e => match e with
                   | ProvidedMaintenanceTypeNotFoundError
                   | MechanicNotFoundError
                   | AutoserviceNotFoundError => Some NotFoundException
                   | MechanicBelongsToAnotherUserError
                   | AutoserviceUserNotFoundError
                   | AutoserviceUserDoesntHavePermissionsError =>
                       Some PermissionDeniedException
                   | _ => None
                   end)
    (ProvidedMaintenanceService.create_provided_maintenance data user).

Definition create_provided_maintenance_country_association (user : User.t)
    (data : ProvidedMaintenanceCountryAssociation.t) :=
  except (fun e => match e with
                   | ProvidedMaintenanceNotFoundError
                   | CountryNotFoundError => Some NotFoundException
                   | MechanicBelongsToAnotherUserError
                   | AutoserviceUserNotFoundError
                   | AutoserviceUserDoesntHavePermissionsError =>
                       Some PermissionDeniedException
                   | ProvidedMaintenanceCountryAssociationAlreadyExistsError =>
                       Some ConflictException
                   | _ => None
                   end)
    (ProvidedMaintenanceService.create_provided_maintenance_country_association
       data user).

Definition create_provided_maintenance_vehicle_brand_association (user : User.t)
    (data : ProvidedMaintenanceVehicleBrandAssociation.t) :=
  except (fun e => match e with
                   | ProvidedMaintenanceNotFoundError
                   | VehicleBrandNotFoundError => Some NotFoundException
                   | MechanicBelongsToAnotherUserError
                   | AutoserviceUserNotFoundError
                   | AutoserviceUserDoesntHavePermissionsError =>
                       Some PermissionDeniedException
                   | ProvidedMaintenanceVehicleBrandAssociationAlreadyExistsError =>
                       Some ConflictException
                   | _ => None
                   end)
    (ProvidedMaintenanceService.create_provided_maintenance_vehicle_brand_association
       data user).
End MaintenanceController.

(** The requests that write to the store, and the store after each. *)
Inductive request :=
| PostCustomer (user : User.t) (data : Customer.t)
| PatchCustomer (user : User.t) (customer_id : UUID) (data : Customer.partial)
| PostMechanic (user : User.t) (data : Mechanic.t)
| PatchMechanic (user : User.t) (mechanic_id : UUID) (data : Mechanic.partial)
| PostAutoservice (user : User.t) (data : Autoservice.t)
| PatchAutoservice (user : User.t) (autoservice_id : UUID) (data : Autoservice.partial)
| PostVehicle (data : Vehicle.t)
| PostProvidedMaintenance (user : User.t) (data : ProvidedMaintenance.t)
| PostProvidedMaintenanceCountry (user : User.t)
    (data : ProvidedMaintenanceCountryAssociation.t)
| PostProvidedMaintenanceVehicleBrand (user : User.t)
    (data : ProvidedMaintenanceVehicleBrandAssociation.t).

Definition handle (d : DB) (q : request) : DB :=
  match q with
  | PostCustomer u x => autocommit d (CustomerController.create_customer u x d)
  | PatchCustomer u i x => autocommit d (CustomerController.patch_customer u i x d)
  | PostMechanic u x => autocommit d (MechanicController.create_mechanic u x d)
  | PatchMechanic u i x => autocommit d (MechanicController.patch_mechanic u i x d)
  | PostAutoservice u x => autocommit d (AutoserviceController.create_autoservice u x d)
  | PatchAutoservice u i x =>
      autocommit d (AutoserviceController.patch_autoservice u i x d)
  | PostVehicle x => autocommit d (VehicleController.create_vehicle x d)
  | PostProvidedMaintenance u x =>
      autocommit d (MaintenanceController.create_provided_maintenance u x d)
  | PostProvidedMaintenanceCountry u x =>
      autocommit d
        (MaintenanceController.create_provided_maintenance_country_association u x d)
  | PostProvidedMaintenanceVehicleBrand u x =>
      autocommit d
        (MaintenanceController.create_provided_maintenance_vehicle_brand_association
           u x d)
  end.

(** The store after a sequence of requests. *)
Definition serve (d : DB) (qs : list request) : DB := foldl handle d qs.

(** ** Reading the store *)

(** The constraints that the schema enforces hold in the store: the
    primary keys and [unique=True] columns of the models, the check
    constraint of [provided_maintenance], and the column types that the
    lookups and inserts of the services depend on. *)
Record consistent (d : DB) : Prop := mkConsistent {
  customers_pk : NoDup (Customer.customer_id <$> customers d);
  customers_uid : NoDup (Customer.uid <$> customers d);
  mechanics_pk : NoDup (Mechanic.mechanic_id <$> mechanics d);
  mechanics_uid : NoDup (Mechanic.uid <$> mechanics d);
  autoservices_pk : NoDup (Autoservice.autoservice_id <$> autoservices d);
  autoservice_users_pk : NoDup (autoservice_user_key <$> autoservice_users d);
  countries_pk : NoDup (Country.country_id <$> countries d);
  vehicle_brands_pk : NoDup (VehicleBrand.vehicle_brand_id <$> vehicle_brands d);
  vehicle_models_pk : NoDup (VehicleModel.vehicle_model_id <$> vehicle_models d);
  vehicle_generations_pk :
    NoDup (VehicleGeneration.vehicle_generation_id <$> vehicle_generations d);
  vehicles_pk : NoDup (Vehicle.vehicle_id <$> vehicles d);
  provided_maintenance_types_pk :
    NoDup (ProvidedMaintenanceType.provided_maintenance_type_id
             <$> provided_maintenance_types d);
  provided_maintenance_pk :
    NoDup (ProvidedMaintenance.provided_maintenance_id <$> provided_maintenance d);
  provided_maintenance_check :
    Forall ProvidedMaintenance.check_mechanic_or_autoservice (provided_maintenance d);
  country_association_pk :
    NoDup (ProvidedMaintenanceCountryAssociation.key
             <$> provided_maintenance_country_association d);
  vehicle_brand_association_pk :
    NoDup (ProvidedMaintenanceVehicleBrandAssociation.key
             <$> provided_maintenance_vehicle_brand_association d);
  vehicles_vin : NoDup (omap Vehicle.vin (vehicles d));
  countries_name : NoDup (Country.name <$> countries d);
  vehicle_brands_name : NoDup (VehicleBrand.name <$> vehicle_brands d);
  provided_maintenance_types_name :
    NoDup (ProvidedMaintenanceType.name <$> provided_maintenance_types d);
  countries_type :
    Forall (fun r => smallint (Country.country_id r)) (countries d);
  vehicle_brands_type :
    Forall (fun r => smallint (VehicleBrand.vehicle_brand_id r)) (vehicle_brands d);
  vehicle_models_type :
    Forall (fun r => integer (VehicleModel.vehicle_model_id r)) (vehicle_models d);
  vehicle_generations_type :
    Forall (fun r => integer (VehicleGeneration.vehicle_generation_id r))
      (vehicle_generations d);
  provided_maintenance_types_type :
    Forall (fun r => smallint (ProvidedMaintenanceType.provided_maintenance_type_id r))
      (provided_maintenance_types d);
  autoservices_type :
    Forall (fun r => varchar 12 (Autoservice.itn r) ∧ varchar 13 (Autoservice.psrn r))
      (autoservices d);
  provided_maintenance_type :
    Forall (fun r => numeric_10_2 (ProvidedMaintenance.price r)
                     ∧ null_or (varchar 500) (ProvidedMaintenance.description r))
      (provided_maintenance d)
}.

(** A computation that only reads the store, and one that leaves the store
    as it was whenever it raises. *)
Definition readonly {A} (m : M A) : Prop := forall d, (m d).2 = d.
Definition untouched_on_error {A} (m : M A) : Prop :=
  forall d e d', m d = (inl e, d') -> d' = d.

(** *** How the store changes

    One step of the store: nothing, a row that its table admits, or the
    rewriting of the rows with one identifier by a partial update. *)
Inductive evolves (d : DB) : DB -> Prop :=
| evolves_refl : evolves d d
| evolves_customer r :
    customer_admits d r -> evolves d (with_customers (customers d ++ [r]) d)
| evolves_customer_patch k data :
    evolves d
      (with_customers
         (amend Customer.customer_id k (Customer.setattrs data) (customers d)) d)
| evolves_mechanic r :
    mechanic_admits d r -> evolves d (with_mechanics (mechanics d ++ [r]) d)
| evolves_mechanic_patch k data :
    evolves d
      (with_mechanics
         (amend Mechanic.mechanic_id k (Mechanic.setattrs data) (mechanics d)) d)
| evolves_autoservice r :
    autoservice_admits d r ->
    evolves d (with_autoservices (autoservices d ++ [r]) d)
| evolves_autoservice_patch k data :
    evolves d
      (with_autoservices
         (amend Autoservice.autoservice_id k (Autoservice.setattrs data)
            (autoservices d)) d)
| evolves_autoservice_user r :
    autoservice_user_admits d r ->
    evolves d (with_autoservice_users (autoservice_users d ++ [r]) d)
| evolves_vehicle r :
    vehicle_admits d r -> evolves d (with_vehicles (vehicles d ++ [r]) d)
| evolves_provided_maintenance r :
    provided_maintenance_admits d r ->
    evolves d (with_provided_maintenance (provided_maintenance d ++ [r]) d)
| evolves_country_association r :
    country_association_admits d r ->
    evolves d
      (with_provided_maintenance_country_association
         (provided_maintenance_country_association d ++ [r]) d)
| evolves_vehicle_brand_association r :
    vehicle_brand_association_admits d r ->
    evolves d
      (with_provided_maintenance_vehicle_brand_association
         (provided_maintenance_vehicle_brand_association d ++ [r]) d).

(** The properties of a store that every step keeps. *)
Definition invariant (I : DB -> Prop) : Prop :=
  forall d d', evolves d d' -> I d -> I d'.

(** The user holds [p] in the autoservice [a]. *)
Definition holds (d : DB) (user : User.t) (a : UUID)
    (p : AutoserviceUserPermissions) : Prop :=
  exists r, r ∈ autoservice_users d
    ∧ AutoserviceUser.uid r = User.uid user
    ∧ AutoserviceUser.autoservice_id r = a
    ∧ p ∈ AutoserviceUser.permissions r.

(** The mechanic [i] is stored and is the user's. *)
Definition owns_mechanic (d : DB) (user : User.t) (i : UUID) : Prop :=
  exists m, m ∈ mechanics d ∧ Mechanic.mechanic_id m = i
    ∧ Mechanic.uid m = User.uid user.

(** The autoservice [i] is stored and grants the user
    [autoservice:manage_provided_maintenance]. *)
Definition manages_autoservice (d : DB) (user : User.t) (i : UUID) : Prop :=
  (exists a, a ∈ autoservices d ∧ Autoservice.autoservice_id a = i)
  ∧ holds d user i autoservice_manage_provided_maintenance.

(** The performers of a provided maintenance are the user's to manage: the
    mechanic when there is one, and the autoservice when there is one. *)
Definition may_manage (d : DB) (user : User.t)
    (mechanic_id autoservice_id : option UUID) : Prop :=
  null_or (owns_mechanic d user) mechanic_id
  ∧ null_or (manages_autoservice d user) autoservice_id.

(** The brand, the model and the generation that a vehicle names are
    stored, the model is of the brand and the generation is of the model. *)
Definition linked (d : DB) (v : Vehicle.t) : Prop :=
  exists b m g,
    (b ∈ vehicle_brands d
     ∧ VehicleBrand.vehicle_brand_id b = Vehicle.vehicle_brand_id v)
    ∧ (m ∈ vehicle_models d
       ∧ VehicleModel.vehicle_model_id m = Vehicle.vehicle_model_id v)
    ∧ (g ∈ vehicle_generations d
       ∧ VehicleGeneration.vehicle_generation_id g = Vehicle.vehicle_generation_id v)
    ∧ VehicleModel.vehicle_brand_id m = Vehicle.vehicle_brand_id v
    ∧ VehicleGeneration.vehicle_model_id g = Vehicle.vehicle_model_id v.

(** The brand, model and generation identifiers of a vehicle are values
    of their columns' types. *)
Definition vehicle_ids_typed (v : Vehicle.t) : Prop :=
  smallint (Vehicle.vehicle_brand_id v) ∧ integer (Vehicle.vehicle_model_id v)
  ∧ integer (Vehicle.vehicle_generation_id v).

#[global] Instance vehicle_ids_typed_dec v : Decision (vehicle_ids_typed v).
Proof. unfold vehicle_ids_typed. apply _. Defined.

(** *** The VIN alphabet, in the words of the specification *)

(** A digit or an upper-case Latin letter other than I, O and Q. *)
Definition vin_symbol (c : codepoint) : Prop :=
  (48 <= c <= 57 ∨ 65 <= c <= 90) ∧ c ≠ 73 ∧ c ≠ 79 ∧ c ≠ 81.

(** A 17-character vehicle identification number. *)
Definition is_vin (s : str) : Prop := length s = 17%nat ∧ Forall vin_symbol s.

#[global] Instance vin_symbol_dec c : Decision (vin_symbol c).
Proof. unfold vin_symbol. apply _. Defined.

#[global] Instance is_vin_dec s : Decision (is_vin s).
Proof. unfold is_vin. apply _. Defined.

(** [n] digits, as [\d] reads them. *)
Definition digits (U : unicode) (n : nat) (s : str) : Prop :=
  length s = n ∧ Forall (fun c => is_decimal U c = true) s.

(** *** A small store for the examples *)

Definition alice : User.t := User.mk 1.
Definition bob : User.t := User.mk 2.
Definition carol : User.t := User.mk 3.

Definition garage : Autoservice.t :=
  Autoservice.mk 30 (codes "Garage") None (codes "7701234567")
    (codes "1027700132195") (codes "Moscow") (codes "Tverskaya 1") None None.

Definition demo : DB :=
  mkDB
    [Customer.mk 10 (codes "Alice") None 1]
    [Mechanic.mk 20 (codes "Alice") None (codes "Moscow") None None None true false 1]
    [garage]
    [AutoserviceUser.mk 1 30 all_permissions;
     AutoserviceUser.mk 2 30 [autoservice_manage_provided_maintenance]]
    [Country.mk 1 (codes "Japan")]
    [VehicleBrand.mk 1 (codes "Toyota") true 1;
     VehicleBrand.mk 2 (codes "Nissan") true 1]
    [VehicleModel.mk 1 (codes "Corolla") 1; VehicleModel.mk 2 (codes "Camry") 1]
    [VehicleGeneration.mk 1 (codes "E210") 2018 None 1;
     VehicleGeneration.mk 2 (codes "XV70") 2017 None 2]
    []
    [ProvidedMaintenanceType.mk 1 (codes "Oil change") 1]
    [ProvidedMaintenance.mk 40 150000 None 1 (Some 20) None]
    [ProvidedMaintenanceCountryAssociation.mk 40 1]
    [ProvidedMaintenanceVehicleBrandAssociation.mk 40 1].

(** *** Foreign keys *)

(** Every foreign key that the models declare names a stored row; a
    nullable one may be NULL. *)
Record referential (d : DB) : Prop := mkReferential {
  autoservice_users_fk :
    Forall (fun r => refers Autoservice.autoservice_id (autoservices d)
                       (AutoserviceUser.autoservice_id r))
      (autoservice_users d);
  vehicle_brands_fk :
    Forall (fun r => refers Country.country_id (countries d) (VehicleBrand.country_id r))
      (vehicle_brands d);
  vehicle_models_fk :
    Forall (fun r => refers VehicleBrand.vehicle_brand_id (vehicle_brands d)
                       (VehicleModel.vehicle_brand_id r))
      (vehicle_models d);
  vehicle_generations_fk :
    Forall (fun r => refers VehicleModel.vehicle_model_id (vehicle_models d)
                       (VehicleGeneration.vehicle_model_id r))
      (vehicle_generations d);
  vehicles_fk :
    Forall (fun r =>
              refers VehicleBrand.vehicle_brand_id (vehicle_brands d)
                (Vehicle.vehicle_brand_id r)
              ∧ refers VehicleModel.vehicle_model_id (vehicle_models d)
                  (Vehicle.vehicle_model_id r)
              ∧ refers VehicleGeneration.vehicle_generation_id (vehicle_generations d)
                  (Vehicle.vehicle_generation_id r)
              ∧ refers Customer.customer_id (customers d) (Vehicle.customer_id r))
      (vehicles d);
  provided_maintenance_fk :
    Forall (fun r =>
              refers ProvidedMaintenanceType.provided_maintenance_type_id
                (provided_maintenance_types d)
                (ProvidedMaintenance.provided_maintenance_type_id r)
              ∧ null_or (refers Mechanic.mechanic_id (mechanics d))
                  (ProvidedMaintenance.mechanic_id r)
              ∧ null_or (refers Autoservice.autoservice_id (autoservices d))
                  (ProvidedMaintenance.autoservice_id r))
      (provided_maintenance d);
  country_association_fk :
    Forall (fun r =>
              refers ProvidedMaintenance.provided_maintenance_id (provided_maintenance d)
                (ProvidedMaintenanceCountryAssociation.provided_maintenance_id r)
              ∧ refers Country.country_id (countries d)
                  (ProvidedMaintenanceCountryAssociation.country_id r))
      (provided_maintenance_country_association d);
  vehicle_brand_association_fk :
    Forall (fun r =>
              refers ProvidedMaintenance.provided_maintenance_id (provided_maintenance d)
                (ProvidedMaintenanceVehicleBrandAssociation.provided_maintenance_id r)
              ∧ refers VehicleBrand.vehicle_brand_id (vehicle_brands d)
                  (ProvidedMaintenanceVehicleBrandAssociation.vehicle_brand_id r))
      (provided_maintenance_vehicle_brand_association d)
}.

(** *** Columns that no service writes *)

(** What identifies a profile: its key and its user. *)
Definition customer_identity (c : Customer.t) : UUID * UUID :=
  (Customer.customer_id c, Customer.uid c).

Definition mechanic_identity (m : Mechanic.t) : UUID * UUID :=
  (Mechanic.mechanic_id m, Mechanic.uid m).

(** The columns of an autoservice that [patch_autoservice] excludes. *)
Definition autoservice_registration (a : Autoservice.t) :
    UUID * str * str * str * option real :=
  (Autoservice.autoservice_id a, Autoservice.itn a, Autoservice.psrn a,
   Autoservice.address a, Autoservice.lon a).

(** The store after a successful [create_autoservice]. *)
Definition with_owned_autoservice (autoservice : Autoservice.t) (user : User.t)
    (d : DB) : DB :=
  let d1 := with_autoservices (autoservices d ++ [autoservice]) d in
  with_autoservice_users
    (autoservice_users d1
     ++ [AutoserviceUser.mk (User.uid user) (Autoservice.autoservice_id autoservice)
           all_permissions]) d1.

(** *** Who a request acts for *)

(** A computation that leaves a part [f] of the store as it was. *)
Definition keeps {A B} (f : DB -> B) (m : M A) : Prop := forall d, f (m d).2 = f d.

(** The request creates an autoservice for the user [uid]. *)
Definition creates_autoservice_as (uid : UUID) (q : request) : Prop :=
  match q with
  | PostAutoservice user _ => User.uid user = uid
  | _ => False
  end.

(** The request patches a customer (a mechanic) for the user [uid]. *)
Definition patches_customer_as (uid : UUID) (q : request) : Prop :=
  match q with
  | PatchCustomer user _ _ => User.uid user = uid
  | _ => False
  end.

Definition patches_mechanic_as (uid : UUID) (q : request) : Prop :=
  match q with
  | PatchMechanic user _ _ => User.uid user = uid
  | _ => False
  end.

(** Closed decidable goals are settled by evaluation. *)
Ltac by_compute := apply (bool_decide_unpack _); vm_compute; exact I.

(** * Properties *)

(** ** Regular expressions *)

Section Regex.
Context (U : unicode).

Lemma at_end_spec rest : at_end rest = true <-> rest = [] ∨ rest = [LF].
Proof.
  destruct rest as [|c [|c' rest]]; simpl; split; intros H; try done; auto.
  - apply N.eqb_eq in H. subst. auto.
  - destruct H as [H|H]; [done|]. injection H as ->. done.
  - destruct H as [H|H]; done.
Qed.

(** A counted repetition of a class takes exactly [n] symbols of it. *)
Lemma go_rep_set cs n pos rest k :
  go U (Rep n (Set_ cs)) pos rest k = true <->
  exists pre post, rest = pre ++ post ∧ length pre = n
    ∧ Forall (fun c => in_charset U cs c = true) pre
    ∧ k (pos + n)%nat post = true.
Proof.
  revert pos rest. induction n as [|n IH]; intros pos rest.
  - simpl. rewrite Nat.add_0_r. split.
    + intros H. exists [], rest. auto.
    + intros (pre & post & -> & Hl & _ & Hk).
      apply nil_length_inv in Hl. subst. done.
  - change (go U (Rep (S n) (Set_ cs)) pos rest k)
      with (match rest with
            | c :: rest' => in_charset U cs c && go U (Rep n (Set_ cs)) (S pos) rest' k
            | [] => false
            end).
    destruct rest as [|c rest].
    + split; [done|]. intros (pre & post & Heq & Hl & _).
      destruct pre; simplify_eq/=.
    + rewrite andb_true_iff, IH. split.
      * intros (Hc & pre & post & -> & Hl & Hpre & Hk).
        exists (c :: pre), post. simpl. rewrite Nat.add_succ_r in *.
        split_and!; auto.
      * intros (pre & post & Heq & Hl & Hpre & Hk).
        destruct pre as [|c' pre]; simplify_eq/=.
        apply Forall_cons in Hpre as [Hc Hpre]. split; [done|].
        exists pre, post. rewrite Nat.add_succ_r in Hk. auto.
Qed.
End Regex.

Section Patterns.
Context (U : unicode).

Lemma vin_charset_spec c :
  in_charset U (Ranges [(65, 72); (74, 78); (80, 80); (82, 90); (48, 57)]) c = true
  <-> vin_symbol c.
Proof.
  unfold vin_symbol, in_charset, existsb, between; simpl.
  rewrite !orb_true_iff, !andb_true_iff, !N.leb_le. lia.
Qed.

Lemma re_match_vin_pattern s :
  re_match U Vehicle.vin_pattern s = true <->
  exists pre post, s = pre ++ post ∧ is_vin pre ∧ (post = [] ∨ post = [LF]).
Proof.
  unfold re_match, Vehicle.vin_pattern.
  change (go U (Cat Bol (Cat (Rep 17 (Set_ ?cs)) Eol)) 0 s ?k)
    with (go U (Rep 17 (Set_ cs)) 0 s (fun pos rest => at_end rest && true)).
  rewrite go_rep_set. unfold is_vin.
  setoid_rewrite andb_true_r. setoid_rewrite at_end_spec.
  setoid_rewrite (Forall_iff _ _ _ (vin_charset_spec)).
  split; [intros (pre & post & ? & ? & ? & ?) | intros (pre & post & ? & [? ?] & ?)];
    exists pre, post; auto.
Qed.

Lemma re_match_psrn_pattern s :
  re_match U Autoservice.psrn_pattern s = true <->
  exists pre post, s = pre ++ post ∧ digits U 13 pre ∧ (post = [] ∨ post = [LF]).
Proof.
  unfold re_match, Autoservice.psrn_pattern.
  change (go U (Cat Bol (Cat (Rep 13 (Set_ Digit)) Eol)) 0 s ?k)
    with (go U (Rep 13 (Set_ Digit)) 0 s (fun pos rest => at_end rest && true)).
  rewrite go_rep_set. unfold digits.
  setoid_rewrite andb_true_r. setoid_rewrite at_end_spec.
  split; [intros (pre & post & ? & ? & ? & ?) | intros (pre & post & ? & [? ?] & ?)];
    exists pre, post; auto.
Qed.

Lemma re_match_itn_pattern s :
  re_match U Autoservice.itn_pattern s = true <->
  exists pre post, s = pre ++ post ∧ (digits U 10 pre ∨ digits U 12 pre)
    ∧ (post = [] ∨ post = [LF]).
Proof.
  unfold re_match, Autoservice.itn_pattern.
  change (go U (Cat Bol (Cat (Rep 10 (Set_ Digit)) (Cat (Opt (Rep 2 (Set_ Digit))) Eol)))
            0 s ?k)
    with (go U (Rep 10 (Set_ Digit)) 0 s
            (fun pos rest =>
               go U (Rep 2 (Set_ Digit)) pos rest (fun _ rest' => at_end rest' && true)
               || (at_end rest && true))).
  rewrite go_rep_set. unfold digits.
  setoid_rewrite orb_true_iff. setoid_rewrite go_rep_set.
  setoid_rewrite andb_true_r. setoid_rewrite at_end_spec.
  split.
  - intros (pre & post & -> & Hl & Hpre & [(pre2 & post2 & -> & Hl2 & Hpre2 & Hend)|Hend]).
    + exists (pre ++ pre2), post2. rewrite <-(assoc_L (++)), length_app, Forall_app.
      split_and!; auto. right. split; [lia|done].
    + exists pre, post. auto.
  - intros (pre & post & -> & [[Hl Hpre]|[Hl Hpre]] & Hend).
    + exists pre, post. auto 10.
    + exists (take 10 pre), (drop 10 pre ++ post).
      rewrite (assoc_L (++)), take_drop, length_take.
      rewrite <-(take_drop 10 pre) in Hpre. apply Forall_app in Hpre as [Hp1 Hp2].
      split_and!; [done|lia|done|]. left.
      exists (drop 10 pre), post. rewrite length_drop. split_and!; auto. lia.
Qed.

(** Upper-casing a string without white space gives a string without a
    line feed, as long as no case mapping beyond ASCII produces one. *)
Lemma upper_sub_spaces_no_line_feed s :
  (forall c, is_ascii c = false -> LF ∉ uc_upper U c) ->
  LF ∉ upper U (sub_spaces U s).
Proof.
  intros HU. unfold upper, sub_spaces. rewrite list_elem_of_bind.
  intros (c & Hup & Hc). apply list_elem_of_filter in Hc as [Hsp _].
  unfold upper_char, is_space in *. destruct (is_ascii c) eqn:Ha.
  - apply list_elem_of_singleton in Hup.
    unfold ascii_upper, ascii_space, between, LF in *.
    destruct (_ && _) eqn:Hlow in Hup.
    + apply andb_true_iff in Hlow as [?%N.leb_le ?%N.leb_le]. lia.
    + subst c. done.
  - by eapply HU.
Qed.
End Patterns.

(** ** The validators *)

(** C8: a name passes [Customer.validate_name] and [Mechanic.validate_name]
    exactly when its length lies between 2 and 150 inclusive; a shorter or
    a longer name raises a [ClientException]. *)
Theorem validate_name_length (name : str) :
  ((2 <= length name <= 150)%nat ->
     Customer.validate_name name = inr name ∧ Mechanic.validate_name name = inr name)
  ∧ ((length name < 2)%nat ->
     Customer.validate_name name = inl (ClientException NameTooShort)
     ∧ Mechanic.validate_name name = inl (ClientException NameTooShort))
  ∧ ((150 < length name)%nat ->
     Customer.validate_name name = inl (ClientException NameTooLong)
     ∧ Mechanic.validate_name name = inl (ClientException NameTooLong)).
Proof.
  unfold Customer.validate_name, Mechanic.validate_name.
  split_and!; intros H;
    destruct (Nat.ltb_spec (length name) 2), (Nat.ltb_spec 150 (length name));
    (done || lia).
Qed.

Lemma validate_name_length_witness :
  Customer.validate_name (codes "Al") = inr (codes "Al")
  ∧ Mechanic.validate_name (codes "Al") = inr (codes "Al").
Proof. apply (validate_name_length (codes "Al")). vm_compute. lia. Defined.

(** C7, at the failing inputs: ten digits and a line feed pass
    [validate_itn], thirteen digits and a line feed pass [validate_psrn],
    whatever the Unicode tables. *)
Theorem validate_itn_psrn_accept_final_line_feed (U : unicode) :
  Autoservice.validate_itn U (codes "1234567890" ++ [LF])
    = inr (codes "1234567890" ++ [LF])
  ∧ Autoservice.validate_psrn U (codes "1234567890123" ++ [LF])
    = inr (codes "1234567890123" ++ [LF]).
Proof. split; reflexivity. Qed.

(** What [validate_itn] and [validate_psrn] accept: the digits that the
    messages ask for, followed or not by one line feed. *)
Lemma validate_itn_accepts U value :
  Autoservice.validate_itn U value = inr value <->
  exists ds tail, value = ds ++ tail ∧ (digits U 10 ds ∨ digits U 12 ds)
    ∧ (tail = [] ∨ tail = [LF]).
Proof.
  unfold Autoservice.validate_itn. rewrite <-re_match_itn_pattern.
  destruct (re_match _ _ _); simpl; split; done.
Qed.

Lemma validate_psrn_accepts U value :
  Autoservice.validate_psrn U value = inr value <->
  exists ds tail, value = ds ++ tail ∧ digits U 13 ds ∧ (tail = [] ∨ tail = [LF]).
Proof.
  unfold Autoservice.validate_psrn. rewrite <-re_match_psrn_pattern.
  destruct (re_match _ _ _); simpl; split; done.
Qed.

(** C6, as amended: [validate_vin] removes the white space of its input and
    upper-cases it, and accepts exactly when the result is a 17-character
    VIN over the digits and the upper-case Latin letters other than I, O
    and Q; it returns that result, and raises a [ClientException]
    otherwise. *)
Theorem validate_vin_normalised (U : unicode) (vin : str) :
  (forall c, is_ascii c = false -> LF ∉ uc_upper U c) ->
  (is_vin (upper U (sub_spaces U vin)) ->
     Vehicle.validate_vin U (Some vin) = inr (Some (upper U (sub_spaces U vin))))
  ∧ (¬ is_vin (upper U (sub_spaces U vin)) ->
     Vehicle.validate_vin U (Some vin) = inl (ClientException VinFormat)).
Proof.
  intros HU. pose proof (upper_sub_spaces_no_line_feed U vin HU) as Hlf.
  unfold Vehicle.validate_vin.
  destruct (re_match U Vehicle.vin_pattern _) eqn:Hm; simpl.
  - apply re_match_vin_pattern in Hm as (pre & post & Heq & Hpre & [->| ->]).
    + rewrite app_nil_r in Heq. rewrite Heq. split; done.
    + exfalso. apply Hlf. rewrite Heq, elem_of_app, list_elem_of_singleton. auto.
  - split; [|done]. intros Hvin.
    assert (re_match U Vehicle.vin_pattern (upper U (sub_spaces U vin)) = true)
      as Hm'; [|congruence].
    apply re_match_vin_pattern. eexists _, []. rewrite app_nil_r. auto.
Qed.

Lemma validate_vin_normalised_witness :
  Vehicle.validate_vin ascii_only (Some (codes "wvw zzz1jzxw000001"))
  = inr (Some (codes "WVWZZZ1JZXW000001")).
Proof.
  apply (validate_vin_normalised ascii_only (codes "wvw zzz1jzxw000001")).
  - intros c Hc Hlf%list_elem_of_singleton. subst c. discriminate Hc.
  - by_compute.
Defined.

(** C6, as stated, fails: a lower-case string and a string with a space in
    it are no VINs over the upper-case alphabet, and both are accepted. *)
Lemma validate_vin_accepts_other_strings :
  (¬ is_vin (codes "wvwzzz1jzxw000001")
   ∧ Vehicle.validate_vin ascii_only (Some (codes "wvwzzz1jzxw000001"))
     = inr (Some (codes "WVWZZZ1JZXW000001")))
  ∧ (¬ is_vin (codes "WVWZZZ1JZXW 000001")
     ∧ Vehicle.validate_vin ascii_only (Some (codes "WVWZZZ1JZXW 000001"))
       = inr (Some (codes "WVWZZZ1JZXW000001"))).
Proof.
  split_and!; try reflexivity.
  - intros H. apply (bool_decide_pack _) in H. vm_compute in H. exact H.
  - intros H. apply (bool_decide_pack _) in H. vm_compute in H. exact H.
Qed.

(** ** Repositories *)

Section Lookup.
Context {T K C : Type}.
Context (P : T -> Prop) {Pdec : forall r, Decision (P r)}.

Lemma filter_none (l : list T) : (forall r, r ∈ l -> ¬ P r) -> filter P l = [].
Proof.
  induction l as [|x l IH]; intros H; [done|].
  rewrite filter_cons_False by (apply H; left).
  apply IH. intros r Hr. apply H. by right.
Qed.

(** A criterion that fixes the value of a key selects at most one row of a
    table where the key is unique. *)
Lemma filter_unique (key : T -> C) (k : C) (l : list T) (r : T) :
  (forall x, P x <-> key x = k) -> NoDup (key <$> l) -> r ∈ l -> key r = k ->
  filter P l = [r].
Proof.
  intros HP. induction l as [|x l IH]; intros Hnd Hin Hk; [by inversion Hin|].
  rewrite fmap_cons in Hnd. apply NoDup_cons in Hnd as [Hx Hnd].
  apply elem_of_cons in Hin as [->|Hin].
  - rewrite filter_cons_True by (by apply HP). f_equal.
    apply filter_none. intros y Hy Hpy%HP. apply Hx.
    rewrite Hk, <-Hpy. by apply list_elem_of_fmap_2.
  - rewrite filter_cons_False; [by apply IH|].
    intros Hpx%HP. apply Hx. rewrite Hpx, <-Hk. by apply list_elem_of_fmap_2.
Qed.

Context (R : Repository T K).

Lemma get_one_or_none_found (key : T -> C) (k : C) (d : DB) (r : T) :
  (forall x, P x <-> key x = k) -> NoDup (key <$> rows R d) ->
  r ∈ rows R d -> key r = k ->
  get_one_or_none R P d = (inr (Some r), d).
Proof.
  intros. unfold get_one_or_none. by erewrite filter_unique.
Qed.

Lemma get_one_or_none_missing (d : DB) :
  (forall r, r ∈ rows R d -> ¬ P r) -> get_one_or_none R P d = (inr None, d).
Proof. intros. unfold get_one_or_none. by rewrite filter_none. Qed.

Lemma get_one_or_none_inv (d d' : DB) (found : option T) :
  get_one_or_none R P d = (inr found, d') ->
  d' = d ∧ match found with
           | Some r => r ∈ rows R d ∧ P r
           | None => forall r, r ∈ rows R d -> ¬ P r
           end.
Proof.
  unfold get_one_or_none. intros [= H <-]. split; [done|].
  destruct (filter P (rows R d)) as [|x [|y l]] eqn:Hf; simplify_eq/=.
  - intros r Hr HP. by eapply filter_nil_not_elem_of.
  - assert (x ∈ filter P (rows R d)) as Hx by (rewrite Hf; left).
    apply list_elem_of_filter in Hx. tauto.
Qed.

Lemma get_or_raise_found (key : T -> C) (k : C) (e : exn) (d : DB) (r : T) :
  (forall x, P x <-> key x = k) -> NoDup (key <$> rows R d) ->
  r ∈ rows R d -> key r = k ->
  get_or_raise R P e d = (inr r, d).
Proof.
  intros. unfold get_or_raise, mbind, M_bind.
  by erewrite get_one_or_none_found.
Qed.

Lemma get_or_raise_missing (e : exn) (d : DB) :
  (forall r, r ∈ rows R d -> ¬ P r) -> get_or_raise R P e d = (inl e, d).
Proof.
  intros. unfold get_or_raise, mbind, M_bind.
  by rewrite get_one_or_none_missing.
Qed.

Lemma get_or_raise_inv (e : exn) (d d' : DB) (r : T) :
  get_or_raise R P e d = (inr r, d') -> d' = d ∧ r ∈ rows R d ∧ P r.
Proof.
  unfold get_or_raise, mbind, M_bind.
  destruct (get_one_or_none R P d) as [[?|[x|]] d1] eqn:Hg; try done.
  intros [= -> ->]. by apply get_one_or_none_inv in Hg as [-> ?].
Qed.

Lemma get_or_raise_readonly (e : exn) : readonly (get_or_raise R P e).
Proof.
  intros d. unfold get_or_raise, mbind, M_bind, get_one_or_none.
  by destruct (one_or_none _) as [?|[?|]].
Qed.
End Lookup.

(** A lookup by an integer key: outside the type of the column the
    statement is refused, inside it is the plain lookup. *)
Section TypedLookup.
Context {T K : Type} (R : Repository T K).
Context (P : T -> Prop) {Pdec : forall r, Decision (P r)}.
Context (type : Z -> Prop) {type_dec : forall z, Decision (type z)}.

Lemma get_typed_in_range (e : exn) (k : Z) (d : DB) :
  type k ->
  (found ← bind_param type k (get_one_or_none R P);
   match found with None => raise e | Some row => mret row end) d
  = get_or_raise R P e d.
Proof. intros Hk. unfold bind_param. by rewrite decide_True. Qed.

Lemma get_typed_out_of_range (e : exn) (k : Z) (d : DB) :
  ¬ type k ->
  (found ← bind_param type k (get_one_or_none R P);
   match found with None => raise e | Some row => mret row end) d
  = (inl IntegrityError, d).
Proof. intros Hk. unfold bind_param. by rewrite decide_False. Qed.

Lemma get_typed_inv (e : exn) (k : Z) (d d' : DB) (r : T) :
  (found ← bind_param type k (get_one_or_none R P);
   match found with None => raise e | Some row => mret row end) d
  = (inr r, d') ->
  type k ∧ get_or_raise R P e d = (inr r, d').
Proof. unfold bind_param. by case_decide. Qed.

Lemma bind_param_readonly {A} (k : Z) (m : M A) :
  readonly m -> readonly (bind_param type k m).
Proof. intros Hm. unfold bind_param. by case_decide. Qed.
End TypedLookup.

Section Writes.
Context {T K : Type} `{!EqDecision K} (R : Repository T K).

Lemma create_inv (data r : T) (d d' : DB) :
  create R data d = (inr r, d') ->
  r = data ∧ admits R d data ∧ d' = with_rows R (rows R d ++ [data]) d.
Proof. unfold create. case_decide; intros [= <- <-]; auto. Qed.

Lemma create_untouched_on_error (data : T) : untouched_on_error (create R data).
Proof. intros d e d'. unfold create. by case_decide; intros [= <- <-]. Qed.

Lemma update_found (f : T -> T) (d : DB) (r : T) :
  NoDup (id_attribute R <$> rows R d) -> r ∈ rows R d ->
  update R f (id_attribute R r) d
  = (inr (f r), with_rows R (amend (id_attribute R) (id_attribute R r) f (rows R d)) d).
Proof.
  intros Hnd Hr. unfold update.
  by rewrite (filter_unique _ (id_attribute R) (id_attribute R r) _ r).
Qed.

Lemma update_inv (f : T -> T) (k : K) (r : T) (d d' : DB) :
  update R f k d = (inr r, d') ->
  d' = with_rows R (amend (id_attribute R) k f (rows R d)) d.
Proof.
  unfold update. destruct (filter _ _) as [|x [|y l]]; by intros [= <- <-].
Qed.

Lemma update_untouched_on_error (f : T -> T) (k : K) :
  untouched_on_error (update R f k).
Proof.
  intros d e d'. unfold update.
  destruct (filter _ _) as [|x [|y l]]; by intros [= <- <-].
Qed.
End Writes.

(** A column that the update leaves alone keeps its values, in order. *)
Lemma fmap_amend {T K C} `{!EqDecision K} (key : T -> K) (col : T -> C)
    (k : K) (f : T -> T) (l : list T) :
  (forall r, col (f r) = col r) -> col <$> amend key k f l = col <$> l.
Proof.
  intros Hf. unfold amend. rewrite <-list_fmap_compose.
  apply list_fmap_ext. intros i r _. simpl. by case_decide.
Qed.

Lemma NoDup_fresh_snoc {T K} (key : T -> K) (l : list T) (r : T) :
  NoDup (key <$> l) -> fresh key l r -> NoDup (key <$> l ++ [r]).
Proof.
  intros Hnd Hfr. rewrite fmap_app. apply NoDup_app. split_and!; [done| |].
  - intros x Hx ->%list_elem_of_singleton. by apply Hfr.
  - apply NoDup_singleton.
Qed.

(** A nullable unique column stays unique when the new value is NULL or
    new. *)
Lemma NoDup_omap_snoc {T C} (col : T -> option C) (l : list T) (r : T) :
  NoDup (omap col l) -> null_or (fun v => Some v ∉ col <$> l) (col r) ->
  NoDup (omap col (l ++ [r])).
Proof.
  intros Hnd Hr. rewrite omap_app. simpl. destruct (col r) as [v|]; simpl.
  - apply NoDup_app. split_and!; [done| |apply NoDup_singleton].
    intros x Hx ->%list_elem_of_singleton. apply Hr.
    apply list_elem_of_omap in Hx as (y & Hy & Hv). rewrite <-Hv.
    by apply list_elem_of_fmap_2.
  - by rewrite app_nil_r.
Qed.

(** What holds of every row still does after an update that keeps it. *)
Lemma Forall_amend {T K} `{!EqDecision K} (key : T -> K) (k : K) (f : T -> T)
    (P : T -> Prop) (l : list T) :
  (forall r, P r -> P (f r)) -> Forall P l -> Forall P (amend key k f l).
Proof.
  intros Hf Hl. unfold amend. apply Forall_fmap.
  eapply Forall_impl; [exact Hl|]. intros r Hr. simpl. case_decide; auto.
Qed.

(** ** The monad *)

Section Monad.
Context {A B : Type}.

Lemma bind_inr_inv (m : M A) (k : A -> M B) d b d' :
  (m ≫= k) d = (inr b, d') -> exists a d1, m d = (inr a, d1) ∧ k a d1 = (inr b, d').
Proof. unfold mbind, M_bind. destruct (m d) as [[e|a] d1]; [done|eauto]. Qed.

Lemma bind_readonly (m : M A) (k : A -> M B) :
  readonly m -> (forall a, readonly (k a)) -> readonly (m ≫= k).
Proof.
  intros Hm Hk d. specialize (Hm d). unfold mbind, M_bind.
  destruct (m d) as [[e|a] d1]; simpl in *; [done|]. subst d1. apply Hk.
Qed.

Lemma bind_untouched_on_error (m : M A) (k : A -> M B) :
  readonly m -> (forall a, untouched_on_error (k a)) -> untouched_on_error (m ≫= k).
Proof.
  intros Hm Hk d e d'. specialize (Hm d). unfold mbind, M_bind.
  destruct (m d) as [[e1|a] d1]; simpl in *; subst d1; [by intros [= <- <-]|].
  apply Hk.
Qed.

Lemma ret_readonly (a : A) : readonly (mret a : M A).
Proof. done. Qed.

Lemma raise_readonly (e : exn) : readonly (raise e : M A).
Proof. done. Qed.

Lemma readonly_untouched_on_error (m : M A) : readonly m -> untouched_on_error m.
Proof. intros Hm d e d' H. specialize (Hm d). by rewrite H in Hm. Qed.
End Monad.

(** ** The lookups of the services *)

Ltac getter_found R key :=
  intros Hd Hin;
  match type of Hin with
  | ?c ∈ _ => apply (get_or_raise_found _ R key (key c))
  end;
  [ intros; simpl; try tauto | apply Hd | exact Hin | reflexivity ].

Ltac getter_missing R :=
  intros Hno; apply (get_or_raise_missing _ R); exact Hno.

Ltac getter_inv R :=
  intros Hget; apply (get_or_raise_inv _ R) in Hget; simpl in Hget; tauto.

(** The same for the lookups by an integer key; [Htype] is the type of
    the key column in a consistent store. *)
Ltac typed_getter_found R key Htype :=
  intros Hd Hin;
  match type of Hin with
  | ?c ∈ _ =>
      etrans;
      [ apply (get_typed_in_range R);
        exact (proj1 (Forall_forall _ _) (Htype _ Hd) c Hin)
      | apply (get_or_raise_found _ R key (key c));
        [ intros; simpl; try tauto | apply Hd | exact Hin | reflexivity ] ]
  end.

Ltac typed_getter_missing R :=
  intros Hk Hno; etrans;
  [ apply (get_typed_in_range R); exact Hk
  | apply (get_or_raise_missing _ R); exact Hno ].

Ltac typed_getter_out_of_range R :=
  intros Hk; apply (get_typed_out_of_range R); exact Hk.

Ltac typed_getter_inv R :=
  intros Hget; apply (get_typed_inv R) in Hget as [Hk Hget];
  apply (get_or_raise_inv _ R) in Hget; simpl in Hget; tauto.

Lemma get_customer_found d c :
  consistent d -> c ∈ customers d ->
  CustomerService.get_customer_by_customer_id (Customer.customer_id c) d = (inr c, d).
Proof. getter_found CustomerRepository Customer.customer_id. Qed.

Lemma get_customer_missing d i :
  (forall c, c ∈ customers d -> Customer.customer_id c ≠ i) ->
  CustomerService.get_customer_by_customer_id i d = (inl CustomerNotFoundError, d).
Proof. getter_missing CustomerRepository. Qed.

Lemma get_customer_inv i d c d' :
  CustomerService.get_customer_by_customer_id i d = (inr c, d') ->
  d' = d ∧ c ∈ customers d ∧ Customer.customer_id c = i.
Proof. getter_inv CustomerRepository. Qed.

Lemma get_mechanic_found d m :
  consistent d -> m ∈ mechanics d ->
  MechanicService.get_mechanic_by_mechanic_id (Mechanic.mechanic_id m) d = (inr m, d).
Proof. getter_found MechanicRepository Mechanic.mechanic_id. Qed.

Lemma get_mechanic_missing d i :
  (forall m, m ∈ mechanics d -> Mechanic.mechanic_id m ≠ i) ->
  MechanicService.get_mechanic_by_mechanic_id i d = (inl MechanicNotFoundError, d).
Proof. getter_missing MechanicRepository. Qed.

Lemma get_mechanic_inv i d m d' :
  MechanicService.get_mechanic_by_mechanic_id i d = (inr m, d') ->
  d' = d ∧ m ∈ mechanics d ∧ Mechanic.mechanic_id m = i.
Proof. getter_inv MechanicRepository. Qed.

Lemma get_autoservice_found d a :
  consistent d -> a ∈ autoservices d ->
  AutoserviceService.get_autoservice_by_autoservice_id (Autoservice.autoservice_id a) d
  = (inr a, d).
Proof. getter_found AutoserviceRepository Autoservice.autoservice_id. Qed.

Lemma get_autoservice_missing d i :
  (forall a, a ∈ autoservices d -> Autoservice.autoservice_id a ≠ i) ->
  AutoserviceService.get_autoservice_by_autoservice_id i d
  = (inl AutoserviceNotFoundError, d).
Proof. getter_missing AutoserviceRepository. Qed.

Lemma get_autoservice_inv i d a d' :
  AutoserviceService.get_autoservice_by_autoservice_id i d = (inr a, d') ->
  d' = d ∧ a ∈ autoservices d ∧ Autoservice.autoservice_id a = i.
Proof. getter_inv AutoserviceRepository. Qed.

Lemma get_autoservice_user_found d r :
  consistent d -> r ∈ autoservice_users d ->
  AutoserviceUserService.get_autoservice_user_by_uid_and_autoservice_id
    (AutoserviceUser.uid r) (AutoserviceUser.autoservice_id r) d = (inr r, d).
Proof.
  intros Hd Hin.
  apply (get_or_raise_found _ AutoserviceUserRepository autoservice_user_key
           (AutoserviceUser.uid r, AutoserviceUser.autoservice_id r));
    [ | apply Hd | exact Hin | reflexivity ].
  intros x. unfold autoservice_user_key. split; [by intros [-> ->]|by intros [= -> ->]].
Qed.

Lemma get_autoservice_user_missing d u a :
  (forall r, r ∈ autoservice_users d ->
     ¬ (AutoserviceUser.uid r = u ∧ AutoserviceUser.autoservice_id r = a)) ->
  AutoserviceUserService.get_autoservice_user_by_uid_and_autoservice_id u a d
  = (inl AutoserviceUserNotFoundError, d).
Proof. intros Hno. by apply (get_or_raise_missing _ AutoserviceUserRepository). Qed.

Lemma get_autoservice_user_inv u a d r d' :
  AutoserviceUserService.get_autoservice_user_by_uid_and_autoservice_id u a d
  = (inr r, d') ->
  d' = d ∧ r ∈ autoservice_users d
  ∧ AutoserviceUser.uid r = u ∧ AutoserviceUser.autoservice_id r = a.
Proof. getter_inv AutoserviceUserRepository. Qed.




Lemma get_country_inv i d c d' :
  CountryService.get_country_by_country_id i d = (inr c, d') ->
  d' = d ∧ c ∈ countries d ∧ Country.country_id c = i.
Proof. typed_getter_inv CountryRepository. Qed.

Lemma get_vehicle_brand_found d b :
  consistent d -> b ∈ vehicle_brands d ->
  VehicleBrandService.get_vehicle_brand_by_vehicle_brand_id
    (VehicleBrand.vehicle_brand_id b) d = (inr b, d).
Proof.
  typed_getter_found VehicleBrandRepository VehicleBrand.vehicle_brand_id
    vehicle_brands_type.
Qed.

Lemma get_vehicle_brand_missing d i :
  smallint i ->
  (forall b, b ∈ vehicle_brands d -> VehicleBrand.vehicle_brand_id b ≠ i) ->
  VehicleBrandService.get_vehicle_brand_by_vehicle_brand_id i d
  = (inl VehicleBrandNotFoundError, d).
Proof. typed_getter_missing VehicleBrandRepository. Qed.

Lemma get_vehicle_brand_out_of_range d i :
  ¬ smallint i ->
  VehicleBrandService.get_vehicle_brand_by_vehicle_brand_id i d
  = (inl IntegrityError, d).
Proof. typed_getter_out_of_range VehicleBrandRepository. Qed.

Lemma get_vehicle_brand_inv i d b d' :
  VehicleBrandService.get_vehicle_brand_by_vehicle_brand_id i d = (inr b, d') ->
  d' = d ∧ b ∈ vehicle_brands d ∧ VehicleBrand.vehicle_brand_id b = i.
Proof. typed_getter_inv VehicleBrandRepository. Qed.

Lemma get_vehicle_model_found d m :
  consistent d -> m ∈ vehicle_models d ->
  VehicleModelService.get_vehicle_model_by_vehicle_model_id
    (VehicleModel.vehicle_model_id m) d = (inr m, d).
Proof.
  typed_getter_found VehicleModelRepository VehicleModel.vehicle_model_id
    vehicle_models_type.
Qed.

Lemma get_vehicle_model_missing d i :
  integer i ->
  (forall m, m ∈ vehicle_models d -> VehicleModel.vehicle_model_id m ≠ i) ->
  VehicleModelService.get_vehicle_model_by_vehicle_model_id i d
  = (inl VehicleModelNotFoundError, d).
Proof. typed_getter_missing VehicleModelRepository. Qed.

Lemma get_vehicle_model_out_of_range d i :
  ¬ integer i ->
  VehicleModelService.get_vehicle_model_by_vehicle_model_id i d
  = (inl IntegrityError, d).
Proof. typed_getter_out_of_range VehicleModelRepository. Qed.

Lemma get_vehicle_model_inv i d m d' :
  VehicleModelService.get_vehicle_model_by_vehicle_model_id i d = (inr m, d') ->
  d' = d ∧ m ∈ vehicle_models d ∧ VehicleModel.vehicle_model_id m = i.
Proof. typed_getter_inv VehicleModelRepository. Qed.

Lemma get_vehicle_generation_found d g :
  consistent d -> g ∈ vehicle_generations d ->
  VehicleGenerationService.get_vehicle_generation_by_vehicle_generation_id
    (VehicleGeneration.vehicle_generation_id g) d = (inr g, d).
Proof.
  typed_getter_found VehicleGenerationRepository
    VehicleGeneration.vehicle_generation_id vehicle_generations_type.
Qed.

Lemma get_vehicle_generation_missing d i :
  integer i ->
  (forall g, g ∈ vehicle_generations d ->
     VehicleGeneration.vehicle_generation_id g ≠ i) ->
  VehicleGenerationService.get_vehicle_generation_by_vehicle_generation_id i d
  = (inl VehicleGenerationNotFoundError, d).
Proof. typed_getter_missing VehicleGenerationRepository. Qed.

Lemma get_vehicle_generation_out_of_range d i :
  ¬ integer i ->
  VehicleGenerationService.get_vehicle_generation_by_vehicle_generation_id i d
  = (inl IntegrityError, d).
Proof. typed_getter_out_of_range VehicleGenerationRepository. Qed.

Lemma get_vehicle_generation_inv i d g d' :
  VehicleGenerationService.get_vehicle_generation_by_vehicle_generation_id i d
  = (inr g, d') ->
  d' = d ∧ g ∈ vehicle_generations d ∧ VehicleGeneration.vehicle_generation_id g = i.
Proof. typed_getter_inv VehicleGenerationRepository. Qed.

Lemma get_provided_maintenance_type_found d t :
  consistent d -> t ∈ provided_maintenance_types d ->
  ProvidedMaintenanceTypeService.get_provided_maintenance_type_by_provided_maintenance_id
    (ProvidedMaintenanceType.provided_maintenance_type_id t) d = (inr t, d).
Proof.
  typed_getter_found ProvidedMaintenanceTypeRepository
    ProvidedMaintenanceType.provided_maintenance_type_id
    provided_maintenance_types_type.
Qed.

Lemma get_provided_maintenance_type_missing d i :
  smallint i ->
  (forall t, t ∈ provided_maintenance_types d ->
     ProvidedMaintenanceType.provided_maintenance_type_id t ≠ i) ->
  ProvidedMaintenanceTypeService.get_provided_maintenance_type_by_provided_maintenance_id
    i d = (inl ProvidedMaintenanceTypeNotFoundError, d).
Proof. typed_getter_missing ProvidedMaintenanceTypeRepository. Qed.

Lemma get_provided_maintenance_type_out_of_range d i :
  ¬ smallint i ->
  ProvidedMaintenanceTypeService.get_provided_maintenance_type_by_provided_maintenance_id
    i d = (inl IntegrityError, d).
Proof. typed_getter_out_of_range ProvidedMaintenanceTypeRepository. Qed.

Lemma get_provided_maintenance_type_inv i d t d' :
  ProvidedMaintenanceTypeService.get_provided_maintenance_type_by_provided_maintenance_id
    i d = (inr t, d') ->
  d' = d ∧ t ∈ provided_maintenance_types d
  ∧ ProvidedMaintenanceType.provided_maintenance_type_id t = i.
Proof. typed_getter_inv ProvidedMaintenanceTypeRepository. Qed.

Lemma get_provided_maintenance_found d p :
  consistent d -> p ∈ provided_maintenance d ->
  BaseProvidedMaintenanceService.get_provided_maintenance_by_provided_maintenance_id
    (ProvidedMaintenance.provided_maintenance_id p) d = (inr p, d).
Proof.
  getter_found BaseProvidedMaintenanceRepository
    ProvidedMaintenance.provided_maintenance_id.
Qed.

Lemma get_provided_maintenance_missing d i :
  (forall p, p ∈ provided_maintenance d ->
     ProvidedMaintenance.provided_maintenance_id p ≠ i) ->
  BaseProvidedMaintenanceService.get_provided_maintenance_by_provided_maintenance_id
    i d = (inl ProvidedMaintenanceNotFoundError, d).
Proof. getter_missing BaseProvidedMaintenanceRepository. Qed.

Lemma get_provided_maintenance_inv i d p d' :
  BaseProvidedMaintenanceService.get_provided_maintenance_by_provided_maintenance_id
    i d = (inr p, d') ->
  d' = d ∧ p ∈ provided_maintenance d
  ∧ ProvidedMaintenance.provided_maintenance_id p = i.
Proof. getter_inv BaseProvidedMaintenanceRepository. Qed.

(** ** Partial updates *)

Lemma patch_customer_owner d user c data :
  consistent d -> c ∈ customers d -> Customer.uid c = User.uid user ->
  CustomerService.patch_customer (Customer.customer_id c) data user d
  = (inr (Customer.setattrs data c),
     with_customers
       (amend Customer.customer_id (Customer.customer_id c) (Customer.setattrs data)
          (customers d)) d).
Proof.
  intros Hd Hc Hu. unfold CustomerService.patch_customer, mbind, M_bind.
  rewrite get_customer_found by done. case_decide; [done|].
  apply (update_found CustomerRepository); [apply Hd|done].
Qed.

Lemma patch_customer_other d user c data :
  consistent d -> c ∈ customers d -> Customer.uid c ≠ User.uid user ->
  CustomerService.patch_customer (Customer.customer_id c) data user d
  = (inl CustomerBelongsToAnotherUserError, d).
Proof.
  intros Hd Hc Hu. unfold CustomerService.patch_customer, mbind, M_bind.
  rewrite get_customer_found by done. by case_decide.
Qed.

Lemma patch_mechanic_owner d user m data :
  consistent d -> m ∈ mechanics d -> Mechanic.uid m = User.uid user ->
  MechanicService.patch_mechanic (Mechanic.mechanic_id m) data user d
  = (inr (Mechanic.setattrs data m),
     with_mechanics
       (amend Mechanic.mechanic_id (Mechanic.mechanic_id m) (Mechanic.setattrs data)
          (mechanics d)) d).
Proof.
  intros Hd Hm Hu. unfold MechanicService.patch_mechanic, mbind, M_bind.
  rewrite get_mechanic_found by done. case_decide; [done|].
  apply (update_found MechanicRepository); [apply Hd|done].
Qed.

Lemma patch_mechanic_other d user m data :
  consistent d -> m ∈ mechanics d -> Mechanic.uid m ≠ User.uid user ->
  MechanicService.patch_mechanic (Mechanic.mechanic_id m) data user d
  = (inl MechanicBelongsToAnotherUserError, d).
Proof.
  intros Hd Hm Hu. unfold MechanicService.patch_mechanic, mbind, M_bind.
  rewrite get_mechanic_found by done. by case_decide.
Qed.

Lemma patch_autoservice_with_row d user a r data :
  consistent d -> a ∈ autoservices d -> r ∈ autoservice_users d ->
  AutoserviceUser.uid r = User.uid user ->
  AutoserviceUser.autoservice_id r = Autoservice.autoservice_id a ->
  AutoserviceService.patch_autoservice (Autoservice.autoservice_id a) user data d
  = if decide (autoservice_manage ∈ AutoserviceUser.permissions r)
    then (inr (Autoservice.setattrs data a),
          with_autoservices
            (amend Autoservice.autoservice_id (Autoservice.autoservice_id a)
               (Autoservice.setattrs data) (autoservices d)) d)
    else (inl AutoserviceUserDoesntHavePermissionsError, d).
Proof.
  intros Hd Ha Hr Hu Hi. unfold AutoserviceService.patch_autoservice, mbind, M_bind.
  rewrite get_autoservice_found by done.
  rewrite <-Hu, <-Hi, get_autoservice_user_found by done.
  repeat case_decide; try done.
  rewrite Hi. apply (update_found AutoserviceRepository); [apply Hd|done].
Qed.

Lemma patch_autoservice_without_row d user a data :
  consistent d -> a ∈ autoservices d ->
  (forall r, r ∈ autoservice_users d ->
     ¬ (AutoserviceUser.uid r = User.uid user
        ∧ AutoserviceUser.autoservice_id r = Autoservice.autoservice_id a)) ->
  AutoserviceService.patch_autoservice (Autoservice.autoservice_id a) user data d
  = (inl AutoserviceUserNotFoundError, d).
Proof.
  intros Hd Ha Hno. unfold AutoserviceService.patch_autoservice, mbind, M_bind.
  rewrite get_autoservice_found by done.
  by rewrite get_autoservice_user_missing.
Qed.

(** C1: [patch_customer] and [patch_mechanic] update a stored record when
    its [uid] is the user's, and otherwise raise the entity's
    belongs-to-another-user error; [patch_autoservice] updates a stored
    autoservice when the [AutoserviceUser] row of the user and the
    autoservice holds [autoservice_manage], and otherwise raises
    [AutoserviceUserDoesntHavePermissionsError] (a row without the
    permission) or [AutoserviceUserNotFoundError] (no row), both of which
    the controller answers with [PermissionDeniedException].  Whenever an
    error is raised the store is the one before the call. *)
Theorem patch_requires_owner_or_permission (d : DB) (user : User.t) :
  consistent d ->
  (forall c data, c ∈ customers d ->
     (Customer.uid c = User.uid user ->
        CustomerService.patch_customer (Customer.customer_id c) data user d
        = (inr (Customer.setattrs data c),
           with_customers
             (amend Customer.customer_id (Customer.customer_id c)
                (Customer.setattrs data) (customers d)) d))
     ∧ (Customer.uid c ≠ User.uid user ->
        CustomerService.patch_customer (Customer.customer_id c) data user d
        = (inl CustomerBelongsToAnotherUserError, d)))
  ∧ (forall m data, m ∈ mechanics d ->
     (Mechanic.uid m = User.uid user ->
        MechanicService.patch_mechanic (Mechanic.mechanic_id m) data user d
        = (inr (Mechanic.setattrs data m),
           with_mechanics
             (amend Mechanic.mechanic_id (Mechanic.mechanic_id m)
                (Mechanic.setattrs data) (mechanics d)) d))
     ∧ (Mechanic.uid m ≠ User.uid user ->
        MechanicService.patch_mechanic (Mechanic.mechanic_id m) data user d
        = (inl MechanicBelongsToAnotherUserError, d)))
  ∧ (forall a data, a ∈ autoservices d ->
     (forall r, r ∈ autoservice_users d ->
        AutoserviceUser.uid r = User.uid user ->
        AutoserviceUser.autoservice_id r = Autoservice.autoservice_id a ->
        (autoservice_manage ∈ AutoserviceUser.permissions r ->
           AutoserviceService.patch_autoservice (Autoservice.autoservice_id a) user data d
           = (inr (Autoservice.setattrs data a),
              with_autoservices
                (amend Autoservice.autoservice_id (Autoservice.autoservice_id a)
                   (Autoservice.setattrs data) (autoservices d)) d))
        ∧ (autoservice_manage ∉ AutoserviceUser.permissions r ->
           AutoserviceService.patch_autoservice (Autoservice.autoservice_id a) user data d
           = (inl AutoserviceUserDoesntHavePermissionsError, d)
           ∧ AutoserviceController.patch_autoservice user
               (Autoservice.autoservice_id a) data d
             = (inl PermissionDeniedException, d)))
     ∧ ((forall r, r ∈ autoservice_users d ->
           ¬ (AutoserviceUser.uid r = User.uid user
              ∧ AutoserviceUser.autoservice_id r = Autoservice.autoservice_id a)) ->
        AutoserviceService.patch_autoservice (Autoservice.autoservice_id a) user data d
        = (inl AutoserviceUserNotFoundError, d)
        ∧ AutoserviceController.patch_autoservice user
            (Autoservice.autoservice_id a) data d
          = (inl PermissionDeniedException, d))).
Proof.
  intros Hd. split_and!.
  - intros c data Hc. split; intros Hu.
    + by apply patch_customer_owner.
    + by apply patch_customer_other.
  - intros m data Hm. split; intros Hu.
    + by apply patch_mechanic_owner.
    + by apply patch_mechanic_other.
  - intros a data Ha. split.
    + intros r Hr Hu Hi.
      pose proof (patch_autoservice_with_row d user a r data Hd Ha Hr Hu Hi) as Hp.
      unfold AutoserviceController.patch_autoservice, except.
      split; intros Hperm; rewrite Hp; by case_decide.
    + intros Hno. unfold AutoserviceController.patch_autoservice, except.
      by rewrite patch_autoservice_without_row.
Qed.

Lemma patch_requires_owner_or_permission_witness :
  CustomerService.patch_customer 10 (Customer.mk_partial (Some (codes "Al")) None)
    bob demo
  = (inl CustomerBelongsToAnotherUserError, demo)
  ∧ AutoserviceService.patch_autoservice 30 bob
      (Autoservice.mk_partial (Some (codes "Bob's")) None None None) demo
    = (inl AutoserviceUserDoesntHavePermissionsError, demo)
  ∧ AutoserviceService.patch_autoservice 30 carol
      (Autoservice.mk_partial (Some (codes "Carol's")) None None None) demo
    = (inl AutoserviceUserNotFoundError, demo).
Proof.
  assert (consistent demo) as Hd by (split; by_compute).
  destruct (patch_requires_owner_or_permission demo bob Hd) as (Hc & _ & Ha).
  destruct (patch_requires_owner_or_permission demo carol Hd) as (_ & _ & Ha').
  split_and!.
  - apply (Hc (Customer.mk 10 (codes "Alice") None 1)); by_compute.
  - destruct (Ha garage (Autoservice.mk_partial (Some (codes "Bob's")) None None None))
      as [Hrow _]; [by_compute|].
    destruct (Hrow (AutoserviceUser.mk 2 30 [autoservice_manage_provided_maintenance]))
      as [_ Hrefuse]; [by_compute|reflexivity|reflexivity|].
    apply Hrefuse. by_compute.
  - destruct (Ha' garage (Autoservice.mk_partial (Some (codes "Carol's")) None None None))
      as [_ Hnone]; [by_compute|].
    apply Hnone. apply Forall_forall. by_compute.
Defined.

(** ** What the services leave untouched *)

Lemma bind_ret_untouched_on_error {A B} (m : M A) (f : A -> B) :
  untouched_on_error m -> untouched_on_error (m ≫= fun a => mret (f a)).
Proof.
  intros Hm d e d'. unfold mbind, M_bind.
  destruct (m d) as [[e1|a] d1] eqn:Hmd; [|done].
  intros [= <- <-]. by eapply Hm.
Qed.

Lemma get_one_or_none_readonly {T K} (R : Repository T K) (P : T -> Prop)
    `{!forall r, Decision (P r)} :
  readonly (get_one_or_none R P).
Proof. done. Qed.

Ltac unfold_services :=
  unfold CustomerService.get_customer_by_customer_id,
    CustomerService.create_customer, CustomerService.patch_customer,
    MechanicService.validate_mechanic_owner,
    MechanicService.get_mechanic_by_mechanic_id,
    MechanicService.create_mechanic, MechanicService.patch_mechanic,
    AutoserviceUserService.get_autoservice_user_by_uid_and_autoservice_id,
    AutoserviceUserService.create_autoservice_owner,
    AutoserviceService.get_autoservice_by_autoservice_id,
    BaseAutoserviceService.get_autoservice_by_autoservice_id,
    BaseAutoserviceService.create_autoservice,
    BaseAutoserviceService.update_autoservice,
    AutoserviceService.validate_autoservice_manage_provided_maintenance_permissions,
    AutoserviceService.patch_autoservice,
    CountryService.get_country_by_country_id,
    VehicleBrandService.get_vehicle_brand_by_vehicle_brand_id,
    VehicleModelService.get_vehicle_model_by_vehicle_model_id,
    VehicleGenerationService.get_vehicle_generation_by_vehicle_generation_id,
    CommonVehicleService.validate_vehicle_params,
    BaseVehicleService.create_vehicle, VehicleService.create_vehicle,
    ProvidedMaintenanceTypeService.get_provided_maintenance_type_by_provided_maintenance_id,
    BaseProvidedMaintenanceService.get_provided_maintenance_by_provided_maintenance_id,
    ProvidedMaintenanceVehicleBrandAssociationService.create_provided_maintenance_vehicle_brand_association,
    ProvidedMaintenanceCountryAssociationService.create_provided_maintenance_country_association,
    ProvidedMaintenanceService._get_provided_maintenance_with_owner,
    ProvidedMaintenanceService.create_provided_maintenance,
    ProvidedMaintenanceService.create_provided_maintenance_country_association,
    ProvidedMaintenanceService.create_provided_maintenance_vehicle_brand_association.

(** Reads, tests and raises in sequence only read. *)
Ltac readonly_tac :=
  repeat match goal with
    | |- readonly (_ ≫= _) => apply bind_readonly; [|intros ?]
    | |- readonly (mret _) => apply ret_readonly
    | |- readonly (raise _) => apply raise_readonly
    | |- readonly (get_one_or_none _ _) => apply get_one_or_none_readonly
    | |- readonly (bind_param _ _ _) => apply bind_param_readonly
    | |- readonly (match ?x with _ => _ end) => destruct x
    | |- readonly _ => progress unfold_services
    end.

(** A sequence of reads that ends in one write, or in a raise, leaves the
    store alone when it fails. *)
Ltac untouched_tac :=
  repeat match goal with
    | |- untouched_on_error (_ ≫= fun a => mret _) =>
        apply bind_ret_untouched_on_error
    | |- untouched_on_error (_ ≫= _) =>
        apply bind_untouched_on_error; [readonly_tac|intros ?]
    | |- untouched_on_error (create _ _) => apply create_untouched_on_error
    | |- untouched_on_error (update _ _ _) => apply update_untouched_on_error
    | |- untouched_on_error (mret _) =>
        apply readonly_untouched_on_error, ret_readonly
    | |- untouched_on_error (raise _) =>
        apply readonly_untouched_on_error, raise_readonly
    | |- untouched_on_error (match ?x with _ => _ end) => destruct x
    | |- untouched_on_error _ => progress unfold_services
    end.

Lemma validate_vehicle_params_readonly b m g :
  readonly (CommonVehicleService.validate_vehicle_params b m g).
Proof. readonly_tac. Qed.

Lemma get_provided_maintenance_with_owner_readonly i user :
  readonly (ProvidedMaintenanceService._get_provided_maintenance_with_owner i user).
Proof. readonly_tac. Qed.

Lemma create_customer_untouched_on_error customer user :
  untouched_on_error (CustomerService.create_customer customer user).
Proof. untouched_tac. Qed.

Lemma create_mechanic_untouched_on_error mechanic user :
  untouched_on_error (MechanicService.create_mechanic mechanic user).
Proof. untouched_tac. Qed.

Lemma patch_customer_untouched_on_error i data user :
  untouched_on_error (CustomerService.patch_customer i data user).
Proof. untouched_tac. Qed.

Lemma patch_mechanic_untouched_on_error i data user :
  untouched_on_error (MechanicService.patch_mechanic i data user).
Proof. untouched_tac. Qed.

Lemma patch_autoservice_untouched_on_error i user data :
  untouched_on_error (AutoserviceService.patch_autoservice i user data).
Proof. untouched_tac. Qed.

Lemma create_vehicle_untouched_on_error vehicle :
  untouched_on_error (VehicleService.create_vehicle vehicle).
Proof. untouched_tac. Qed.

Lemma create_provided_maintenance_untouched_on_error pm user :
  untouched_on_error (ProvidedMaintenanceService.create_provided_maintenance pm user).
Proof. untouched_tac. Qed.

Lemma create_country_association_untouched_on_error a :
  untouched_on_error
    (ProvidedMaintenanceCountryAssociationService.create_provided_maintenance_country_association a).
Proof. untouched_tac. Qed.

Lemma create_vehicle_brand_association_untouched_on_error a :
  untouched_on_error
    (ProvidedMaintenanceVehicleBrandAssociationService.create_provided_maintenance_vehicle_brand_association a).
Proof. untouched_tac. Qed.

Lemma add_country_untouched_on_error a user :
  untouched_on_error
    (ProvidedMaintenanceService.create_provided_maintenance_country_association a user).
Proof. untouched_tac. Qed.

Lemma add_vehicle_brand_untouched_on_error a user :
  untouched_on_error
    (ProvidedMaintenanceService.create_provided_maintenance_vehicle_brand_association
       a user).
Proof. untouched_tac. Qed.

(** ** The steps of the store *)

Lemma bind_read_inv {A B} (m : M A) (k : A -> M B) d b d' :
  readonly m -> (m ≫= k) d = (inr b, d') ->
  exists a, m d = (inr a, d) ∧ k a d = (inr b, d').
Proof.
  intros Hm H. apply bind_inr_inv in H as (a & d1 & Ha & Hk).
  specialize (Hm d). rewrite Ha in Hm. simpl in Hm. subst d1. eauto.
Qed.

Lemma ret_inv {A} (a b : A) d d' : (mret a : M A) d = (inr b, d') -> b = a ∧ d' = d.
Proof. by intros [= <- <-]. Qed.

(** The reads at the head of a successful run leave the store as it was. *)
Ltac skip_read H :=
  apply bind_read_inv in H as (? & _ & H); [|by readonly_tac].
Ltac skip_reads H := repeat skip_read H.

Lemma create_customer_evolves customer user d r d' :
  CustomerService.create_customer customer user d = (inr r, d') -> evolves d d'.
Proof.
  unfold CustomerService.create_customer. intros H.
  apply bind_read_inv in H as ([saved|] & _ & H); [| |by readonly_tac].
  - apply ret_inv in H as [_ ->]. apply evolves_refl.
  - apply create_inv in H as (_ & Hadm & ->). by apply evolves_customer.
Qed.

Lemma patch_customer_evolves i data user d r d' :
  CustomerService.patch_customer i data user d = (inr r, d') -> evolves d d'.
Proof.
  unfold CustomerService.patch_customer. intros H. skip_reads H.
  case_decide; [done|]. apply update_inv in H as ->. apply evolves_customer_patch.
Qed.

Lemma create_mechanic_evolves mechanic user d r d' :
  MechanicService.create_mechanic mechanic user d = (inr r, d') -> evolves d d'.
Proof.
  unfold MechanicService.create_mechanic. intros H.
  apply bind_read_inv in H as ([saved|] & _ & H); [| |by readonly_tac].
  - apply ret_inv in H as [_ ->]. apply evolves_refl.
  - apply create_inv in H as (_ & Hadm & ->). by apply evolves_mechanic.
Qed.

Lemma patch_mechanic_evolves i data user d r d' :
  MechanicService.patch_mechanic i data user d = (inr r, d') -> evolves d d'.
Proof.
  unfold MechanicService.patch_mechanic. intros H. skip_reads H.
  case_decide; [done|]. apply update_inv in H as ->. apply evolves_mechanic_patch.
Qed.

(** [create_autoservice] writes twice: the autoservice, then its owner. *)
Lemma create_autoservice_inv autoservice user d r d' :
  AutoserviceService.create_autoservice autoservice user d = (inr r, d') ->
  let d1 := with_autoservices (autoservices d ++ [autoservice]) d in
  let owner :=
    AutoserviceUser.mk (User.uid user) (Autoservice.autoservice_id autoservice)
      all_permissions in
  r = autoservice ∧ autoservice_admits d autoservice
  ∧ autoservice_user_admits d1 owner
  ∧ d' = with_autoservice_users (autoservice_users d1 ++ [owner]) d1.
Proof.
  unfold AutoserviceService.create_autoservice,
    BaseAutoserviceService.create_autoservice,
    AutoserviceUserService.create_autoservice_owner. intros H.
  apply bind_inr_inv in H as (a & d1 & Ha & H).
  apply create_inv in Ha as (-> & Hadm & ->).
  apply bind_inr_inv in H as (u & d2 & Hu & H).
  apply create_inv in Hu as (-> & Hadm' & ->).
  apply ret_inv in H as [-> ->]. auto.
Qed.

Lemma patch_autoservice_evolves i user data d r d' :
  AutoserviceService.patch_autoservice i user data d = (inr r, d') -> evolves d d'.
Proof.
  unfold AutoserviceService.patch_autoservice. intros H. skip_reads H.
  case_decide; [done|]. apply update_inv in H as ->.
  apply evolves_autoservice_patch.
Qed.

Lemma create_vehicle_evolves vehicle d r d' :
  VehicleService.create_vehicle vehicle d = (inr r, d') -> evolves d d'.
Proof.
  unfold VehicleService.create_vehicle. intros H.
  apply bind_read_inv in H as ([[b m] g] & _ & H); [|by readonly_tac].
  skip_reads H. apply bind_inr_inv in H as (v & d1 & Hv & H).
  apply create_inv in Hv as (-> & Hadm & ->). apply ret_inv in H as [_ ->].
  by apply evolves_vehicle.
Qed.

Lemma create_provided_maintenance_evolves pm user d r d' :
  ProvidedMaintenanceService.create_provided_maintenance pm user d = (inr r, d') ->
  evolves d d'.
Proof.
  unfold ProvidedMaintenanceService.create_provided_maintenance. intros H.
  skip_reads H. apply bind_inr_inv in H as (p & d1 & Hp & H).
  apply create_inv in Hp as (-> & Hadm & ->). apply ret_inv in H as [_ ->].
  by apply evolves_provided_maintenance.
Qed.

Lemma create_country_association_evolves a d r d' :
  ProvidedMaintenanceCountryAssociationService.create_provided_maintenance_country_association
    a d = (inr r, d') ->
  evolves d d'.
Proof.
  unfold ProvidedMaintenanceCountryAssociationService.create_provided_maintenance_country_association.
  intros H. apply bind_read_inv in H as ([existing|] & _ & H); [done| |by readonly_tac].
  apply create_inv in H as (_ & Hadm & ->). by apply evolves_country_association.
Qed.

Lemma create_vehicle_brand_association_evolves a d r d' :
  ProvidedMaintenanceVehicleBrandAssociationService.create_provided_maintenance_vehicle_brand_association
    a d = (inr r, d') ->
  evolves d d'.
Proof.
  unfold ProvidedMaintenanceVehicleBrandAssociationService.create_provided_maintenance_vehicle_brand_association.
  intros H. apply bind_read_inv in H as ([existing|] & _ & H); [done| |by readonly_tac].
  apply create_inv in H as (_ & Hadm & ->). by apply evolves_vehicle_brand_association.
Qed.

Lemma add_country_evolves a user d r d' :
  ProvidedMaintenanceService.create_provided_maintenance_country_association
    a user d = (inr r, d') ->
  evolves d d'.
Proof.
  unfold ProvidedMaintenanceService.create_provided_maintenance_country_association.
  intros H. do 2 skip_read H. by eapply create_country_association_evolves.
Qed.

Lemma add_vehicle_brand_evolves a user d r d' :
  ProvidedMaintenanceService.create_provided_maintenance_vehicle_brand_association
    a user d = (inr r, d') ->
  evolves d d'.
Proof.
  unfold ProvidedMaintenanceService.create_provided_maintenance_vehicle_brand_association.
  intros H. do 2 skip_read H. by eapply create_vehicle_brand_association_evolves.
Qed.

(** Every request moves the store by steps of [evolves]. *)
Lemma autocommit_evolves {A} (m : M A) handlers d :
  (forall r d', m d = (inr r, d') -> rtc evolves d d') ->
  rtc evolves d (autocommit d (except handlers m d)).
Proof.
  intros Hm. unfold autocommit, except.
  destruct (m d) as [[e|r] d'] eqn:Hrun; [done|]. by eapply Hm.
Qed.

Lemma handle_evolves d q : rtc evolves d (handle d q).
Proof.
  destruct q; simpl; apply autocommit_evolves; intros r d' Hrun.
  - apply rtc_once. by eapply create_customer_evolves.
  - apply rtc_once. by eapply patch_customer_evolves.
  - apply rtc_once. by eapply create_mechanic_evolves.
  - apply rtc_once. by eapply patch_mechanic_evolves.
  - apply create_autoservice_inv in Hrun as (_ & Ha & Hu & ->).
    eapply rtc_l; [by apply evolves_autoservice|].
    apply rtc_once. by apply evolves_autoservice_user.
  - apply rtc_once. by eapply patch_autoservice_evolves.
  - apply rtc_once. by eapply create_vehicle_evolves.
  - apply rtc_once. by eapply create_provided_maintenance_evolves.
  - apply rtc_once. by eapply add_country_evolves.
  - apply rtc_once. by eapply add_vehicle_brand_evolves.
Qed.

Lemma serve_evolves d qs : rtc evolves d (serve d qs).
Proof.
  unfold serve. revert d. induction qs as [|q qs IH]; intros d; simpl; [done|].
  etrans; [apply handle_evolves|apply IH].
Qed.

Lemma invariant_rtc I d d' : invariant I -> rtc evolves d d' -> I d -> I d'.
Proof. intros HI. induction 1; eauto. Qed.

Lemma invariant_serve I d qs : invariant I -> I d -> I (serve d qs).
Proof. intros HI. apply invariant_rtc; [done|apply serve_evolves]. Qed.

Ltac unfold_row_admits H :=
  unfold customer_admits, mechanic_admits, autoservice_admits,
    autoservice_user_admits, vehicle_admits, provided_maintenance_admits,
    country_association_admits, vehicle_brand_association_admits in H.

(** One column or one check of one table, after one step. *)
Ltac kept :=
  simpl;
  first
    [ assumption
    | rewrite fmap_amend by done; assumption
    | apply NoDup_fresh_snoc; [assumption|tauto]
    | apply NoDup_omap_snoc; [assumption|tauto]
    | apply Forall_amend; [done|assumption]
    | apply Forall_app; split; [assumption|apply Forall_singleton; tauto] ].

Ltac invariant_tac :=
  intros d d' Hev; destruct Hev as
    [|? Hadm| |? Hadm| |? Hadm| |? Hadm|? Hadm|? Hadm|? Hadm|? Hadm];
  try unfold_row_admits Hadm.

Lemma customers_uid_invariant :
  invariant (fun d => NoDup (Customer.uid <$> customers d)).
Proof. invariant_tac; intros H; kept. Qed.

Lemma mechanics_uid_invariant :
  invariant (fun d => NoDup (Mechanic.uid <$> mechanics d)).
Proof. invariant_tac; intros H; kept. Qed.

Lemma check_mechanic_or_autoservice_invariant :
  invariant (fun d =>
    Forall ProvidedMaintenance.check_mechanic_or_autoservice (provided_maintenance d)).
Proof. invariant_tac; intros H; kept. Qed.

Lemma country_association_invariant :
  invariant (fun d =>
    NoDup (ProvidedMaintenanceCountryAssociation.key
             <$> provided_maintenance_country_association d)).
Proof. invariant_tac; intros H; kept. Qed.

Lemma vehicle_brand_association_invariant :
  invariant (fun d =>
    NoDup (ProvidedMaintenanceVehicleBrandAssociation.key
             <$> provided_maintenance_vehicle_brand_association d)).
Proof. invariant_tac; intros H; kept. Qed.

Lemma consistent_invariant : invariant consistent.
Proof. invariant_tac; intros []; split; kept. Qed.

(** ** One profile per user *)

Lemma create_customer_existing d user c new :
  NoDup (Customer.uid <$> customers d) -> c ∈ customers d ->
  Customer.uid c = User.uid user ->
  CustomerService.create_customer new user d = (inr c, d).
Proof.
  intros Hnd Hc Hu. unfold CustomerService.create_customer, mbind, M_bind.
  by rewrite (get_one_or_none_found _ CustomerRepository Customer.uid
                (User.uid user) d c).
Qed.

Lemma create_mechanic_existing d user m new :
  NoDup (Mechanic.uid <$> mechanics d) -> m ∈ mechanics d ->
  Mechanic.uid m = User.uid user ->
  MechanicService.create_mechanic new user d = (inr m, d).
Proof.
  intros Hnd Hm Hu. unfold MechanicService.create_mechanic, mbind, M_bind.
  by rewrite (get_one_or_none_found _ MechanicRepository Mechanic.uid
                (User.uid user) d m).
Qed.

(** C9: when a [Customer] (a [Mechanic]) with the user's [uid] is stored,
    [create_customer] ([create_mechanic]) returns it and leaves the store as
    it is; and in a store where no [uid] occurs twice among the customers
    nor among the mechanics, none does after any sequence of requests. *)
Theorem create_profile_once (d : DB) (user : User.t) :
  NoDup (Customer.uid <$> customers d) ->
  NoDup (Mechanic.uid <$> mechanics d) ->
  (forall c new, c ∈ customers d -> Customer.uid c = User.uid user ->
     CustomerService.create_customer new user d = (inr c, d))
  ∧ (forall m new, m ∈ mechanics d -> Mechanic.uid m = User.uid user ->
     MechanicService.create_mechanic new user d = (inr m, d))
  ∧ (forall qs,
     NoDup (Customer.uid <$> customers (serve d qs))
     ∧ NoDup (Mechanic.uid <$> mechanics (serve d qs))).
Proof.
  intros Hc Hm. split_and!.
  - intros c new ? ?. by apply create_customer_existing.
  - intros m new ? ?. by apply create_mechanic_existing.
  - intros qs. split.
    + by apply (invariant_serve _ d qs customers_uid_invariant).
    + by apply (invariant_serve _ d qs mechanics_uid_invariant).
Qed.

Lemma create_profile_once_witness :
  CustomerService.create_customer (Customer.mk 11 (codes "Alice again") None 0)
    alice demo
  = (inr (Customer.mk 10 (codes "Alice") None 1), demo)
  ∧ NoDup (Customer.uid <$> customers
             (serve demo [PostCustomer alice (Customer.mk 11 (codes "Alice again") None 0);
                          PostCustomer bob (Customer.mk 12 (codes "Bob") None 0)])).
Proof.
  destruct (create_profile_once demo alice) as (Hc & _ & Hs); [by_compute|by_compute|].
  split.
  - apply Hc; by_compute.
  - apply Hs.
Defined.

(** ** Associations of a provided maintenance *)

Lemma create_country_association_duplicate d a :
  NoDup (ProvidedMaintenanceCountryAssociation.key
           <$> provided_maintenance_country_association d) ->
  a ∈ provided_maintenance_country_association d ->
  ProvidedMaintenanceCountryAssociationService.create_provided_maintenance_country_association
    a d
  = (inl ProvidedMaintenanceCountryAssociationAlreadyExistsError, d).
Proof.
  intros Hnd Ha.
  unfold ProvidedMaintenanceCountryAssociationService.create_provided_maintenance_country_association,
    mbind, M_bind.
  rewrite (get_one_or_none_found _ ProvidedMaintenanceCountryAssociationRepository
             ProvidedMaintenanceCountryAssociation.key
             (ProvidedMaintenanceCountryAssociation.key a) d a); try done.
  intros x. unfold ProvidedMaintenanceCountryAssociation.key.
  split; [by intros [-> ->]|by intros [= -> ->]].
Qed.

Lemma create_vehicle_brand_association_duplicate d a :
  NoDup (ProvidedMaintenanceVehicleBrandAssociation.key
           <$> provided_maintenance_vehicle_brand_association d) ->
  a ∈ provided_maintenance_vehicle_brand_association d ->
  ProvidedMaintenanceVehicleBrandAssociationService.create_provided_maintenance_vehicle_brand_association
    a d
  = (inl ProvidedMaintenanceVehicleBrandAssociationAlreadyExistsError, d).
Proof.
  intros Hnd Ha.
  unfold ProvidedMaintenanceVehicleBrandAssociationService.create_provided_maintenance_vehicle_brand_association,
    mbind, M_bind.
  rewrite (get_one_or_none_found _ ProvidedMaintenanceVehicleBrandAssociationRepository
             ProvidedMaintenanceVehicleBrandAssociation.key
             (ProvidedMaintenanceVehicleBrandAssociation.key a) d a); try done.
  intros x. unfold ProvidedMaintenanceVehicleBrandAssociation.key.
  split; [by intros [-> ->]|by intros [= -> ->]].
Qed.

(** A run keeps an invariant when its success is a step and its failure
    leaves the store alone. *)
Lemma run_keeps {A} (I : DB -> Prop) (m : M A) d :
  invariant I -> untouched_on_error m ->
  (forall r d', m d = (inr r, d') -> evolves d d') ->
  I d -> I (m d).2.
Proof.
  intros HI Herr Hok Hd. destruct (m d) as [[e|r] d'] eqn:Hrun; simpl.
  - by rewrite (Herr _ _ _ Hrun).
  - eapply HI; [by eapply Hok|done].
Qed.

(** C4: in a store where no pair occurs twice, creating an association
    whose pair is stored raises the AlreadyExists error of its table and
    adds no row; and no pair occurs twice after a creation or after any
    sequence of requests. *)
Theorem association_pairs_stay_unique (d : DB) :
  NoDup (ProvidedMaintenanceCountryAssociation.key
           <$> provided_maintenance_country_association d) ->
  NoDup (ProvidedMaintenanceVehicleBrandAssociation.key
           <$> provided_maintenance_vehicle_brand_association d) ->
  (forall a, a ∈ provided_maintenance_country_association d ->
     ProvidedMaintenanceCountryAssociationService.create_provided_maintenance_country_association
       a d
     = (inl ProvidedMaintenanceCountryAssociationAlreadyExistsError, d))
  ∧ (forall a, a ∈ provided_maintenance_vehicle_brand_association d ->
     ProvidedMaintenanceVehicleBrandAssociationService.create_provided_maintenance_vehicle_brand_association
       a d
     = (inl ProvidedMaintenanceVehicleBrandAssociationAlreadyExistsError, d))
  ∧ (forall a,
     NoDup (ProvidedMaintenanceCountryAssociation.key
              <$> provided_maintenance_country_association
                    (ProvidedMaintenanceCountryAssociationService.create_provided_maintenance_country_association
                       a d).2))
  ∧ (forall a,
     NoDup (ProvidedMaintenanceVehicleBrandAssociation.key
              <$> provided_maintenance_vehicle_brand_association
                    (ProvidedMaintenanceVehicleBrandAssociationService.create_provided_maintenance_vehicle_brand_association
                       a d).2))
  ∧ (forall qs,
     NoDup (ProvidedMaintenanceCountryAssociation.key
              <$> provided_maintenance_country_association (serve d qs))
     ∧ NoDup (ProvidedMaintenanceVehicleBrandAssociation.key
                <$> provided_maintenance_vehicle_brand_association (serve d qs))).
Proof.
  intros Hc Hb. split_and!.
  - intros a Ha. by apply create_country_association_duplicate.
  - intros a Ha. by apply create_vehicle_brand_association_duplicate.
  - intros a.
    apply (run_keeps _ _ d country_association_invariant); [| |done].
    + apply create_country_association_untouched_on_error.
    + intros r d'. apply create_country_association_evolves.
  - intros a.
    apply (run_keeps _ _ d vehicle_brand_association_invariant); [| |done].
    + apply create_vehicle_brand_association_untouched_on_error.
    + intros r d'. apply create_vehicle_brand_association_evolves.
  - intros qs. split.
    + by apply (invariant_serve _ d qs country_association_invariant).
    + by apply (invariant_serve _ d qs vehicle_brand_association_invariant).
Qed.

Lemma association_pairs_stay_unique_witness :
  ProvidedMaintenanceCountryAssociationService.create_provided_maintenance_country_association
    (ProvidedMaintenanceCountryAssociation.mk 40 1) demo
  = (inl ProvidedMaintenanceCountryAssociationAlreadyExistsError, demo)
  ∧ ProvidedMaintenanceVehicleBrandAssociationService.create_provided_maintenance_vehicle_brand_association
      (ProvidedMaintenanceVehicleBrandAssociation.mk 40 1) demo
    = (inl ProvidedMaintenanceVehicleBrandAssociationAlreadyExistsError, demo).
Proof.
  destruct (association_pairs_stay_unique demo) as (Hc & Hb & _);
    [by_compute|by_compute|].
  split; [apply Hc|apply Hb]; by_compute.
Defined.

(** ** Creating a provided maintenance *)

(** A read that succeeded, with what it returned. *)
Ltac read H x Hx :=
  apply bind_read_inv in H as (x & Hx & H); [|by readonly_tac].

Lemma validate_permissions_inv a user d u d' :
  AutoserviceService.validate_autoservice_manage_provided_maintenance_permissions
    a user d = (inr u, d') ->
  d' = d ∧ holds d user (Autoservice.autoservice_id a)
             autoservice_manage_provided_maintenance.
Proof.
  unfold AutoserviceService.validate_autoservice_manage_provided_maintenance_permissions.
  intros H. read H r Hr. apply get_autoservice_user_inv in Hr as (_ & Hin & Hu & Ha).
  case_decide as Hp; [done|]. apply ret_inv in H as [_ ->].
  split; [done|]. exists r. split_and!; done.
Qed.

(** The test of the autoservice, shared by both services. *)
Lemma autoservice_part_inv d user o x d' :
  match o with
  | Some autoservice_id =>
      autoservice ← AutoserviceService.get_autoservice_by_autoservice_id autoservice_id;
      _ ← AutoserviceService.validate_autoservice_manage_provided_maintenance_permissions
            autoservice user;
      mret (Some autoservice)
  | None => mret None
  end d = (inr x, d') ->
  null_or (fun i => (exists a, a ∈ autoservices d ∧ Autoservice.autoservice_id a = i)
                    ∧ holds d user i autoservice_manage_provided_maintenance) o.
Proof.
  destruct o as [i|]; [|done]. simpl. intros H.
  read H a Ha. apply get_autoservice_inv in Ha as (_ & Hin & Hi).
  apply bind_inr_inv in H as (u & d1 & Hv & H).
  apply validate_permissions_inv in Hv as [-> Hh]. subst i. eauto.
Qed.

Lemma create_provided_maintenance_inv pm user d r d' :
  ProvidedMaintenanceService.create_provided_maintenance pm user d = (inr r, d') ->
  (exists t, t ∈ provided_maintenance_types d
     ∧ ProvidedMaintenanceType.provided_maintenance_type_id t
       = ProvidedMaintenance.provided_maintenance_type_id pm)
  ∧ may_manage d user (ProvidedMaintenance.mechanic_id pm)
      (ProvidedMaintenance.autoservice_id pm)
  ∧ provided_maintenance_admits d pm
  ∧ d' = with_provided_maintenance (provided_maintenance d ++ [pm]) d.
Proof.
  unfold ProvidedMaintenanceService.create_provided_maintenance. intros H.
  read H t Ht. apply get_provided_maintenance_type_inv in Ht as (_ & Ht & Hti).
  read H m Hm. read H a Ha.
  pose proof (autoservice_part_inv _ _ _ _ _ Ha) as Hauto.
  apply bind_inr_inv in H as (p & d1 & Hp & H).
  apply create_inv in Hp as (-> & Hadm & ->). apply ret_inv in H as [_ ->].
  split_and!; [by eauto| |done|done].
  split; [|done]. destruct (ProvidedMaintenance.mechanic_id pm) as [i|]; [|done].
  simpl. read Hm x Hx. apply get_mechanic_inv in Hx as (_ & Hin & Hi).
  unfold MechanicService.validate_mechanic_owner in Hm.
  case_decide as Hu; [done|]. exists x. split_and!; done.
Qed.

Lemma get_provided_maintenance_with_owner_inv i user d r d' :
  ProvidedMaintenanceService._get_provided_maintenance_with_owner i user d
  = (inr r, d') ->
  exists p, p ∈ provided_maintenance d
    ∧ ProvidedMaintenance.provided_maintenance_id p = i
    ∧ may_manage d user (ProvidedMaintenance.mechanic_id p)
        (ProvidedMaintenance.autoservice_id p).
Proof.
  unfold ProvidedMaintenanceService._get_provided_maintenance_with_owner. intros H.
  read H p Hp. apply get_provided_maintenance_inv in Hp as (_ & Hp & Hi).
  read H m Hm. read H a Ha.
  pose proof (autoservice_part_inv _ _ _ _ _ Ha) as Hauto.
  exists p. split_and!; try done. split; [|done].
  destruct (ProvidedMaintenance.mechanic_id p) as [j|]; [|done].
  simpl. read Hm x Hx. apply get_mechanic_inv in Hx as (_ & Hin & Hj).
  case_decide as Hu; [done|]. exists x. split_and!; done.
Qed.

(** An outcome is a success or a failure. *)
Lemma run_cases {A} (m : M A) d :
  (exists r d', m d = (inr r, d')) ∨ (exists e d', m d = (inl e, d')).
Proof. destruct (m d) as [[e|r] d']; eauto. Qed.

(** C5: in a store where every provided maintenance has a mechanic or an
    autoservice, every one has after [create_provided_maintenance] and
    after any sequence of requests; a provided maintenance with neither is
    refused and not stored. *)
Theorem provided_maintenance_has_performer (d : DB) :
  Forall ProvidedMaintenance.check_mechanic_or_autoservice (provided_maintenance d) ->
  (forall pm user,
     Forall ProvidedMaintenance.check_mechanic_or_autoservice
       (provided_maintenance
          (ProvidedMaintenanceService.create_provided_maintenance pm user d).2))
  ∧ (forall pm user,
     ProvidedMaintenance.mechanic_id pm = None ->
     ProvidedMaintenance.autoservice_id pm = None ->
     exists e,
       ProvidedMaintenanceService.create_provided_maintenance pm user d = (inl e, d))
  ∧ (forall qs,
     Forall ProvidedMaintenance.check_mechanic_or_autoservice
       (provided_maintenance (serve d qs))).
Proof.
  intros Hd. split_and!.
  - intros pm user.
    apply (run_keeps _ _ d check_mechanic_or_autoservice_invariant); [| |done].
    + apply create_provided_maintenance_untouched_on_error.
    + intros r d'. apply create_provided_maintenance_evolves.
  - intros pm user Hm Ha.
    destruct (run_cases
                (ProvidedMaintenanceService.create_provided_maintenance pm user) d)
      as [(r & d' & Hrun)|(e & d' & Hrun)].
    + apply create_provided_maintenance_inv in Hrun as (_ & _ & (_ & [?|?] & _) & _);
        congruence.
    + exists e. rewrite Hrun. f_equal.
      by eapply create_provided_maintenance_untouched_on_error.
  - intros qs.
    by apply (invariant_serve _ d qs check_mechanic_or_autoservice_invariant).
Qed.

Lemma provided_maintenance_has_performer_witness :
  (exists e,
     ProvidedMaintenanceService.create_provided_maintenance
       (ProvidedMaintenance.mk 41 90000 None 1 None None) alice demo = (inl e, demo))
  ∧ Forall ProvidedMaintenance.check_mechanic_or_autoservice
      (provided_maintenance
         (serve demo
            [PostProvidedMaintenance alice
               (ProvidedMaintenance.mk 41 90000 None 1 None None);
             PostProvidedMaintenance alice
               (ProvidedMaintenance.mk 42 90000 None 1 (Some 20) (Some 30))])).
Proof.
  destruct (provided_maintenance_has_performer demo) as (_ & Hnone & Hall);
    [by_compute|].
  split; [by apply Hnone|apply Hall].
Defined.

Lemma bind_run {A B} (m : M A) (k : A -> M B) d a d1 :
  m d = (inr a, d1) -> (m ≫= k) d = k a d1.
Proof. intros H. unfold mbind, M_bind. by rewrite H. Qed.

Lemma bind_fail {A B} (m : M A) (k : A -> M B) d e d1 :
  m d = (inl e, d1) -> (m ≫= k) d = (inl e, d1).
Proof. intros H. unfold mbind, M_bind. by rewrite H. Qed.

Lemma validate_permissions_no_row d user a :
  (forall r, r ∈ autoservice_users d ->
     ¬ (AutoserviceUser.uid r = User.uid user
        ∧ AutoserviceUser.autoservice_id r = Autoservice.autoservice_id a)) ->
  AutoserviceService.validate_autoservice_manage_provided_maintenance_permissions
    a user d = (inl AutoserviceUserNotFoundError, d).
Proof.
  intros Hno.
  unfold AutoserviceService.validate_autoservice_manage_provided_maintenance_permissions.
  apply bind_fail. by apply get_autoservice_user_missing.
Qed.

Lemma validate_permissions_refused d user a r :
  consistent d -> r ∈ autoservice_users d ->
  AutoserviceUser.uid r = User.uid user ->
  AutoserviceUser.autoservice_id r = Autoservice.autoservice_id a ->
  autoservice_manage_provided_maintenance ∉ AutoserviceUser.permissions r ->
  AutoserviceService.validate_autoservice_manage_provided_maintenance_permissions
    a user d = (inl AutoserviceUserDoesntHavePermissionsError, d).
Proof.
  intros Hd Hr Hu Ha Hp.
  unfold AutoserviceService.validate_autoservice_manage_provided_maintenance_permissions.
  erewrite bind_run; [|rewrite <-Hu, <-Ha; by apply get_autoservice_user_found].
  by case_decide.
Qed.

Lemma validate_permissions_granted d user a r :
  consistent d -> r ∈ autoservice_users d ->
  AutoserviceUser.uid r = User.uid user ->
  AutoserviceUser.autoservice_id r = Autoservice.autoservice_id a ->
  autoservice_manage_provided_maintenance ∈ AutoserviceUser.permissions r ->
  AutoserviceService.validate_autoservice_manage_provided_maintenance_permissions
    a user d = (inr (), d).
Proof.
  intros Hd Hr Hu Ha Hp.
  unfold AutoserviceService.validate_autoservice_manage_provided_maintenance_permissions.
  erewrite bind_run; [|rewrite <-Hu, <-Ha; by apply get_autoservice_user_found].
  by case_decide.
Qed.

Lemma mechanic_owner_passes d user o :
  consistent d -> null_or (owns_mechanic d user) o ->
  exists x,
    match o with
    | Some mechanic_id =>
        mechanic ← MechanicService.get_mechanic_by_mechanic_id mechanic_id;
        _ ← MechanicService.validate_mechanic_owner mechanic user;
        mret (Some mechanic)
    | None => mret None
    end d = (inr x, d).
Proof.
  intros Hd Hpass. destruct o as [i|]; [|by eexists].
  destruct Hpass as (m & Hm & Hi & Hu). exists (Some m).
  erewrite bind_run; [|rewrite <-Hi; by apply get_mechanic_found].
  erewrite bind_run; [done|].
  unfold MechanicService.validate_mechanic_owner. by case_decide.
Qed.

Section CreateProvidedMaintenance.
Context (d : DB) (pm : ProvidedMaintenance.t) (user : User.t).
Context (Hd : consistent d).
Context (t : ProvidedMaintenanceType.t) (Ht : t ∈ provided_maintenance_types d).
Context (Hti : ProvidedMaintenanceType.provided_maintenance_type_id t
               = ProvidedMaintenance.provided_maintenance_type_id pm).

Ltac after_type :=
  unfold ProvidedMaintenanceService.create_provided_maintenance;
  erewrite bind_run; [|rewrite <-Hti; by apply get_provided_maintenance_type_found].

Ltac after_mechanic Hpass :=
  after_type;
  destruct (mechanic_owner_passes d user _ Hd Hpass) as [? Hmech];
  erewrite bind_run; [|exact Hmech].

Lemma create_provided_maintenance_mechanic_missing i :
  ProvidedMaintenance.mechanic_id pm = Some i ->
  (forall m, m ∈ mechanics d -> Mechanic.mechanic_id m ≠ i) ->
  ProvidedMaintenanceService.create_provided_maintenance pm user d
  = (inl MechanicNotFoundError, d).
Proof.
  intros Hi Hno. after_type. rewrite Hi.
  apply bind_fail, bind_fail. by apply get_mechanic_missing.
Qed.

Lemma create_provided_maintenance_mechanic_foreign i m :
  ProvidedMaintenance.mechanic_id pm = Some i ->
  m ∈ mechanics d -> Mechanic.mechanic_id m = i -> Mechanic.uid m ≠ User.uid user ->
  ProvidedMaintenanceService.create_provided_maintenance pm user d
  = (inl MechanicBelongsToAnotherUserError, d).
Proof.
  intros Hi Hm Hmi Hu. after_type. rewrite Hi. apply bind_fail.
  erewrite bind_run; [|rewrite <-Hmi; by apply get_mechanic_found].
  apply bind_fail. unfold MechanicService.validate_mechanic_owner. by case_decide.
Qed.

Lemma create_provided_maintenance_autoservice_missing j :
  null_or (owns_mechanic d user) (ProvidedMaintenance.mechanic_id pm) ->
  ProvidedMaintenance.autoservice_id pm = Some j ->
  (forall a, a ∈ autoservices d -> Autoservice.autoservice_id a ≠ j) ->
  ProvidedMaintenanceService.create_provided_maintenance pm user d
  = (inl AutoserviceNotFoundError, d).
Proof.
  intros Hpass Hj Hno. after_mechanic Hpass. rewrite Hj.
  apply bind_fail, bind_fail. by apply get_autoservice_missing.
Qed.

Lemma create_provided_maintenance_no_row j a :
  null_or (owns_mechanic d user) (ProvidedMaintenance.mechanic_id pm) ->
  ProvidedMaintenance.autoservice_id pm = Some j ->
  a ∈ autoservices d -> Autoservice.autoservice_id a = j ->
  (forall r, r ∈ autoservice_users d ->
     ¬ (AutoserviceUser.uid r = User.uid user ∧ AutoserviceUser.autoservice_id r = j)) ->
  ProvidedMaintenanceService.create_provided_maintenance pm user d
  = (inl AutoserviceUserNotFoundError, d).
Proof.
  intros Hpass Hj Ha Haj Hno. after_mechanic Hpass. rewrite Hj. apply bind_fail.
  erewrite bind_run; [|rewrite <-Haj; by apply get_autoservice_found].
  apply bind_fail, validate_permissions_no_row. by rewrite Haj.
Qed.

Lemma create_provided_maintenance_refused j a r :
  null_or (owns_mechanic d user) (ProvidedMaintenance.mechanic_id pm) ->
  ProvidedMaintenance.autoservice_id pm = Some j ->
  a ∈ autoservices d -> Autoservice.autoservice_id a = j ->
  r ∈ autoservice_users d -> AutoserviceUser.uid r = User.uid user ->
  AutoserviceUser.autoservice_id r = j ->
  autoservice_manage_provided_maintenance ∉ AutoserviceUser.permissions r ->
  ProvidedMaintenanceService.create_provided_maintenance pm user d
  = (inl AutoserviceUserDoesntHavePermissionsError, d).
Proof.
  intros Hpass Hj Ha Haj Hr Hu Hrj Hp. after_mechanic Hpass. rewrite Hj.
  apply bind_fail.
  erewrite bind_run; [|rewrite <-Haj; by apply get_autoservice_found].
  apply bind_fail. apply (validate_permissions_refused d user a r); congruence.
Qed.
End CreateProvidedMaintenance.

(** C2, as amended: [create_provided_maintenance] first looks up the
    maintenance type: an identifier that is not a [SmallInteger] is refused
    with [IntegrityError], and one that no type has raises
    [ProvidedMaintenanceTypeNotFoundError], whatever the performers.  Once
    the type is found it tests the mechanic (when
    [mechanic_id] is set), then the autoservice (when [autoservice_id] is
    set), and raises at the first test that fails:
    [MechanicNotFoundError] when no mechanic has the identifier,
    [MechanicBelongsToAnotherUserError] when the mechanic's [uid] is not
    the user's, [AutoserviceNotFoundError] when no autoservice has the
    identifier, [AutoserviceUserNotFoundError] or
    [AutoserviceUserDoesntHavePermissionsError] when the user does not hold
    [autoservice:manage_provided_maintenance] in the autoservice.  It
    succeeds only when the performers are the user's to manage; whenever it
    raises, the store is the one before the call.  An association with a
    country or a vehicle brand is stored only when the performers of its
    provided maintenance are the user's to manage, and nothing is stored
    when the call raises. *)
Theorem create_provided_maintenance_validates_performers
    (d : DB) (pm : ProvidedMaintenance.t) (user : User.t) :
  consistent d ->
  (forall r d',
     ProvidedMaintenanceService.create_provided_maintenance pm user d = (inr r, d') ->
     may_manage d user (ProvidedMaintenance.mechanic_id pm)
       (ProvidedMaintenance.autoservice_id pm))
  ∧ (¬ may_manage d user (ProvidedMaintenance.mechanic_id pm)
         (ProvidedMaintenance.autoservice_id pm) ->
     exists e,
       ProvidedMaintenanceService.create_provided_maintenance pm user d = (inl e, d))
  ∧ (forall e d',
     ProvidedMaintenanceService.create_provided_maintenance pm user d = (inl e, d') ->
     d' = d)
  ∧ (¬ smallint (ProvidedMaintenance.provided_maintenance_type_id pm) ->
     ProvidedMaintenanceService.create_provided_maintenance pm user d
     = (inl IntegrityError, d))
  ∧ (smallint (ProvidedMaintenance.provided_maintenance_type_id pm) ->
     (forall t, t ∈ provided_maintenance_types d ->
        ProvidedMaintenanceType.provided_maintenance_type_id t
        ≠ ProvidedMaintenance.provided_maintenance_type_id pm) ->
     ProvidedMaintenanceService.create_provided_maintenance pm user d
     = (inl ProvidedMaintenanceTypeNotFoundError, d))
  ∧ (forall t, t ∈ provided_maintenance_types d ->
     ProvidedMaintenanceType.provided_maintenance_type_id t
     = ProvidedMaintenance.provided_maintenance_type_id pm ->
     (forall i, ProvidedMaintenance.mechanic_id pm = Some i ->
        ((forall m, m ∈ mechanics d -> Mechanic.mechanic_id m ≠ i) ->
           ProvidedMaintenanceService.create_provided_maintenance pm user d
           = (inl MechanicNotFoundError, d))
        ∧ (forall m, m ∈ mechanics d -> Mechanic.mechanic_id m = i ->
             Mechanic.uid m ≠ User.uid user ->
             ProvidedMaintenanceService.create_provided_maintenance pm user d
             = (inl MechanicBelongsToAnotherUserError, d)))
     ∧ (null_or (owns_mechanic d user) (ProvidedMaintenance.mechanic_id pm) ->
        forall j, ProvidedMaintenance.autoservice_id pm = Some j ->
        ((forall a, a ∈ autoservices d -> Autoservice.autoservice_id a ≠ j) ->
           ProvidedMaintenanceService.create_provided_maintenance pm user d
           = (inl AutoserviceNotFoundError, d))
        ∧ (forall a, a ∈ autoservices d -> Autoservice.autoservice_id a = j ->
             ((forall r, r ∈ autoservice_users d ->
                 ¬ (AutoserviceUser.uid r = User.uid user
                    ∧ AutoserviceUser.autoservice_id r = j)) ->
                ProvidedMaintenanceService.create_provided_maintenance pm user d
                = (inl AutoserviceUserNotFoundError, d))
             ∧ (forall r, r ∈ autoservice_users d ->
                  AutoserviceUser.uid r = User.uid user ->
                  AutoserviceUser.autoservice_id r = j ->
                  autoservice_manage_provided_maintenance
                    ∉ AutoserviceUser.permissions r ->
                  ProvidedMaintenanceService.create_provided_maintenance pm user d
                  = (inl AutoserviceUserDoesntHavePermissionsError, d)))))
  ∧ (forall a r d',
     ProvidedMaintenanceService.create_provided_maintenance_country_association
       a user d = (inr r, d') ->
     exists p, p ∈ provided_maintenance d
       ∧ ProvidedMaintenance.provided_maintenance_id p
         = ProvidedMaintenanceCountryAssociation.provided_maintenance_id a
       ∧ may_manage d user (ProvidedMaintenance.mechanic_id p)
           (ProvidedMaintenance.autoservice_id p))
  ∧ (forall a r d',
     ProvidedMaintenanceService.create_provided_maintenance_vehicle_brand_association
       a user d = (inr r, d') ->
     exists p, p ∈ provided_maintenance d
       ∧ ProvidedMaintenance.provided_maintenance_id p
         = ProvidedMaintenanceVehicleBrandAssociation.provided_maintenance_id a
       ∧ may_manage d user (ProvidedMaintenance.mechanic_id p)
           (ProvidedMaintenance.autoservice_id p))
  ∧ (forall a e d',
     ProvidedMaintenanceService.create_provided_maintenance_country_association
       a user d = (inl e, d') -> d' = d)
  ∧ (forall a e d',
     ProvidedMaintenanceService.create_provided_maintenance_vehicle_brand_association
       a user d = (inl e, d') -> d' = d).
Proof.
  intros Hd. split_and!.
  - intros r d' Hrun. by apply create_provided_maintenance_inv in Hrun as (_ & ? & _).
  - intros Hnot.
    destruct (run_cases
                (ProvidedMaintenanceService.create_provided_maintenance pm user) d)
      as [(r & d' & Hrun)|(e & d' & Hrun)].
    + by apply create_provided_maintenance_inv in Hrun as (_ & ? & _).
    + exists e. rewrite Hrun. f_equal.
      by eapply create_provided_maintenance_untouched_on_error.
  - intros e d'. apply create_provided_maintenance_untouched_on_error.
  - intros Hk. unfold ProvidedMaintenanceService.create_provided_maintenance.
    apply bind_fail. by apply get_provided_maintenance_type_out_of_range.
  - intros Hk Hno. unfold ProvidedMaintenanceService.create_provided_maintenance.
    apply bind_fail. by apply get_provided_maintenance_type_missing.
  - intros t Ht Hti. split.
    + intros i Hi. split.
      * by eapply create_provided_maintenance_mechanic_missing.
      * intros m. by eapply create_provided_maintenance_mechanic_foreign.
    + intros Hpass j Hj. split.
      * by eapply create_provided_maintenance_autoservice_missing.
      * intros a Ha Haj. split.
        -- by eapply create_provided_maintenance_no_row.
        -- intros r. by eapply create_provided_maintenance_refused.
  - intros a r d'.
    unfold ProvidedMaintenanceService.create_provided_maintenance_country_association.
    intros H. read H p Hp. by apply get_provided_maintenance_with_owner_inv in Hp.
  - intros a r d'.
    unfold ProvidedMaintenanceService.create_provided_maintenance_vehicle_brand_association.
    intros H. read H p Hp. by apply get_provided_maintenance_with_owner_inv in Hp.
  - intros a e d'. apply add_country_untouched_on_error.
  - intros a e d'. apply add_vehicle_brand_untouched_on_error.
Qed.

Lemma create_provided_maintenance_validates_performers_witness :
  ProvidedMaintenanceService.create_provided_maintenance
    (ProvidedMaintenance.mk 41 90000 None 1 (Some 20) None) bob demo
  = (inl MechanicBelongsToAnotherUserError, demo)
  ∧ ProvidedMaintenanceService.create_provided_maintenance
      (ProvidedMaintenance.mk 41 90000 None 1 None (Some 30)) carol demo
    = (inl AutoserviceUserNotFoundError, demo).
Proof.
  assert (consistent demo) as Hd by (split; by_compute).
  split.
  - destruct (create_provided_maintenance_validates_performers demo
                (ProvidedMaintenance.mk 41 90000 None 1 (Some 20) None) bob Hd)
      as (_ & _ & _ & _ & _ & Herr & _).
    destruct (Herr (ProvidedMaintenanceType.mk 1 (codes "Oil change") 1))
      as [Hmech _]; [by_compute|reflexivity|].
    destruct (Hmech 20 eq_refl) as [_ Hforeign].
    apply (Hforeign
             (Mechanic.mk 20 (codes "Alice") None (codes "Moscow") None None None
                true false 1)); [by_compute|reflexivity|by_compute].
  - destruct (create_provided_maintenance_validates_performers demo
                (ProvidedMaintenance.mk 41 90000 None 1 None (Some 30)) carol Hd)
      as (_ & _ & _ & _ & _ & Herr & _).
    destruct (Herr (ProvidedMaintenanceType.mk 1 (codes "Oil change") 1))
      as [_ Hauto]; [by_compute|reflexivity|].
    destruct (Hauto I 30 eq_refl) as [_ Hrow].
    destruct (Hrow garage) as [Hnone _]; [by_compute|reflexivity|].
    apply Hnone. apply Forall_forall. by_compute.
Defined.

(** C2, as stated, fails: the mechanic of the request is Alice's and the
    user is Bob, but the maintenance type of the request is not stored, and
    the error is the one of the type. *)
Lemma create_provided_maintenance_type_comes_first :
  Mechanic.mk 20 (codes "Alice") None (codes "Moscow") None None None true false 1
    ∈ mechanics demo
  ∧ User.uid bob ≠ 1
  ∧ ProvidedMaintenanceService.create_provided_maintenance
      (ProvidedMaintenance.mk 41 90000 None 99 (Some 20) None) bob demo
    = (inl ProvidedMaintenanceTypeNotFoundError, demo).
Proof. split_and!; [by_compute|by_compute|reflexivity]. Qed.

(** ** Creating a vehicle *)

(** Two rows with the same value of a unique key are the same row. *)
Lemma unique_row {T C} (key : T -> C) (l : list T) (x y : T) :
  NoDup (key <$> l) -> x ∈ l -> y ∈ l -> key x = key y -> x = y.
Proof.
  induction l as [|z l IH]; intros Hnd Hx Hy Hk; [by inversion Hx|].
  rewrite fmap_cons in Hnd. apply NoDup_cons in Hnd as [Hz Hnd].
  apply elem_of_cons in Hx as [->|Hx]; apply elem_of_cons in Hy as [->|Hy].
  - done.
  - exfalso. apply Hz. rewrite Hk. by apply list_elem_of_fmap_2.
  - exfalso. apply Hz. rewrite <-Hk. by apply list_elem_of_fmap_2.
  - by apply IH.
Qed.

Lemma validate_vehicle_params_inv bi mi gi d b m g d' :
  CommonVehicleService.validate_vehicle_params bi mi gi d = (inr (b, m, g), d') ->
  (b ∈ vehicle_brands d ∧ VehicleBrand.vehicle_brand_id b = bi)
  ∧ (m ∈ vehicle_models d ∧ VehicleModel.vehicle_model_id m = mi)
  ∧ (g ∈ vehicle_generations d ∧ VehicleGeneration.vehicle_generation_id g = gi)
  ∧ VehicleModel.vehicle_brand_id m = bi
  ∧ VehicleGeneration.vehicle_model_id g = mi.
Proof.
  unfold CommonVehicleService.validate_vehicle_params. intros H.
  read H b' Hb. apply get_vehicle_brand_inv in Hb as (_ & Hb & Hbi).
  read H m' Hm. apply get_vehicle_model_inv in Hm as (_ & Hm & Hmi).
  case_decide as Hbm; [done|].
  read H g' Hg. apply get_vehicle_generation_inv in Hg as (_ & Hg & Hgi).
  case_decide as Hgm; [done|]. apply ret_inv in H as [[= -> -> ->] _].
  split_and!; congruence.
Qed.

Lemma create_vehicle_inv vehicle d r d' :
  VehicleService.create_vehicle vehicle d = (inr r, d') ->
  linked d vehicle ∧ d' = with_vehicles (vehicles d ++ [vehicle]) d.
Proof.
  unfold VehicleService.create_vehicle. intros H.
  read H x Hx. destruct x as [[b m] g].
  apply validate_vehicle_params_inv in Hx.
  read H c Hc. apply bind_inr_inv in H as (v & d1 & Hv & H).
  apply create_inv in Hv as (-> & Hadm & ->). apply ret_inv in H as [_ ->].
  split; [|done]. by exists b, m, g.
Qed.

Section CreateVehicle.
Context (d : DB) (vehicle : Vehicle.t) (Hd : consistent d).

Ltac into_params :=
  unfold VehicleService.create_vehicle; apply bind_fail;
  unfold CommonVehicleService.validate_vehicle_params.

Lemma create_vehicle_brand_out_of_range :
  ¬ smallint (Vehicle.vehicle_brand_id vehicle) ->
  VehicleService.create_vehicle vehicle d = (inl IntegrityError, d).
Proof.
  intros Hk. into_params. apply bind_fail. by apply get_vehicle_brand_out_of_range.
Qed.

Lemma create_vehicle_brand_missing :
  smallint (Vehicle.vehicle_brand_id vehicle) ->
  (forall b, b ∈ vehicle_brands d ->
     VehicleBrand.vehicle_brand_id b ≠ Vehicle.vehicle_brand_id vehicle) ->
  VehicleService.create_vehicle vehicle d = (inl VehicleBrandNotFoundError, d).
Proof.
  intros Hk Hno. into_params. apply bind_fail. by apply get_vehicle_brand_missing.
Qed.

Context (b : VehicleBrand.t) (Hb : b ∈ vehicle_brands d).
Context (Hbi : VehicleBrand.vehicle_brand_id b = Vehicle.vehicle_brand_id vehicle).

Ltac after_brand :=
  into_params;
  erewrite bind_run; [|rewrite <-Hbi; by apply get_vehicle_brand_found].

Lemma create_vehicle_model_out_of_range :
  ¬ integer (Vehicle.vehicle_model_id vehicle) ->
  VehicleService.create_vehicle vehicle d = (inl IntegrityError, d).
Proof.
  intros Hk. after_brand. apply bind_fail. by apply get_vehicle_model_out_of_range.
Qed.

Lemma create_vehicle_model_missing :
  integer (Vehicle.vehicle_model_id vehicle) ->
  (forall m, m ∈ vehicle_models d ->
     VehicleModel.vehicle_model_id m ≠ Vehicle.vehicle_model_id vehicle) ->
  VehicleService.create_vehicle vehicle d = (inl VehicleModelNotFoundError, d).
Proof.
  intros Hk Hno. after_brand. apply bind_fail. by apply get_vehicle_model_missing.
Qed.

Context (m : VehicleModel.t) (Hm : m ∈ vehicle_models d).
Context (Hmi : VehicleModel.vehicle_model_id m = Vehicle.vehicle_model_id vehicle).

Ltac after_model :=
  after_brand;
  erewrite bind_run; [|rewrite <-Hmi; by apply get_vehicle_model_found].

Lemma create_vehicle_model_mismatch :
  VehicleModel.vehicle_brand_id m ≠ Vehicle.vehicle_brand_id vehicle ->
  VehicleService.create_vehicle vehicle d
  = (inl VehicleModelDoesntMatchWithVehicleBrandError, d).
Proof. intros Hne. after_model. case_decide; [done|congruence]. Qed.

Context (Hmb : VehicleModel.vehicle_brand_id m = Vehicle.vehicle_brand_id vehicle).

Lemma create_vehicle_generation_out_of_range :
  ¬ integer (Vehicle.vehicle_generation_id vehicle) ->
  VehicleService.create_vehicle vehicle d = (inl IntegrityError, d).
Proof.
  intros Hk. after_model. case_decide; [congruence|].
  apply bind_fail. by apply get_vehicle_generation_out_of_range.
Qed.

Lemma create_vehicle_generation_missing :
  integer (Vehicle.vehicle_generation_id vehicle) ->
  (forall g, g ∈ vehicle_generations d ->
     VehicleGeneration.vehicle_generation_id g
     ≠ Vehicle.vehicle_generation_id vehicle) ->
  VehicleService.create_vehicle vehicle d = (inl VehicleGenerationNotFoundError, d).
Proof.
  intros Hk Hno. after_model. case_decide; [congruence|].
  apply bind_fail. by apply get_vehicle_generation_missing.
Qed.

Lemma create_vehicle_generation_mismatch g :
  g ∈ vehicle_generations d ->
  VehicleGeneration.vehicle_generation_id g = Vehicle.vehicle_generation_id vehicle ->
  VehicleGeneration.vehicle_model_id g ≠ Vehicle.vehicle_model_id vehicle ->
  VehicleService.create_vehicle vehicle d
  = (inl VehicleGenerationDoesntMatchWithVehicleModelError, d).
Proof.
  intros Hg Hgi Hne. after_model. case_decide; [congruence|].
  erewrite bind_run; [|rewrite <-Hgi; by apply get_vehicle_generation_found].
  case_decide; [done|congruence].
Qed.
End CreateVehicle.

(** A key value is either that of a stored row or of none. *)
Lemma find_row {T C} `{!EqDecision C} (key : T -> C) (k : C) (l : list T) :
  (exists r, r ∈ l ∧ key r = k) ∨ (forall r, r ∈ l -> key r ≠ k).
Proof.
  destruct (decide (Exists (fun r => key r = k) l)) as [He|He].
  - left. by apply Exists_exists in He.
  - right. intros r Hr Hk. apply He, Exists_exists. eauto.
Qed.

Lemma validate_vehicle_params_linked d b m g :
  consistent d ->
  b ∈ vehicle_brands d -> m ∈ vehicle_models d -> g ∈ vehicle_generations d ->
  VehicleModel.vehicle_brand_id m = VehicleBrand.vehicle_brand_id b ->
  VehicleGeneration.vehicle_model_id g = VehicleModel.vehicle_model_id m ->
  CommonVehicleService.validate_vehicle_params (VehicleBrand.vehicle_brand_id b)
    (VehicleModel.vehicle_model_id m) (VehicleGeneration.vehicle_generation_id g) d
  = (inr (b, m, g), d).
Proof.
  intros Hd Hb Hm Hg Hmb Hgm. unfold CommonVehicleService.validate_vehicle_params.
  erewrite bind_run; [|by apply get_vehicle_brand_found].
  erewrite bind_run; [|by apply get_vehicle_model_found].
  case_decide; [done|].
  erewrite bind_run; [|by apply get_vehicle_generation_found].
  by case_decide.
Qed.

(** The identifiers of a linked vehicle are those of stored rows, and so of
    the types of their columns. *)
Lemma linked_typed d vehicle :
  consistent d -> linked d vehicle -> vehicle_ids_typed vehicle.
Proof.
  intros Hd (b & m & g & [Hb Hbi] & [Hm Hmi] & [Hg Hgi] & _).
  unfold vehicle_ids_typed. rewrite <-Hbi, <-Hmi, <-Hgi. split_and!.
  - exact (proj1 (Forall_forall _ _) (vehicle_brands_type d Hd) b Hb).
  - exact (proj1 (Forall_forall _ _) (vehicle_models_type d Hd) m Hm).
  - exact (proj1 (Forall_forall _ _) (vehicle_generations_type d Hd) g Hg).
Qed.

(** Past the chain, [create_vehicle] can only miss the customer or be
    refused by the table. *)
Lemma create_vehicle_linked_errors d vehicle e d' :
  consistent d -> linked d vehicle ->
  VehicleService.create_vehicle vehicle d = (inl e, d') ->
  e = CustomerNotFoundError ∨ e = IntegrityError.
Proof.
  intros Hd (b & m & g & [Hb Hbi] & [Hm Hmi] & [Hg Hgi] & Hmb & Hgm).
  unfold VehicleService.create_vehicle.
  erewrite bind_run;
    [|rewrite <-Hbi, <-Hmi, <-Hgi; apply validate_vehicle_params_linked; congruence].
  destruct (find_row Customer.customer_id (Vehicle.customer_id vehicle) (customers d))
    as [(c & Hc & Hci)|Hno].
  - erewrite bind_run; [|rewrite <-Hci; by apply get_customer_found].
    unfold BaseVehicleService.create_vehicle, create, mbind, M_bind.
    case_decide; [done|]. intros [= <- <-]. by right.
  - erewrite bind_fail; [|by apply get_customer_missing].
    intros [= <- <-]. by left.
Qed.

(** How a run of [create_vehicle] ends when the chain is broken: at each of
    the three lookups the identifier is outside the type of the column, or
    no row has it, or the row found is of another brand (model). *)
Lemma create_vehicle_broken d vehicle :
  consistent d -> ¬ linked d vehicle ->
  (¬ smallint (Vehicle.vehicle_brand_id vehicle)
   ∧ VehicleService.create_vehicle vehicle d = (inl IntegrityError, d))
  ∨ ((smallint (Vehicle.vehicle_brand_id vehicle)
      ∧ forall b, b ∈ vehicle_brands d ->
          VehicleBrand.vehicle_brand_id b ≠ Vehicle.vehicle_brand_id vehicle)
     ∧ VehicleService.create_vehicle vehicle d = (inl VehicleBrandNotFoundError, d))
  ∨ (¬ integer (Vehicle.vehicle_model_id vehicle)
     ∧ VehicleService.create_vehicle vehicle d = (inl IntegrityError, d))
  ∨ ((integer (Vehicle.vehicle_model_id vehicle)
      ∧ forall m, m ∈ vehicle_models d ->
          VehicleModel.vehicle_model_id m ≠ Vehicle.vehicle_model_id vehicle)
     ∧ VehicleService.create_vehicle vehicle d = (inl VehicleModelNotFoundError, d))
  ∨ ((exists m, m ∈ vehicle_models d
        ∧ VehicleModel.vehicle_model_id m = Vehicle.vehicle_model_id vehicle
        ∧ VehicleModel.vehicle_brand_id m ≠ Vehicle.vehicle_brand_id vehicle)
     ∧ VehicleService.create_vehicle vehicle d
       = (inl VehicleModelDoesntMatchWithVehicleBrandError, d))
  ∨ (¬ integer (Vehicle.vehicle_generation_id vehicle)
     ∧ VehicleService.create_vehicle vehicle d = (inl IntegrityError, d))
  ∨ ((integer (Vehicle.vehicle_generation_id vehicle)
      ∧ forall g, g ∈ vehicle_generations d ->
          VehicleGeneration.vehicle_generation_id g
          ≠ Vehicle.vehicle_generation_id vehicle)
     ∧ VehicleService.create_vehicle vehicle d
       = (inl VehicleGenerationNotFoundError, d))
  ∨ ((exists g, g ∈ vehicle_generations d
        ∧ VehicleGeneration.vehicle_generation_id g
          = Vehicle.vehicle_generation_id vehicle
        ∧ VehicleGeneration.vehicle_model_id g ≠ Vehicle.vehicle_model_id vehicle)
     ∧ VehicleService.create_vehicle vehicle d
       = (inl VehicleGenerationDoesntMatchWithVehicleModelError, d)).
Proof.
  intros Hd Hnot.
  destruct (decide (smallint (Vehicle.vehicle_brand_id vehicle))) as [Hkb|Hkb];
    [|left; split; [done|by apply create_vehicle_brand_out_of_range]].
  destruct (find_row VehicleBrand.vehicle_brand_id (Vehicle.vehicle_brand_id vehicle)
              (vehicle_brands d)) as [(b & Hb & Hbi)|Hno];
    [|right; left; split; [done|by apply create_vehicle_brand_missing]].
  destruct (decide (integer (Vehicle.vehicle_model_id vehicle))) as [Hkm|Hkm];
    [|do 2 right; left; split; [done|by eapply create_vehicle_model_out_of_range]].
  destruct (find_row VehicleModel.vehicle_model_id (Vehicle.vehicle_model_id vehicle)
              (vehicle_models d)) as [(m & Hm & Hmi)|Hno];
    [|do 3 right; left; split; [done|by eapply create_vehicle_model_missing]].
  destruct (decide (VehicleModel.vehicle_brand_id m = Vehicle.vehicle_brand_id vehicle))
    as [Hmb|Hmb];
    [|do 4 right; left; split; [by eauto|by eapply create_vehicle_model_mismatch]].
  destruct (decide (integer (Vehicle.vehicle_generation_id vehicle))) as [Hkg|Hkg];
    [|do 5 right; left; split;
      [done|by eapply create_vehicle_generation_out_of_range]].
  destruct (find_row VehicleGeneration.vehicle_generation_id
              (Vehicle.vehicle_generation_id vehicle) (vehicle_generations d))
    as [(g & Hg & Hgi)|Hno];
    [|do 6 right; left; split; [done|by eapply create_vehicle_generation_missing]].
  destruct (decide (VehicleGeneration.vehicle_model_id g
                    = Vehicle.vehicle_model_id vehicle)) as [Hgm|Hgm];
    [|do 7 right; split; [by eauto|by eapply create_vehicle_generation_mismatch]].
  destruct Hnot. by exists b, m, g.
Qed.

(** C3, as amended: [create_vehicle] succeeds only when the brand, the
    model and the generation are stored, the model's [vehicle_brand_id] is
    the given brand and the generation's [vehicle_model_id] is the given
    model, and it then stores the vehicle.  When the three identifiers are
    values of their columns' types ([SmallInteger] for the brand, [Integer]
    for the model and the generation) and the chain is broken, it raises
    one of the three NotFound and two mismatch errors, and the error tells
    what is wrong: a NotFound error means that no row has the identifier, a
    mismatch error that the row found has another brand (another model).
    The tests run in the order brand, model, model-brand link, generation,
    generation-model link, and the first that fails raises; an identifier
    outside the type of its column is refused with [IntegrityError] at its
    lookup.  Whenever the call raises, no vehicle is stored. *)
Theorem create_vehicle_validates_chain (d : DB) (vehicle : Vehicle.t) :
  consistent d ->
  (forall r d', VehicleService.create_vehicle vehicle d = (inr r, d') ->
     linked d vehicle ∧ d' = with_vehicles (vehicles d ++ [vehicle]) d)
  ∧ (forall e d', VehicleService.create_vehicle vehicle d = (inl e, d') -> d' = d)
  ∧ (¬ linked d vehicle -> vehicle_ids_typed vehicle ->
     exists e,
       VehicleService.create_vehicle vehicle d = (inl e, d)
       ∧ e ∈ [VehicleBrandNotFoundError; VehicleModelNotFoundError;
              VehicleGenerationNotFoundError;
              VehicleModelDoesntMatchWithVehicleBrandError;
              VehicleGenerationDoesntMatchWithVehicleModelError])
  ∧ (forall d',
     (VehicleService.create_vehicle vehicle d = (inl VehicleBrandNotFoundError, d') ->
      forall b, b ∈ vehicle_brands d ->
        VehicleBrand.vehicle_brand_id b ≠ Vehicle.vehicle_brand_id vehicle)
     ∧ (VehicleService.create_vehicle vehicle d = (inl VehicleModelNotFoundError, d') ->
        forall m, m ∈ vehicle_models d ->
          VehicleModel.vehicle_model_id m ≠ Vehicle.vehicle_model_id vehicle)
     ∧ (VehicleService.create_vehicle vehicle d
        = (inl VehicleGenerationNotFoundError, d') ->
        forall g, g ∈ vehicle_generations d ->
          VehicleGeneration.vehicle_generation_id g
          ≠ Vehicle.vehicle_generation_id vehicle)
     ∧ (VehicleService.create_vehicle vehicle d
        = (inl VehicleModelDoesntMatchWithVehicleBrandError, d') ->
        exists m, m ∈ vehicle_models d
          ∧ VehicleModel.vehicle_model_id m = Vehicle.vehicle_model_id vehicle
          ∧ VehicleModel.vehicle_brand_id m ≠ Vehicle.vehicle_brand_id vehicle)
     ∧ (VehicleService.create_vehicle vehicle d
        = (inl VehicleGenerationDoesntMatchWithVehicleModelError, d') ->
        exists g, g ∈ vehicle_generations d
          ∧ VehicleGeneration.vehicle_generation_id g
            = Vehicle.vehicle_generation_id vehicle
          ∧ VehicleGeneration.vehicle_model_id g ≠ Vehicle.vehicle_model_id vehicle))
  ∧ (¬ smallint (Vehicle.vehicle_brand_id vehicle) ->
     VehicleService.create_vehicle vehicle d = (inl IntegrityError, d))
  ∧ (smallint (Vehicle.vehicle_brand_id vehicle) ->
     (forall b, b ∈ vehicle_brands d ->
        VehicleBrand.vehicle_brand_id b ≠ Vehicle.vehicle_brand_id vehicle) ->
     VehicleService.create_vehicle vehicle d = (inl VehicleBrandNotFoundError, d))
  ∧ (forall b, b ∈ vehicle_brands d ->
     VehicleBrand.vehicle_brand_id b = Vehicle.vehicle_brand_id vehicle ->
     (¬ integer (Vehicle.vehicle_model_id vehicle) ->
      VehicleService.create_vehicle vehicle d = (inl IntegrityError, d))
     ∧ (integer (Vehicle.vehicle_model_id vehicle) ->
        (forall m, m ∈ vehicle_models d ->
           VehicleModel.vehicle_model_id m ≠ Vehicle.vehicle_model_id vehicle) ->
        VehicleService.create_vehicle vehicle d = (inl VehicleModelNotFoundError, d))
     ∧ (forall m, m ∈ vehicle_models d ->
        VehicleModel.vehicle_model_id m = Vehicle.vehicle_model_id vehicle ->
        (VehicleModel.vehicle_brand_id m ≠ Vehicle.vehicle_brand_id vehicle ->
         VehicleService.create_vehicle vehicle d
         = (inl VehicleModelDoesntMatchWithVehicleBrandError, d))
        ∧ (VehicleModel.vehicle_brand_id m = Vehicle.vehicle_brand_id vehicle ->
           (¬ integer (Vehicle.vehicle_generation_id vehicle) ->
            VehicleService.create_vehicle vehicle d = (inl IntegrityError, d))
           ∧ (integer (Vehicle.vehicle_generation_id vehicle) ->
              (forall g, g ∈ vehicle_generations d ->
                 VehicleGeneration.vehicle_generation_id g
                 ≠ Vehicle.vehicle_generation_id vehicle) ->
              VehicleService.create_vehicle vehicle d
              = (inl VehicleGenerationNotFoundError, d))
           ∧ (forall g, g ∈ vehicle_generations d ->
              VehicleGeneration.vehicle_generation_id g
              = Vehicle.vehicle_generation_id vehicle ->
              VehicleGeneration.vehicle_model_id g
              ≠ Vehicle.vehicle_model_id vehicle ->
              VehicleService.create_vehicle vehicle d
              = (inl VehicleGenerationDoesntMatchWithVehicleModelError, d))))).
Proof.
  intros Hd. split_and!.
  - intros r d'. apply create_vehicle_inv.
  - intros e d'. apply create_vehicle_untouched_on_error.
  - intros Hnot (Hkb & Hkm & Hkg).
    destruct (create_vehicle_broken d vehicle Hd Hnot)
      as [[? Hrun]|[[_ Hrun]|[[? Hrun]|[[_ Hrun]|[[_ Hrun]|[[? Hrun]|[[_ Hrun]
          |[_ Hrun]]]]]]]]; try done;
      eexists; (split; [exact Hrun|by_compute]).
  - intros d'.
    assert (forall e, VehicleService.create_vehicle vehicle d = (inl e, d') ->
              e ≠ CustomerNotFoundError -> e ≠ IntegrityError ->
              ¬ linked d vehicle) as Hbroken.
    { intros e Hrun Hc Hi Hl.
      by destruct (create_vehicle_linked_errors d vehicle e d' Hd Hl Hrun). }
    split_and!; intros Hrun;
      (destruct (create_vehicle_broken d vehicle Hd (Hbroken _ Hrun ltac:(done) ltac:(done)))
        as [[Hw Hrun']|[[[_ Hw] Hrun']|[[Hw Hrun']|[[[_ Hw] Hrun']|[[Hw Hrun']
            |[[Hw Hrun']|[[[_ Hw] Hrun']|[Hw Hrun']]]]]]]];
       rewrite Hrun' in Hrun; simplify_eq; exact Hw).
  - by apply create_vehicle_brand_out_of_range.
  - by apply create_vehicle_brand_missing.
  - intros b Hb Hbi. split_and!.
    + by eapply create_vehicle_model_out_of_range.
    + by eapply create_vehicle_model_missing.
    + intros m Hm Hmi. split; [by eapply create_vehicle_model_mismatch|].
      intros Hmb. split_and!.
      * by eapply create_vehicle_generation_out_of_range.
      * by eapply create_vehicle_generation_missing.
      * intros g. by eapply create_vehicle_generation_mismatch.
Qed.

Lemma create_vehicle_validates_chain_witness :
  VehicleService.create_vehicle (Vehicle.mk 50 None None 2 2 2 10) demo
  = (inl VehicleModelDoesntMatchWithVehicleBrandError, demo)
  ∧ VehicleService.create_vehicle (Vehicle.mk 50 None None 1 2 1 10) demo
    = (inl VehicleGenerationDoesntMatchWithVehicleModelError, demo)
  ∧ VehicleService.create_vehicle (Vehicle.mk 50 None None 40000 2 1 10) demo
    = (inl IntegrityError, demo).
Proof.
  assert (consistent demo) as Hd by (split; by_compute).
  split_and!.
  - destruct (create_vehicle_validates_chain demo
                (Vehicle.mk 50 None None 2 2 2 10) Hd)
      as (_ & _ & _ & _ & _ & _ & Hbrand).
    destruct (Hbrand (VehicleBrand.mk 2 (codes "Nissan") true 1))
      as (_ & _ & Hmodel); [by_compute|reflexivity|].
    destruct (Hmodel (VehicleModel.mk 2 (codes "Camry") 1))
      as [Hmismatch _]; [by_compute|reflexivity|].
    apply Hmismatch. by_compute.
  - destruct (create_vehicle_validates_chain demo
                (Vehicle.mk 50 None None 1 2 1 10) Hd)
      as (_ & _ & _ & _ & _ & _ & Hbrand).
    destruct (Hbrand (VehicleBrand.mk 1 (codes "Toyota") true 1))
      as (_ & _ & Hmodel); [by_compute|reflexivity|].
    destruct (Hmodel (VehicleModel.mk 2 (codes "Camry") 1))
      as [_ Hlinked]; [by_compute|reflexivity|].
    destruct (Hlinked eq_refl) as (_ & _ & Hgen).
    apply (Hgen (VehicleGeneration.mk 1 (codes "E210") 2018 None 1));
      [by_compute|reflexivity|by_compute].
  - destruct (create_vehicle_validates_chain demo
                (Vehicle.mk 50 None None 40000 2 1 10) Hd)
      as (_ & _ & _ & _ & Hrange & _).
    apply Hrange. by_compute.
Defined.

(** C3, as stated, fails: no brand has the identifier 40000, which is not
    a [SmallInteger], and the error is not the NotFound error of the
    brand. *)
Lemma create_vehicle_out_of_range_is_not_missing :
  (forall b, b ∈ vehicle_brands demo -> VehicleBrand.vehicle_brand_id b ≠ 40000%Z)
  ∧ VehicleService.create_vehicle (Vehicle.mk 50 None None 40000 1 1 10) demo
    = (inl IntegrityError, demo)
  ∧ VehicleService.create_vehicle (Vehicle.mk 50 None None 40000 1 1 10) demo
    ≠ (inl VehicleBrandNotFoundError, demo).
Proof. split_and!; [apply Forall_forall; by_compute|reflexivity|done]. Qed.

(** ** The owner of an autoservice *)

Lemma autoservice_user_stays r :
  invariant (fun d => r ∈ autoservice_users d).
Proof.
  invariant_tac; intros H; simpl; try assumption.
  apply elem_of_app. by left.
Qed.

Lemma autoservice_id_stays i :
  invariant (fun d => i ∈ Autoservice.autoservice_id <$> autoservices d).
Proof.
  invariant_tac; intros H; simpl; try assumption.
  - rewrite fmap_app. apply elem_of_app. by left.
  - by rewrite fmap_amend.
Qed.

(** C10: a successful [create_autoservice] stores the autoservice and the
    [AutoserviceUser] row of the creating user and the new autoservice with
    both permissions; after any further requests the row is still the one
    found for them, [patch_autoservice] by this user succeeds and the check
    of [autoservice:manage_provided_maintenance] passes. *)
Theorem create_autoservice_grants_owner
    (d : DB) (autoservice : Autoservice.t) (user : User.t)
    (r : Autoservice.t) (d' : DB) :
  consistent d ->
  AutoserviceService.create_autoservice autoservice user d = (inr r, d') ->
  let owner :=
    AutoserviceUser.mk (User.uid user) (Autoservice.autoservice_id autoservice)
      [autoservice_manage; autoservice_manage_provided_maintenance] in
  r = autoservice
  ∧ autoservice ∈ autoservices d'
  ∧ owner ∈ autoservice_users d'
  ∧ forall qs,
      AutoserviceUserService.get_autoservice_user_by_uid_and_autoservice_id
        (User.uid user) (Autoservice.autoservice_id autoservice) (serve d' qs)
      = (inr owner, serve d' qs)
      ∧ (forall data, exists a,
           a ∈ autoservices (serve d' qs)
           ∧ AutoserviceService.patch_autoservice
               (Autoservice.autoservice_id autoservice) user data (serve d' qs)
             = (inr (Autoservice.setattrs data a),
                with_autoservices
                  (amend Autoservice.autoservice_id
                     (Autoservice.autoservice_id autoservice)
                     (Autoservice.setattrs data) (autoservices (serve d' qs)))
                  (serve d' qs)))
      ∧ (forall a, a ∈ autoservices (serve d' qs) ->
           Autoservice.autoservice_id a = Autoservice.autoservice_id autoservice ->
           AutoserviceService.validate_autoservice_manage_provided_maintenance_permissions
             a user (serve d' qs) = (inr (), serve d' qs)).
Proof.
  intros Hd Hrun owner.
  apply create_autoservice_inv in Hrun as (-> & Ha & Hu & ->).
  set (d1 := with_autoservices (autoservices d ++ [autoservice]) d) in *.
  set (d2 := with_autoservice_users _ d1).
  assert (consistent d2) as Hd2.
  { eapply consistent_invariant; [by apply evolves_autoservice_user|].
    eapply consistent_invariant; [by apply evolves_autoservice|done]. }
  assert (autoservice ∈ autoservices d2) as Hin.
  { simpl. apply elem_of_app. right. by left. }
  assert (owner ∈ autoservice_users d2) as Hown.
  { simpl. apply elem_of_app. right. by left. }
  split_and!; [done..|]. intros qs.
  assert (consistent (serve d2 qs)) as Hds
    by by apply (invariant_serve _ d2 qs consistent_invariant).
  assert (owner ∈ autoservice_users (serve d2 qs)) as Hown'
    by by apply (invariant_serve _ d2 qs (autoservice_user_stays owner)).
  assert (Autoservice.autoservice_id autoservice
            ∈ Autoservice.autoservice_id <$> autoservices (serve d2 qs)) as Hid.
  { apply (invariant_serve _ d2 qs (autoservice_id_stays _)).
    by apply list_elem_of_fmap_2. }
  apply list_elem_of_fmap in Hid as (a & Hai & Ha').
  split_and!.
  - by apply (get_autoservice_user_found (serve d2 qs) owner).
  - intros data. exists a. split; [done|]. rewrite Hai.
    by rewrite (patch_autoservice_with_row (serve d2 qs) user a owner data).
  - intros a0 Ha0 Hi0.
    apply (validate_permissions_granted (serve d2 qs) user a0 owner); try done.
    by_compute.
Qed.

Lemma create_autoservice_grants_owner_witness :
  AutoserviceUser.mk 3 31 [autoservice_manage; autoservice_manage_provided_maintenance]
    ∈ autoservice_users
        (AutoserviceService.create_autoservice
           (Autoservice.mk 31 (codes "Carol's") None (codes "7701234567")
              (codes "1027700132195") (codes "Kazan") (codes "Bauman 1") None None)
           carol demo).2.
Proof.
  set (a := Autoservice.mk 31 (codes "Carol's") None (codes "7701234567")
              (codes "1027700132195") (codes "Kazan") (codes "Bauman 1") None None).
  assert (consistent demo) as Hd by (split; by_compute).
  assert (AutoserviceService.create_autoservice a carol demo
          = (inr a, (AutoserviceService.create_autoservice a carol demo).2)) as Hrun
    by (vm_compute; reflexivity).
  destruct (create_autoservice_grants_owner demo a carol a _ Hd Hrun)
    as (_ & _ & Hown & _).
  exact Hown.
Defined.

(** ** More on the validators *)

(** X1: [validate_itn] returns its argument when it is ten or twelve decimal
    digits, followed or not by one line feed, and raises the ITN
    [ClientException] on every other string. *)
Theorem validate_itn_outcome (U : unicode) (value : str) :
  ((exists ds tail, value = ds ++ tail ∧ (digits U 10 ds ∨ digits U 12 ds)
      ∧ (tail = [] ∨ tail = [LF])) ->
   Autoservice.validate_itn U value = inr value)
  ∧ (¬ (exists ds tail, value = ds ++ tail ∧ (digits U 10 ds ∨ digits U 12 ds)
          ∧ (tail = [] ∨ tail = [LF])) ->
     Autoservice.validate_itn U value = inl (ClientException ItnFormat)).
Proof.
  rewrite <-re_match_itn_pattern. unfold Autoservice.validate_itn.
  destruct (re_match U Autoservice.itn_pattern value); simpl; split; done.
Qed.

Lemma validate_itn_outcome_witness :
  Autoservice.validate_itn ascii_only (codes "770123456789")
  = inr (codes "770123456789").
Proof.
  apply (validate_itn_outcome ascii_only (codes "770123456789")).
  exists (codes "770123456789"), []. split_and!; [reflexivity| |by left].
  right. unfold digits. by_compute.
Defined.

(** X2: [validate_psrn] returns its argument when it is thirteen decimal
    digits, followed or not by one line feed, and raises the PSRN
    [ClientException] on every other string. *)
Theorem validate_psrn_outcome (U : unicode) (value : str) :
  ((exists ds tail, value = ds ++ tail ∧ digits U 13 ds ∧ (tail = [] ∨ tail = [LF])) ->
   Autoservice.validate_psrn U value = inr value)
  ∧ (¬ (exists ds tail, value = ds ++ tail ∧ digits U 13 ds
          ∧ (tail = [] ∨ tail = [LF])) ->
     Autoservice.validate_psrn U value = inl (ClientException PsrnFormat)).
Proof.
  rewrite <-re_match_psrn_pattern. unfold Autoservice.validate_psrn.
  destruct (re_match U Autoservice.psrn_pattern value); simpl; split; done.
Qed.

Lemma validate_psrn_outcome_witness :
  Autoservice.validate_psrn ascii_only (codes "1027700132195")
  = inr (codes "1027700132195").
Proof.
  apply (validate_psrn_outcome ascii_only (codes "1027700132195")).
  exists (codes "1027700132195"), []. split_and!; [reflexivity| |by left].
  unfold digits. by_compute.
Defined.

(** A VIN over the alphabet is its own normal form. *)
Lemma upper_sub_spaces_vin U (s : str) :
  Forall vin_symbol s -> upper U (sub_spaces U s) = s.
Proof.
  induction 1 as [|c s Hc Hs IH]; [done|].
  assert (is_ascii c = true ∧ ascii_space c = false ∧ ascii_upper c = c)
    as (Ha & Hsp & Hup).
  { destruct Hc as ([[? ?]|[? ?]] & ? & ? & ?);
      unfold is_ascii, ascii_space, ascii_upper, between;
      repeat match goal with
        | |- context [?a <? ?b] => destruct (N.ltb_spec a b); try lia
        | |- context [?a <=? ?b] => destruct (N.leb_spec a b); try lia
        | |- context [?a =? ?b] => destruct (N.eqb_spec a b); try lia
        end; simpl; auto. }
  unfold sub_spaces. rewrite filter_cons_True
    by (unfold is_space; by rewrite Ha).
  unfold upper in *. rewrite bind_cons. unfold upper_char at 1. rewrite Ha, Hup.
  simpl. f_equal. exact IH.
Qed.

(** X3: [validate_vin] is idempotent: the VIN that it returns is over the VIN
    alphabet, passes the validator again and comes back as it is. *)
Theorem validate_vin_idempotent (U : unicode) (vin n : str) :
  (forall c, is_ascii c = false -> LF ∉ uc_upper U c) ->
  Vehicle.validate_vin U (Some vin) = inr (Some n) ->
  is_vin n ∧ Vehicle.validate_vin U (Some n) = inr (Some n).
Proof.
  intros HU. unfold Vehicle.validate_vin.
  destruct (re_match U Vehicle.vin_pattern (upper U (sub_spaces U vin))) eqn:Hm;
    simpl; [|done].
  intros [= <-].
  apply re_match_vin_pattern in Hm as (pre & post & Heq & Hpre & [->| ->]).
  - rewrite app_nil_r in Heq. rewrite Heq. split; [done|].
    rewrite (upper_sub_spaces_vin U pre) by apply Hpre.
    assert (re_match U Vehicle.vin_pattern pre = true) as ->; [|done].
    apply re_match_vin_pattern. exists pre, []. by rewrite app_nil_r; auto.
  - exfalso. apply (upper_sub_spaces_no_line_feed U vin HU).
    rewrite Heq, elem_of_app, list_elem_of_singleton. auto.
Qed.

Lemma validate_vin_idempotent_witness :
  is_vin (codes "WVWZZZ1JZXW000001")
  ∧ Vehicle.validate_vin ascii_only (Some (codes "WVWZZZ1JZXW000001"))
    = inr (Some (codes "WVWZZZ1JZXW000001")).
Proof.
  apply (validate_vin_idempotent ascii_only (codes "wvw zzz1jzxw000001")).
  - intros c Hc Hlf%list_elem_of_singleton. subst c. discriminate Hc.
  - reflexivity.
Defined.

(** ** More on profiles *)

(** X4: The profile that [create_customer] ([create_mechanic]) returns is the
    user's whatever [uid] the request carried: it is either the stored
    profile of the user, with the store untouched, or the request with its
    [uid] replaced by the user's, appended to the table. *)
Theorem create_profile_is_the_users (d : DB) (user : User.t) :
  (forall customer r d',
     CustomerService.create_customer customer user d = (inr r, d') ->
     Customer.uid r = User.uid user ∧ r ∈ customers d'
     ∧ ((r ∈ customers d ∧ d' = d)
        ∨ (r = Customer.with_uid (User.uid user) customer
           ∧ (forall c, c ∈ customers d -> Customer.uid c ≠ User.uid user)
           ∧ d' = with_customers (customers d ++ [r]) d)))
  ∧ (forall mechanic r d',
     MechanicService.create_mechanic mechanic user d = (inr r, d') ->
     Mechanic.uid r = User.uid user ∧ r ∈ mechanics d'
     ∧ ((r ∈ mechanics d ∧ d' = d)
        ∨ (r = Mechanic.with_uid (User.uid user) mechanic
           ∧ (forall m, m ∈ mechanics d -> Mechanic.uid m ≠ User.uid user)
           ∧ d' = with_mechanics (mechanics d ++ [r]) d))).
Proof.
  split.
  - intros customer r d'. unfold CustomerService.create_customer. intros H.
    read H saved Hs. apply get_one_or_none_inv in Hs as [_ Hs].
    destruct saved as [saved|].
    + apply ret_inv in H as [-> ->]. destruct Hs as [Hin Hu]. auto.
    + apply create_inv in H as (-> & _ & ->). simpl.
      split_and!; [done|apply elem_of_app; right; by left|right; auto].
  - intros mechanic r d'. unfold MechanicService.create_mechanic. intros H.
    read H saved Hs. apply get_one_or_none_inv in Hs as [_ Hs].
    destruct saved as [saved|].
    + apply ret_inv in H as [-> ->]. destruct Hs as [Hin Hu]. auto.
    + apply create_inv in H as (-> & _ & ->). simpl.
      split_and!; [done|apply elem_of_app; right; by left|right; auto].
Qed.

Lemma create_profile_is_the_users_witness :
  Customer.uid (Customer.mk 12 (codes "Bob") None 1) ≠ User.uid bob
  ∧ Customer.mk 12 (codes "Bob") None 2
      ∈ customers (CustomerService.create_customer
                     (Customer.mk 12 (codes "Bob") None 1) bob demo).2.
Proof.
  split; [by_compute|].
  assert (CustomerService.create_customer (Customer.mk 12 (codes "Bob") None 1) bob demo
          = (inr (Customer.mk 12 (codes "Bob") None 2),
             (CustomerService.create_customer
                (Customer.mk 12 (codes "Bob") None 1) bob demo).2)) as Hrun
    by (vm_compute; reflexivity).
  destruct (create_profile_is_the_users demo bob) as [Hc _].
  by destruct (Hc _ _ _ Hrun) as (_ & Hin & _).
Defined.

Lemma create_customer_consistent customer user d r d' :
  consistent d -> CustomerService.create_customer customer user d = (inr r, d') ->
  consistent d'.
Proof.
  intros Hd Hrun. eapply consistent_invariant; [|done].
  by eapply create_customer_evolves.
Qed.

Lemma create_mechanic_consistent mechanic user d r d' :
  consistent d -> MechanicService.create_mechanic mechanic user d = (inr r, d') ->
  consistent d'.
Proof.
  intros Hd Hrun. eapply consistent_invariant; [|done].
  by eapply create_mechanic_evolves.
Qed.

Lemma create_customer_stored customer user d r d' :
  CustomerService.create_customer customer user d = (inr r, d') ->
  Customer.uid r = User.uid user ∧ r ∈ customers d'.
Proof.
  unfold CustomerService.create_customer. intros H.
  read H saved Hs. apply get_one_or_none_inv in Hs as [_ Hs].
  destruct saved as [saved|].
  - apply ret_inv in H as [-> ->]. by destruct Hs.
  - apply create_inv in H as (-> & _ & ->). simpl.
    split; [done|apply elem_of_app; right; by left].
Qed.

Lemma create_mechanic_stored mechanic user d r d' :
  MechanicService.create_mechanic mechanic user d = (inr r, d') ->
  Mechanic.uid r = User.uid user ∧ r ∈ mechanics d'.
Proof.
  unfold MechanicService.create_mechanic. intros H.
  read H saved Hs. apply get_one_or_none_inv in Hs as [_ Hs].
  destruct saved as [saved|].
  - apply ret_inv in H as [-> ->]. by destruct Hs.
  - apply create_inv in H as (-> & _ & ->). simpl.
    split; [done|apply elem_of_app; right; by left].
Qed.

(** X5: After a successful [create_customer] ([create_mechanic]) the profile
    is read back by its identifier, and the user may patch it. *)
Theorem create_profile_then_read_and_patch (d : DB) (user : User.t) :
  consistent d ->
  (forall customer r d',
     CustomerService.create_customer customer user d = (inr r, d') ->
     CustomerService.get_customer_by_customer_id (Customer.customer_id r) d'
     = (inr r, d')
     ∧ forall data,
         (CustomerService.patch_customer (Customer.customer_id r) data user d').1
         = inr (Customer.setattrs data r))
  ∧ (forall mechanic r d',
     MechanicService.create_mechanic mechanic user d = (inr r, d') ->
     MechanicService.get_mechanic_by_mechanic_id (Mechanic.mechanic_id r) d'
     = (inr r, d')
     ∧ forall data,
         (MechanicService.patch_mechanic (Mechanic.mechanic_id r) data user d').1
         = inr (Mechanic.setattrs data r)).
Proof.
  intros Hd. split.
  - intros customer r d' Hrun.
    pose proof (create_customer_consistent _ _ _ _ _ Hd Hrun) as Hd'.
    apply create_customer_stored in Hrun as [Hu Hin].
    split; [by apply get_customer_found|].
    intros data. by rewrite patch_customer_owner.
  - intros mechanic r d' Hrun.
    pose proof (create_mechanic_consistent _ _ _ _ _ Hd Hrun) as Hd'.
    apply create_mechanic_stored in Hrun as [Hu Hin].
    split; [by apply get_mechanic_found|].
    intros data. by rewrite patch_mechanic_owner.
Qed.

Lemma create_profile_then_read_and_patch_witness :
  (CustomerService.patch_customer 12 (Customer.mk_partial None (Some (codes "Kazan"))) bob
     (CustomerService.create_customer (Customer.mk 12 (codes "Bob") None 0) bob demo).2).1
  = inr (Customer.mk 12 (codes "Bob") (Some (codes "Kazan")) 2).
Proof.
  assert (consistent demo) as Hd by (split; by_compute).
  assert (CustomerService.create_customer (Customer.mk 12 (codes "Bob") None 0) bob demo
          = (inr (Customer.mk 12 (codes "Bob") None 2),
             (CustomerService.create_customer
                (Customer.mk 12 (codes "Bob") None 0) bob demo).2)) as Hrun
    by (vm_compute; reflexivity).
  destruct (create_profile_then_read_and_patch demo bob Hd) as [Hc _].
  destruct (Hc _ _ _ Hrun) as [_ Hpatch].
  apply (Hpatch (Customer.mk_partial None (Some (codes "Kazan")))).
Defined.

(** X6: A patch of an identifier that no row has raises the NotFound error of
    the entity, which the controller answers with [NotFoundException]; the
    store is untouched. *)
Theorem patch_of_unknown_identifier (d : DB) (user : User.t) (i : UUID) :
  (forall data,
     (forall c, c ∈ customers d -> Customer.customer_id c ≠ i) ->
     CustomerService.patch_customer i data user d = (inl CustomerNotFoundError, d)
     ∧ CustomerController.patch_customer user i data d = (inl NotFoundException, d))
  ∧ (forall data,
     (forall m, m ∈ mechanics d -> Mechanic.mechanic_id m ≠ i) ->
     MechanicService.patch_mechanic i data user d = (inl MechanicNotFoundError, d)
     ∧ MechanicController.patch_mechanic user i data d = (inl NotFoundException, d))
  ∧ (forall data,
     (forall a, a ∈ autoservices d -> Autoservice.autoservice_id a ≠ i) ->
     AutoserviceService.patch_autoservice i user data d
     = (inl AutoserviceNotFoundError, d)
     ∧ AutoserviceController.patch_autoservice user i data d
       = (inl NotFoundException, d)).
Proof.
  split_and!; intros data Hno.
  - assert (CustomerService.patch_customer i data user d
            = (inl CustomerNotFoundError, d)) as Hrun.
    { unfold CustomerService.patch_customer. apply bind_fail.
      by apply get_customer_missing. }
    split; [done|]. unfold CustomerController.patch_customer, except.
    by rewrite Hrun.
  - assert (MechanicService.patch_mechanic i data user d
            = (inl MechanicNotFoundError, d)) as Hrun.
    { unfold MechanicService.patch_mechanic. apply bind_fail.
      by apply get_mechanic_missing. }
    split; [done|]. unfold MechanicController.patch_mechanic, except.
    by rewrite Hrun.
  - assert (AutoserviceService.patch_autoservice i user data d
            = (inl AutoserviceNotFoundError, d)) as Hrun.
    { unfold AutoserviceService.patch_autoservice. apply bind_fail.
      by apply get_autoservice_missing. }
    split; [done|]. unfold AutoserviceController.patch_autoservice, except.
    by rewrite Hrun.
Qed.

Lemma patch_of_unknown_identifier_witness :
  CustomerController.patch_customer alice 0
    (Customer.mk_partial (Some (codes "Patch test")) None) demo
  = (inl NotFoundException, demo).
Proof.
  destruct (patch_of_unknown_identifier demo alice 0) as (Hc & _).
  apply Hc. apply Forall_forall. by_compute.
Defined.

(** ** What every sequence of requests keeps *)



Lemma null_or_impl {K} (P Q : K -> Prop) (o : option K) :
  (forall k, P k -> Q k) -> null_or P o -> null_or Q o.
Proof. intros HPQ. destruct o; simpl; auto. Qed.






(** A column of the store that every step extends at its end. *)
Lemma grows_invariant {A} (f : DB -> list A) (l : list A) :
  (forall d d', evolves d d' -> f d `prefix_of` f d') ->
  invariant (fun d => l `prefix_of` f d).
Proof. intros Hf d d' Hev Hl. etrans; [done|by apply Hf]. Qed.

Lemma serve_grows {A} (f : DB -> list A) d qs :
  (forall d d', evolves d d' -> f d `prefix_of` f d') ->
  f d `prefix_of` f (serve d qs).
Proof.
  intros Hf. by apply (invariant_serve _ d qs (grows_invariant f (f d) Hf)).
Qed.

Ltac grows_tac :=
  intros ? ? []; simpl;
  rewrite ?fmap_app, ?fmap_amend by done;
  first [done|by apply prefix_app_r].

(** X8: No request deletes or rewrites a vehicle, a provided maintenance, an
    association or an [AutoserviceUser] row, and none changes the key or
    the user of a profile, nor the key, [itn], [psrn], [address] or [lon]
    of an autoservice: after any sequence of requests the tables (the
    columns) start with what they were. *)
Theorem stored_rows_stay (d : DB) (qs : list request) :
  vehicles d `prefix_of` vehicles (serve d qs)
  ∧ provided_maintenance d `prefix_of` provided_maintenance (serve d qs)
  ∧ provided_maintenance_country_association d
      `prefix_of` provided_maintenance_country_association (serve d qs)
  ∧ provided_maintenance_vehicle_brand_association d
      `prefix_of` provided_maintenance_vehicle_brand_association (serve d qs)
  ∧ autoservice_users d `prefix_of` autoservice_users (serve d qs)
  ∧ (customer_identity <$> customers d)
      `prefix_of` (customer_identity <$> customers (serve d qs))
  ∧ (mechanic_identity <$> mechanics d)
      `prefix_of` (mechanic_identity <$> mechanics (serve d qs))
  ∧ (autoservice_registration <$> autoservices d)
      `prefix_of` (autoservice_registration <$> autoservices (serve d qs)).
Proof.
  split_and!.
  - apply (serve_grows vehicles). grows_tac.
  - apply (serve_grows provided_maintenance). grows_tac.
  - apply (serve_grows provided_maintenance_country_association). grows_tac.
  - apply (serve_grows provided_maintenance_vehicle_brand_association). grows_tac.
  - apply (serve_grows autoservice_users). grows_tac.
  - apply (serve_grows (fun d => customer_identity <$> customers d)). grows_tac.
  - apply (serve_grows (fun d => mechanic_identity <$> mechanics d)). grows_tac.
  - apply (serve_grows (fun d => autoservice_registration <$> autoservices d)).
    grows_tac.
Qed.

Lemma constant_invariant {A} (f : DB -> A) (a : A) :
  (forall d d', evolves d d' -> f d' = f d) -> invariant (fun d => f d = a).
Proof. intros Hf d d' Hev <-. by apply Hf. Qed.

(** X9: No request writes to the countries, the vehicle brands, models and
    generations, or the maintenance types. *)
Theorem reference_tables_never_change (d : DB) (qs : list request) :
  countries (serve d qs) = countries d
  ∧ vehicle_brands (serve d qs) = vehicle_brands d
  ∧ vehicle_models (serve d qs) = vehicle_models d
  ∧ vehicle_generations (serve d qs) = vehicle_generations d
  ∧ provided_maintenance_types (serve d qs) = provided_maintenance_types d.
Proof.
  split_and!.
  - apply (invariant_serve _ d qs (constant_invariant countries _
             ltac:(by intros ? ? []))). done.
  - apply (invariant_serve _ d qs (constant_invariant vehicle_brands _
             ltac:(by intros ? ? []))). done.
  - apply (invariant_serve _ d qs (constant_invariant vehicle_models _
             ltac:(by intros ? ? []))). done.
  - apply (invariant_serve _ d qs (constant_invariant vehicle_generations _
             ltac:(by intros ? ? []))). done.
  - apply (invariant_serve _ d qs (constant_invariant provided_maintenance_types _
             ltac:(by intros ? ? []))). done.
Qed.

(** ** More on partial updates *)

Lemma amend_found {T K} `{!EqDecision K} (key : T -> K) (f : T -> T)
    (l : list T) (r : T) :
  r ∈ l -> f r ∈ amend key (key r) f l.
Proof.
  intros Hr. unfold amend.
  apply (list_elem_of_fmap_2 (fun x => if decide (key x = key r) then f x else x))
    in Hr.
  by rewrite decide_True in Hr.
Qed.

Lemma amend_other {T K} `{!EqDecision K} (key : T -> K) (k : K) (f : T -> T)
    (l : list T) (r : T) :
  r ∈ l -> key r ≠ k -> r ∈ amend key k f l.
Proof.
  intros Hr Hk. unfold amend.
  apply (list_elem_of_fmap_2 (fun x => if decide (key x = k) then f x else x)) in Hr.
  by rewrite decide_False in Hr.
Qed.

Lemma amend_id {T K} `{!EqDecision K} (key : T -> K) (k : K) (f : T -> T)
    (l : list T) :
  (forall r, f r = r) -> amend key k f l = l.
Proof.
  intros Hf. unfold amend. rewrite <-(list_fmap_id l) at 2.
  apply list_fmap_ext. intros i r _. simpl. by case_decide.
Qed.

(** X10: After a successful [patch_customer] ([patch_mechanic]) the patched
    profile is what its identifier reads, and every other identifier reads
    what it read before. *)
Theorem patch_profile_then_read (d : DB) (user : User.t) :
  consistent d ->
  (forall c data, c ∈ customers d -> Customer.uid c = User.uid user ->
     let d' := (CustomerService.patch_customer (Customer.customer_id c) data user d).2 in
     CustomerService.get_customer_by_customer_id (Customer.customer_id c) d'
     = (inr (Customer.setattrs data c), d')
     ∧ forall c', c' ∈ customers d ->
         Customer.customer_id c' ≠ Customer.customer_id c ->
         CustomerService.get_customer_by_customer_id (Customer.customer_id c') d'
         = (inr c', d'))
  ∧ (forall m data, m ∈ mechanics d -> Mechanic.uid m = User.uid user ->
     let d' := (MechanicService.patch_mechanic (Mechanic.mechanic_id m) data user d).2 in
     MechanicService.get_mechanic_by_mechanic_id (Mechanic.mechanic_id m) d'
     = (inr (Mechanic.setattrs data m), d')
     ∧ forall m', m' ∈ mechanics d ->
         Mechanic.mechanic_id m' ≠ Mechanic.mechanic_id m ->
         MechanicService.get_mechanic_by_mechanic_id (Mechanic.mechanic_id m') d'
         = (inr m', d')).
Proof.
  intros Hd. split.
  - intros c data Hc Hu. rewrite patch_customer_owner by done. simpl.
    set (d' := with_customers _ d).
    assert (consistent d') as Hd'.
    { eapply consistent_invariant; [apply evolves_customer_patch|done]. }
    split.
    + apply (get_customer_found d' (Customer.setattrs data c) Hd').
      by apply amend_found.
    + intros c' Hc' Hne. apply (get_customer_found d' c' Hd').
      by apply amend_other.
  - intros m data Hm Hu. rewrite patch_mechanic_owner by done. simpl.
    set (d' := with_mechanics _ d).
    assert (consistent d') as Hd'.
    { eapply consistent_invariant; [apply evolves_mechanic_patch|done]. }
    split.
    + apply (get_mechanic_found d' (Mechanic.setattrs data m) Hd').
      by apply amend_found.
    + intros m' Hm' Hne. apply (get_mechanic_found d' m' Hd').
      by apply amend_other.
Qed.

Lemma patch_profile_then_read_witness :
  CustomerService.get_customer_by_customer_id 10
    (CustomerService.patch_customer 10
       (Customer.mk_partial None (Some (codes "Kazan"))) alice demo).2
  = (inr (Customer.mk 10 (codes "Alice") (Some (codes "Kazan")) 1),
     (CustomerService.patch_customer 10
        (Customer.mk_partial None (Some (codes "Kazan"))) alice demo).2).
Proof.
  assert (consistent demo) as Hd by (split; by_compute).
  destruct (patch_profile_then_read demo alice Hd) as [Hc _].
  destruct (Hc (Customer.mk 10 (codes "Alice") None 1)
              (Customer.mk_partial None (Some (codes "Kazan"))))
    as [Hread _]; [by_compute|reflexivity|].
  exact Hread.
Defined.

(** X11: A successful [patch_autoservice] rewrites [name], [description],
    [city] and [lat] where the request gives them (the exclusion set of the
    service names [latmechanics], so [lat] is not excluded), and leaves the
    key, [itn], [psrn], [address] and [lon] as stored; the patched row is
    what its identifier reads afterwards. *)
Theorem patch_autoservice_columns
    (d : DB) (user : User.t) (i : UUID) (data : Autoservice.partial)
    (r : Autoservice.t) (d' : DB) :
  consistent d ->
  AutoserviceService.patch_autoservice i user data d = (inr r, d') ->
  exists a,
    a ∈ autoservices d ∧ Autoservice.autoservice_id a = i
    ∧ holds d user i autoservice_manage
    ∧ autoservice_registration r = autoservice_registration a
    ∧ Autoservice.name r = default (Autoservice.name a) (Autoservice.new_name data)
    ∧ Autoservice.city r = default (Autoservice.city a) (Autoservice.new_city data)
    ∧ Autoservice.description r
      = from_option Some (Autoservice.description a) (Autoservice.new_description data)
    ∧ Autoservice.lat r
      = from_option Some (Autoservice.lat a) (Autoservice.new_lat data)
    ∧ AutoserviceService.get_autoservice_by_autoservice_id i d' = (inr r, d').
Proof.
  intros Hd Hrun.
  assert (consistent d') as Hd'.
  { eapply consistent_invariant; [by eapply patch_autoservice_evolves|done]. }
  unfold AutoserviceService.patch_autoservice in Hrun.
  read Hrun a Ha. apply get_autoservice_inv in Ha as (_ & Ha & Hi).
  read Hrun u Hu. apply get_autoservice_user_inv in Hu as (_ & Hu & Huu & Hua).
  case_decide as Hp; [done|].
  unfold BaseAutoserviceService.update_autoservice in Hrun. subst i.
  rewrite (update_found AutoserviceRepository) in Hrun; [|apply Hd|done].
  injection Hrun as <- <-.
  exists a. split_and!; try done.
  - exists u. by split_and!.
  - apply (get_autoservice_found _ (Autoservice.setattrs data a)); [done|].
    by apply (amend_found Autoservice.autoservice_id).
Qed.

Lemma patch_autoservice_columns_witness :
  exists a,
    a ∈ autoservices demo
    ∧ autoservice_registration
        (Autoservice.setattrs
           (Autoservice.mk_partial None None (Some (codes "Kazan")) (Some 55%Z)) garage)
      = autoservice_registration a
    ∧ Autoservice.lat
        (Autoservice.setattrs
           (Autoservice.mk_partial None None (Some (codes "Kazan")) (Some 55%Z)) garage)
      = from_option Some (Autoservice.lat a) (Some 55%Z).
Proof.
  assert (consistent demo) as Hd by (split; by_compute).
  set (data := Autoservice.mk_partial None None (Some (codes "Kazan")) (Some 55%Z)).
  assert (AutoserviceService.patch_autoservice 30 alice data demo
          = (inr (Autoservice.setattrs data garage),
             (AutoserviceService.patch_autoservice 30 alice data demo).2)) as Hrun
    by (vm_compute; reflexivity).
  destruct (patch_autoservice_columns demo alice 30 data _ _ Hd Hrun)
    as (a & Ha & _ & _ & Hreg & _ & _ & _ & Hlat & _).
  by exists a.
Defined.

Lemma with_customers_same d : with_customers (customers d) d = d.
Proof. by destruct d. Qed.

Lemma with_mechanics_same d : with_mechanics (mechanics d) d = d.
Proof. by destruct d. Qed.

Lemma with_autoservices_same d : with_autoservices (autoservices d) d = d.
Proof. by destruct d. Qed.

(** X12: A patch that gives no attribute changes nothing: it returns the stored
    row and leaves the store as it was.  It is still refused to a user who
    may not patch the row. *)
Theorem empty_patch_changes_nothing (d : DB) (user : User.t) :
  consistent d ->
  (forall c, c ∈ customers d -> Customer.uid c = User.uid user ->
     CustomerService.patch_customer (Customer.customer_id c)
       (Customer.mk_partial None None) user d = (inr c, d))
  ∧ (forall m, m ∈ mechanics d -> Mechanic.uid m = User.uid user ->
     MechanicService.patch_mechanic (Mechanic.mechanic_id m)
       (Mechanic.mk_partial None None None None None None None None) user d
     = (inr m, d))
  ∧ (forall a, a ∈ autoservices d ->
     holds d user (Autoservice.autoservice_id a) autoservice_manage ->
     AutoserviceService.patch_autoservice (Autoservice.autoservice_id a) user
       (Autoservice.mk_partial None None None None) d = (inr a, d)).
Proof.
  intros Hd. split_and!.
  - intros c Hc Hu. rewrite patch_customer_owner by done.
    rewrite amend_id by (by intros []). rewrite with_customers_same.
    by destruct c.
  - intros m Hm Hu. rewrite patch_mechanic_owner by done.
    rewrite amend_id by (by intros []). rewrite with_mechanics_same.
    by destruct m.
  - intros a Ha (r & Hr & Hu & Hi & Hp).
    rewrite (patch_autoservice_with_row d user a r) by done.
    rewrite decide_True by done.
    rewrite amend_id by (by intros []). rewrite with_autoservices_same.
    by destruct a.
Qed.

Lemma empty_patch_changes_nothing_witness :
  AutoserviceService.patch_autoservice 30 alice
    (Autoservice.mk_partial None None None None) demo = (inr garage, demo).
Proof.
  assert (consistent demo) as Hd by (split; by_compute).
  destruct (empty_patch_changes_nothing demo alice Hd) as (_ & _ & Ha).
  apply (Ha garage); [by_compute|].
  exists (AutoserviceUser.mk 1 30 all_permissions).
  split_and!; [by_compute|reflexivity|reflexivity|by_compute].
Defined.

(** ** More on creating an autoservice *)

(** X13: In a store whose foreign keys hold, [create_autoservice] succeeds
    exactly when the table admits the autoservice, that is when no stored
    autoservice has the identifier and [itn] and [psrn] fit their columns
    ([String(12)] and [String(13)]; the validators let both exceed them by
    a final line feed): the owner row is then always admitted, so the two
    writes happen together.  Otherwise the call raises [IntegrityError]
    before any write. *)
Theorem create_autoservice_all_or_nothing
    (d : DB) (autoservice : Autoservice.t) (user : User.t) :
  referential d ->
  (Autoservice.autoservice_id autoservice
     ∉ Autoservice.autoservice_id <$> autoservices d ->
   varchar 12 (Autoservice.itn autoservice) ->
   varchar 13 (Autoservice.psrn autoservice) ->
   AutoserviceService.create_autoservice autoservice user d
   = (inr autoservice, with_owned_autoservice autoservice user d))
  ∧ (¬ ((Autoservice.autoservice_id autoservice
           ∉ Autoservice.autoservice_id <$> autoservices d)
        ∧ varchar 12 (Autoservice.itn autoservice)
        ∧ varchar 13 (Autoservice.psrn autoservice)) ->
     AutoserviceService.create_autoservice autoservice user d
     = (inl IntegrityError, d)).
Proof.
  intros Hr. split.
  - intros Hid Hitn Hpsrn.
    unfold AutoserviceService.create_autoservice,
      BaseAutoserviceService.create_autoservice,
      AutoserviceUserService.create_autoservice_owner.
    erewrite bind_run; [|unfold create; by rewrite decide_True].
    erewrite bind_run; [done|]. unfold create. rewrite decide_True; [done|].
    split.
    + unfold fresh. simpl. intros Hin.
      apply list_elem_of_fmap in Hin as (u & Hk & Hu).
      pose proof (autoservice_users_fk d Hr) as Hfk.
      rewrite Forall_forall in Hfk. apply Hid.
      injection Hk as _ ->. by apply Hfk.
    + unfold refers. simpl. rewrite fmap_app. apply elem_of_app. right.
      by left.
  - intros Hnot.
    unfold AutoserviceService.create_autoservice,
      BaseAutoserviceService.create_autoservice.
    apply bind_fail. unfold create. by rewrite decide_False.
Qed.

Lemma create_autoservice_all_or_nothing_witness :
  AutoserviceService.create_autoservice garage carol demo = (inl IntegrityError, demo)
  ∧ Autoservice.validate_psrn ascii_only (codes "1027700132195" ++ [LF])
    = inr (codes "1027700132195" ++ [LF])
  ∧ AutoserviceService.create_autoservice
      (Autoservice.mk 31 (codes "Carol's") None (codes "7701234567")
         (codes "1027700132195" ++ [LF]) (codes "Kazan") (codes "Bauman 1") None None)
      carol demo
    = (inl IntegrityError, demo).
Proof.
  assert (referential demo) as Hr by (split; unfold refers; by_compute).
  split_and!.
  - destruct (create_autoservice_all_or_nothing demo garage carol Hr) as [_ Hrefused].
    apply Hrefused. intros [Hid _]. revert Hid. by_compute.
  - reflexivity.
  - destruct (create_autoservice_all_or_nothing demo
                (Autoservice.mk 31 (codes "Carol's") None (codes "7701234567")
                   (codes "1027700132195" ++ [LF]) (codes "Kazan")
                   (codes "Bauman 1") None None) carol Hr) as [_ Hrefused].
    apply Hrefused. intros (_ & _ & Hpsrn). revert Hpsrn. by_compute.
Defined.

(** X14: Whatever the store, a [POST] of an autoservice leaves it as it was or
    adds the autoservice, under a new key, together with its owner row: the
    session is rolled back when the second write is refused. *)
Theorem post_autoservice_is_atomic (d : DB) (user : User.t) (data : Autoservice.t) :
  handle d (PostAutoservice user data) = d
  ∨ ((Autoservice.autoservice_id data
        ∉ Autoservice.autoservice_id <$> autoservices d)
     ∧ handle d (PostAutoservice user data) = with_owned_autoservice data user d).
Proof.
  simpl. unfold AutoserviceController.create_autoservice, except, autocommit.
  destruct (AutoserviceService.create_autoservice data user d) as [[e|r] d'] eqn:Hrun;
    [by left|].
  right. by apply create_autoservice_inv in Hrun as (_ & [? _] & _ & ->).
Qed.

(** ** More on creating a vehicle *)

Lemma get_vehicle_found d v :
  consistent d -> v ∈ vehicles d ->
  VehicleService.get_vehicle_by_vehicle_id (Vehicle.vehicle_id v) d = (inr v, d).
Proof. getter_found BaseVehicleRepository Vehicle.vehicle_id. Qed.

Lemma get_vehicle_missing d i :
  (forall v, v ∈ vehicles d -> Vehicle.vehicle_id v ≠ i) ->
  VehicleService.get_vehicle_by_vehicle_id i d = (inl VehicleNotFoundError, d).
Proof. getter_missing BaseVehicleRepository. Qed.

(** What the table asks of a vehicle beyond its foreign keys. *)
Lemma vehicle_admits_linked d v c :
  linked d v -> c ∈ customers d -> Customer.customer_id c = Vehicle.customer_id v ->
  vehicle_admits d v
  <-> fresh Vehicle.vehicle_id (vehicles d) v
      ∧ null_or (fun vin => Some vin ∉ Vehicle.vin <$> vehicles d) (Vehicle.vin v).
Proof.
  intros (b & m & g & [Hb Hbi] & [Hm Hmi] & [Hg Hgi] & _) Hc Hci.
  unfold vehicle_admits, refers. split; [tauto|]. intros [Hf Hv].
  split_and!; try done.
  - rewrite <-Hbi. by apply list_elem_of_fmap_2.
  - rewrite <-Hmi. by apply list_elem_of_fmap_2.
  - rewrite <-Hgi. by apply list_elem_of_fmap_2.
  - rewrite <-Hci. by apply list_elem_of_fmap_2.
Qed.

(** The five ways a run of [create_vehicle] ends. *)
Lemma create_vehicle_outcome d v :
  consistent d ->
  (¬ vehicle_ids_typed v
   ∧ VehicleService.create_vehicle v d = (inl IntegrityError, d))
  ∨ (¬ linked d v
     ∧ exists e,
         e ∈ [VehicleBrandNotFoundError; VehicleModelNotFoundError;
              VehicleGenerationNotFoundError;
              VehicleModelDoesntMatchWithVehicleBrandError;
              VehicleGenerationDoesntMatchWithVehicleModelError]
         ∧ VehicleService.create_vehicle v d = (inl e, d))
  ∨ (linked d v
     ∧ (forall c, c ∈ customers d -> Customer.customer_id c ≠ Vehicle.customer_id v)
     ∧ VehicleService.create_vehicle v d = (inl CustomerNotFoundError, d))
  ∨ (linked d v
     ∧ (exists c, c ∈ customers d ∧ Customer.customer_id c = Vehicle.customer_id v)
     ∧ ¬ vehicle_admits d v
     ∧ VehicleService.create_vehicle v d = (inl IntegrityError, d))
  ∨ (linked d v ∧ vehicle_admits d v
     ∧ exists b m g c,
         (b ∈ vehicle_brands d
          ∧ VehicleBrand.vehicle_brand_id b = Vehicle.vehicle_brand_id v)
         ∧ (m ∈ vehicle_models d
            ∧ VehicleModel.vehicle_model_id m = Vehicle.vehicle_model_id v)
         ∧ (g ∈ vehicle_generations d
            ∧ VehicleGeneration.vehicle_generation_id g
              = Vehicle.vehicle_generation_id v)
         ∧ (c ∈ customers d ∧ Customer.customer_id c = Vehicle.customer_id v)
         ∧ VehicleService.create_vehicle v d
           = (inr (mkLoadedVehicle v b m g c),
              with_vehicles (vehicles d ++ [v]) d)).
Proof.
  intros Hd.
  destruct (run_cases
              (CommonVehicleService.validate_vehicle_params
                 (Vehicle.vehicle_brand_id v) (Vehicle.vehicle_model_id v)
                 (Vehicle.vehicle_generation_id v)) d)
    as [([[b m] g] & d1 & Hp)|(e & d1 & Hp)].
  - assert (d1 = d) as ->.
    { pose proof (validate_vehicle_params_readonly
                    (Vehicle.vehicle_brand_id v) (Vehicle.vehicle_model_id v)
                    (Vehicle.vehicle_generation_id v) d) as Hro.
      by rewrite Hp in Hro. }
    pose proof (validate_vehicle_params_inv _ _ _ _ _ _ _ _ Hp)
      as ([Hb Hbi] & [Hm Hmi] & [Hg Hgi] & Hmb & Hgm).
    assert (linked d v) as Hl by (exists b, m, g; by split_and!).
    do 2 right. unfold VehicleService.create_vehicle. erewrite bind_run; [|exact Hp].
    destruct (find_row Customer.customer_id (Vehicle.customer_id v) (customers d))
      as [(c & Hc & Hci)|Hno].
    + right. erewrite bind_run; [|rewrite <-Hci; by apply get_customer_found].
      unfold BaseVehicleService.create_vehicle.
      destruct (decide (vehicle_admits d v)) as [Hadm|Hadm].
      * right. split_and!; try done. exists b, m, g, c. split_and!; try done.
        erewrite bind_run; [done|]. unfold create. by rewrite decide_True.
      * left. split_and!; [done|by eauto|done|].
        apply bind_fail. unfold create. by rewrite decide_False.
    + left. split_and!; try done. apply bind_fail. by apply get_customer_missing.
  - assert (¬ linked d v) as Hnot.
    { intros (b & m & g & [Hb Hbi] & [Hm Hmi] & [Hg Hgi] & Hmb & Hgm).
      rewrite <-Hbi, <-Hmi, <-Hgi in Hp.
      rewrite validate_vehicle_params_linked in Hp; [done..|congruence|congruence]. }
    destruct (create_vehicle_broken d v Hd Hnot)
      as [[Hk Hrun]|[[_ Hrun]|[[Hk Hrun]|[[_ Hrun]|[[_ Hrun]|[[Hk Hrun]|[[_ Hrun]
          |[_ Hrun]]]]]]]];
      try (left; split; [unfold vehicle_ids_typed; tauto|exact Hrun]);
      right; left; (split; [done|]); eexists; (split; [|exact Hrun]); by_compute.
Qed.

(** X15: Once the brand, the model and the generation are linked,
    [create_vehicle] depends on the customer and on the table only: it
    raises [CustomerNotFoundError] when no customer has the identifier,
    [IntegrityError] when the customer exists and the vehicle's key or VIN
    is taken, and otherwise stores the vehicle and returns it with the
    brand, model, generation and customer it names. *)
Theorem create_vehicle_past_the_chain (d : DB) (v : Vehicle.t) :
  consistent d -> linked d v ->
  ((forall c, c ∈ customers d -> Customer.customer_id c ≠ Vehicle.customer_id v) ->
   VehicleService.create_vehicle v d = (inl CustomerNotFoundError, d))
  ∧ (forall c, c ∈ customers d -> Customer.customer_id c = Vehicle.customer_id v ->
     (¬ (fresh Vehicle.vehicle_id (vehicles d) v
         ∧ null_or (fun vin => Some vin ∉ Vehicle.vin <$> vehicles d) (Vehicle.vin v)) ->
      VehicleService.create_vehicle v d = (inl IntegrityError, d))
     ∧ (fresh Vehicle.vehicle_id (vehicles d) v ->
        null_or (fun vin => Some vin ∉ Vehicle.vin <$> vehicles d) (Vehicle.vin v) ->
        exists b m g,
          (b ∈ vehicle_brands d
           ∧ VehicleBrand.vehicle_brand_id b = Vehicle.vehicle_brand_id v)
          ∧ (m ∈ vehicle_models d
             ∧ VehicleModel.vehicle_model_id m = Vehicle.vehicle_model_id v)
          ∧ (g ∈ vehicle_generations d
             ∧ VehicleGeneration.vehicle_generation_id g
               = Vehicle.vehicle_generation_id v)
          ∧ VehicleService.create_vehicle v d
            = (inr (mkLoadedVehicle v b m g c),
               with_vehicles (vehicles d ++ [v]) d))).
Proof.
  intros Hd Hl.
  destruct (create_vehicle_outcome d v Hd)
    as [[Hnot _]|[[Hnot _]|[(_ & Hno & Hrun)|[(_ & (c0 & Hc0 & Hci0) & Hadm & Hrun)
        |(_ & Hadm & b & m & g & c0 & Hb & Hm & Hg & [Hc0 Hci0] & Hrun)]]]];
    [by destruct Hnot; apply (linked_typed d)|done|..].
  - split; [done|]. intros c Hc Hci. by destruct (Hno c Hc).
  - split; [intros Hno; by destruct (Hno c0 Hc0)|].
    intros c Hc Hci. split; [done|]. intros Hf Hv. destruct Hadm.
    by apply (vehicle_admits_linked d v c).
  - split; [intros Hno; by destruct (Hno c0 Hc0)|].
    intros c Hc Hci.
    assert (c0 = c) as ->.
    { apply (unique_row Customer.customer_id (customers d)); [apply Hd|done..|].
      congruence. }
    split.
    + intros Hnot. destruct Hnot. by apply (vehicle_admits_linked d v c).
    + intros _ _. by exists b, m, g.
Qed.

Lemma create_vehicle_past_the_chain_witness :
  VehicleService.create_vehicle (Vehicle.mk 50 None None 1 2 2 11) demo
  = (inl CustomerNotFoundError, demo)
  ∧ exists b m g,
      VehicleService.create_vehicle (Vehicle.mk 50 None None 1 2 2 10) demo
      = (inr (mkLoadedVehicle (Vehicle.mk 50 None None 1 2 2 10) b m g
                (Customer.mk 10 (codes "Alice") None 1)),
         with_vehicles [Vehicle.mk 50 None None 1 2 2 10] demo).
Proof.
  assert (consistent demo) as Hd by (split; by_compute).
  assert (forall c, linked demo (Vehicle.mk 50 None None 1 2 2 c)) as Hl.
  { intros c. exists (VehicleBrand.mk 1 (codes "Toyota") true 1),
      (VehicleModel.mk 2 (codes "Camry") 1),
      (VehicleGeneration.mk 2 (codes "XV70") 2017 None 2).
    split_and!; try reflexivity; by_compute. }
  split.
  - destruct (create_vehicle_past_the_chain demo _ Hd (Hl 11)) as [Hmissing _].
    apply Hmissing. apply Forall_forall. by_compute.
  - destruct (create_vehicle_past_the_chain demo _ Hd (Hl 10)) as [_ Hfound].
    destruct (Hfound (Customer.mk 10 (codes "Alice") None 1)) as [_ Hok];
      [by_compute|reflexivity|].
    destruct Hok as (b & m & g & _ & _ & _ & Hrun); [by_compute|done|].
    by exists b, m, g.
Defined.

(** X16: [VehicleController.create_vehicle] answers every error of the
    chain and a missing customer with [ConflictException], never with
    [NotFoundException], when the identifiers of the brand, the model and
    the generation are values of their columns' types.  Its only other
    failure is an [IntegrityError] that it does not handle, which arises
    when one of these identifiers is outside the type of its column, or
    past all checks when the key or the VIN of the vehicle is taken.
    Nothing is stored when it fails. *)
Theorem create_vehicle_responses (d : DB) (v : Vehicle.t) :
  consistent d ->
  (vehicle_ids_typed v -> ¬ linked d v ->
   VehicleController.create_vehicle v d = (inl ConflictException, d))
  ∧ (vehicle_ids_typed v ->
     (forall c, c ∈ customers d -> Customer.customer_id c ≠ Vehicle.customer_id v) ->
     VehicleController.create_vehicle v d = (inl ConflictException, d))
  ∧ (¬ smallint (Vehicle.vehicle_brand_id v) ->
     VehicleController.create_vehicle v d = (inl (Unhandled IntegrityError), d))
  ∧ (forall h d', VehicleController.create_vehicle v d = (inl h, d') ->
     d' = d ∧ (h = ConflictException ∨ h = Unhandled IntegrityError))
  ∧ (forall d', VehicleController.create_vehicle v d
                = (inl (Unhandled IntegrityError), d') ->
     ¬ vehicle_ids_typed v
     ∨ (linked d v
        ∧ (exists c, c ∈ customers d ∧ Customer.customer_id c = Vehicle.customer_id v)
        ∧ ¬ (fresh Vehicle.vehicle_id (vehicles d) v
             ∧ null_or (fun vin => Some vin ∉ Vehicle.vin <$> vehicles d)
                 (Vehicle.vin v)))).
Proof.
  intros Hd. unfold VehicleController.create_vehicle, except.
  destruct (create_vehicle_outcome d v Hd)
    as [[Hk Hrun]|[(Hnot & e & He & Hrun)|[(Hl & Hno & Hrun)
        |[(Hl & (c & Hc & Hci) & Hadm & Hrun)
        |(Hl & Hadm & b & m & g & c & _ & _ & _ & [Hc Hci] & Hrun)]]]].
  - split_and!; try done.
    + intros Hkb. rewrite create_vehicle_brand_out_of_range; done.
    + rewrite Hrun. intros h d' [= <- <-]. auto.
    + intros d' _. by left.
  - split_and!.
    + intros _ _. rewrite Hrun.
      repeat (apply elem_of_cons in He as [->|He]; [done|]). by inversion He.
    + intros _ _. rewrite Hrun.
      repeat (apply elem_of_cons in He as [->|He]; [done|]). by inversion He.
    + intros Hkb. rewrite create_vehicle_brand_out_of_range; done.
    + rewrite Hrun. intros h d' [= <- <-]. split; [done|]. left.
      repeat (apply elem_of_cons in He as [->|He]; [done|]). by inversion He.
    + rewrite Hrun. intros d' [= Hh].
      repeat (apply elem_of_cons in He as [->|He]; [done|]). by inversion He.
  - pose proof (linked_typed d v Hd Hl) as (Hkb & _).
    rewrite Hrun. simpl. split_and!; try done. intros h d' [= <- <-]. auto.
  - pose proof (linked_typed d v Hd Hl) as (Hkb & _).
    rewrite Hrun. simpl. split_and!; try done.
    + intros _ Hno. by destruct (Hno c Hc).
    + intros h d' [= <- <-]. auto.
    + intros d' _. right. split_and!; [done|by eauto|].
      intros Hf. apply Hadm. by apply (vehicle_admits_linked d v c).
  - pose proof (linked_typed d v Hd Hl) as (Hkb & _).
    rewrite Hrun. split_and!; try done. intros _ Hno. by destruct (Hno c Hc).
Qed.

Lemma create_vehicle_responses_witness :
  VehicleController.create_vehicle (Vehicle.mk 50 None None 1 2 2 11) demo
  = (inl ConflictException, demo)
  ∧ VehicleController.create_vehicle (Vehicle.mk 50 None None 40000 2 2 10) demo
    = (inl (Unhandled IntegrityError), demo).
Proof.
  assert (consistent demo) as Hd by (split; by_compute).
  split.
  - destruct (create_vehicle_responses demo (Vehicle.mk 50 None None 1 2 2 11) Hd)
      as (_ & Hmissing & _).
    apply Hmissing; [by_compute|]. apply Forall_forall. by_compute.
  - destruct (create_vehicle_responses demo (Vehicle.mk 50 None None 40000 2 2 10) Hd)
      as (_ & _ & Hrange & _).
    apply Hrange. by_compute.
Defined.

(** X17: A vehicle that [create_vehicle] stored is read back by its identifier,
    also after any further requests; an identifier that no vehicle has
    raises [VehicleNotFoundError]. *)
Theorem create_vehicle_then_read (d : DB) (v : Vehicle.t) (r : LoadedVehicle) (d' : DB) :
  consistent d ->
  VehicleService.create_vehicle v d = (inr r, d') ->
  vehicle_row r = v
  ∧ (forall qs,
       VehicleService.get_vehicle_by_vehicle_id (Vehicle.vehicle_id v) (serve d' qs)
       = (inr v, serve d' qs))
  ∧ (forall i, i ≠ Vehicle.vehicle_id v ->
       (forall x, x ∈ vehicles d -> Vehicle.vehicle_id x ≠ i) ->
       VehicleService.get_vehicle_by_vehicle_id i d' = (inl VehicleNotFoundError, d')).
Proof.
  intros Hd Hrun.
  assert (consistent d') as Hd'.
  { eapply consistent_invariant; [by eapply create_vehicle_evolves|done]. }
  pose proof (create_vehicle_inv _ _ _ _ Hrun) as [_ Hd'eq].
  unfold VehicleService.create_vehicle in Hrun.
  read Hrun x Hx. destruct x as [[b m] g]. read Hrun c Hc.
  apply bind_inr_inv in Hrun as (v' & d1 & Hv & Hrun).
  apply create_inv in Hv as (-> & _ & _). apply ret_inv in Hrun as [-> _].
  split_and!; [done| |].
  - intros qs. apply get_vehicle_found.
    + by apply (invariant_serve _ d' qs consistent_invariant).
    + assert (vehicles d' `prefix_of` vehicles (serve d' qs)) as [l Hl].
      { apply (serve_grows vehicles). grows_tac. }
      rewrite Hl, Hd'eq. simpl. apply elem_of_app. left. apply elem_of_app.
      right. by left.
  - intros i Hi Hno. apply get_vehicle_missing. intros x. rewrite Hd'eq. simpl.
    intros [Hx'| ->%list_elem_of_singleton]%elem_of_app; [by apply Hno|done].
Qed.

Lemma create_vehicle_then_read_witness :
  VehicleService.get_vehicle_by_vehicle_id 50
    (serve (VehicleService.create_vehicle (Vehicle.mk 50 None None 1 2 2 10) demo).2
       [PostCustomer bob (Customer.mk 12 (codes "Bob") None 2)])
  = (inr (Vehicle.mk 50 None None 1 2 2 10),
     serve (VehicleService.create_vehicle (Vehicle.mk 50 None None 1 2 2 10) demo).2
       [PostCustomer bob (Customer.mk 12 (codes "Bob") None 2)]).
Proof.
  assert (consistent demo) as Hd by (split; by_compute).
  set (v := Vehicle.mk 50 None None 1 2 2 10).
  assert (exists r, VehicleService.create_vehicle v demo
                    = (inr r, (VehicleService.create_vehicle v demo).2)) as [r Hrun]
    by (eexists; vm_compute; reflexivity).
  destruct (create_vehicle_then_read demo v r _ Hd Hrun) as (_ & Hread & _).
  apply (Hread [PostCustomer bob (Customer.mk 12 (codes "Bob") None 2)]).
Defined.

(** ** More on provided maintenance *)

(** The test of the mechanic in [create_provided_maintenance], with the
    mechanic it loads. *)
Lemma mechanic_part_loaded d user o :
  consistent d -> null_or (owns_mechanic d user) o ->
  exists x,
    match o with
    | Some mechanic_id =>
        mechanic ← MechanicService.get_mechanic_by_mechanic_id mechanic_id;
        _ ← MechanicService.validate_mechanic_owner mechanic user;
        mret (Some mechanic)
    | None => mret None
    end d = (inr x, d)
    ∧ Mechanic.mechanic_id <$> x = o
    ∧ (forall m, x = Some m -> m ∈ mechanics d).
Proof.
  intros Hd Hpass. destruct o as [i|]; [|by exists None].
  destruct Hpass as (m & Hm & Hi & Hu). exists (Some m). split_and!.
  - erewrite bind_run; [|rewrite <-Hi; by apply get_mechanic_found].
    erewrite bind_run; [done|].
    unfold MechanicService.validate_mechanic_owner. by case_decide.
  - simpl. by rewrite Hi.
  - by intros ? [= <-].
Qed.

(** The test of the mechanic in [_get_provided_maintenance_with_owner]. *)
Lemma mechanic_check_loaded d user o :
  consistent d -> null_or (owns_mechanic d user) o ->
  exists x,
    match o with
    | Some mechanic_id =>
        mechanic ← MechanicService.get_mechanic_by_mechanic_id mechanic_id;
        if decide (Mechanic.uid mechanic ≠ User.uid user)
        then raise MechanicBelongsToAnotherUserError
        else mret (Some mechanic)
    | None => mret None
    end d = (inr x, d)
    ∧ Mechanic.mechanic_id <$> x = o
    ∧ (forall m, x = Some m -> m ∈ mechanics d).
Proof.
  intros Hd Hpass. destruct o as [i|]; [|by exists None].
  destruct Hpass as (m & Hm & Hi & Hu). exists (Some m). split_and!.
  - erewrite bind_run; [|rewrite <-Hi; by apply get_mechanic_found].
    by case_decide.
  - simpl. by rewrite Hi.
  - by intros ? [= <-].
Qed.

(** The test of the autoservice, with the autoservice it loads. *)
Lemma autoservice_part_loaded d user o :
  consistent d -> null_or (manages_autoservice d user) o ->
  exists x,
    match o with
    | Some autoservice_id =>
        autoservice ← AutoserviceService.get_autoservice_by_autoservice_id autoservice_id;
        _ ← AutoserviceService.validate_autoservice_manage_provided_maintenance_permissions
              autoservice user;
        mret (Some autoservice)
    | None => mret None
    end d = (inr x, d)
    ∧ Autoservice.autoservice_id <$> x = o
    ∧ (forall a, x = Some a -> a ∈ autoservices d).
Proof.
  intros Hd Hpass. destruct o as [i|]; [|by exists None].
  destruct Hpass as [(a & Ha & Hi) (r & Hr & Hu & Hri & Hp)].
  exists (Some a). split_and!.
  - erewrite bind_run; [|rewrite <-Hi; by apply get_autoservice_found].
    erewrite bind_run; [done|].
    apply (validate_permissions_granted d user a r); congruence.
  - simpl. by rewrite Hi.
  - by intros ? [= <-].
Qed.

(** What the table asks of a provided maintenance beyond its foreign
    keys: a new key, a performer, a price of [Numeric(10, 2)] and a
    description of [String(500)]. *)
Lemma provided_maintenance_admits_managed d user pm t :
  t ∈ provided_maintenance_types d ->
  ProvidedMaintenanceType.provided_maintenance_type_id t
  = ProvidedMaintenance.provided_maintenance_type_id pm ->
  may_manage d user (ProvidedMaintenance.mechanic_id pm)
    (ProvidedMaintenance.autoservice_id pm) ->
  provided_maintenance_admits d pm
  <-> fresh ProvidedMaintenance.provided_maintenance_id (provided_maintenance d) pm
      ∧ ProvidedMaintenance.check_mechanic_or_autoservice pm
      ∧ numeric_10_2 (ProvidedMaintenance.price pm)
      ∧ null_or (varchar 500) (ProvidedMaintenance.description pm).
Proof.
  intros Ht Hti [Hm Ha]. unfold provided_maintenance_admits.
  split; [tauto|].
  intros (Hf & Hc & Hp & Hs). split_and!; try done.
  - unfold refers. rewrite <-Hti. by apply list_elem_of_fmap_2.
  - eapply null_or_impl; [|exact Hm]. intros i (m & Hin & <- & _).
    by apply list_elem_of_fmap_2.
  - eapply null_or_impl; [|exact Ha]. intros i [(a & Hin & <-) _].
    by apply list_elem_of_fmap_2.
Qed.

(** X18: [create_provided_maintenance] refuses a type identifier outside
    [SmallInteger] with [IntegrityError], and one of [SmallInteger] that
    no type has with [ProvidedMaintenanceTypeNotFoundError], whatever the
    performers.  When the type is stored and the performers are the
    user's to manage, the call depends on the table only: a provided
    maintenance with a new key, a performer, a price of [Numeric(10, 2)]
    and a description of at most 500 characters is stored and returned
    with the type and the performers it names; any other raises
    [IntegrityError]. *)
Theorem create_provided_maintenance_past_the_checks
    (d : DB) (pm : ProvidedMaintenance.t) (user : User.t) :
  consistent d ->
  (¬ smallint (ProvidedMaintenance.provided_maintenance_type_id pm) ->
   ProvidedMaintenanceService.create_provided_maintenance pm user d
   = (inl IntegrityError, d))
  ∧ (smallint (ProvidedMaintenance.provided_maintenance_type_id pm) ->
     (forall t, t ∈ provided_maintenance_types d ->
        ProvidedMaintenanceType.provided_maintenance_type_id t
        ≠ ProvidedMaintenance.provided_maintenance_type_id pm) ->
     ProvidedMaintenanceService.create_provided_maintenance pm user d
     = (inl ProvidedMaintenanceTypeNotFoundError, d))
  ∧ (forall t, t ∈ provided_maintenance_types d ->
     ProvidedMaintenanceType.provided_maintenance_type_id t
     = ProvidedMaintenance.provided_maintenance_type_id pm ->
     may_manage d user (ProvidedMaintenance.mechanic_id pm)
       (ProvidedMaintenance.autoservice_id pm) ->
     (¬ (fresh ProvidedMaintenance.provided_maintenance_id (provided_maintenance d) pm
         ∧ ProvidedMaintenance.check_mechanic_or_autoservice pm
         ∧ numeric_10_2 (ProvidedMaintenance.price pm)
         ∧ null_or (varchar 500) (ProvidedMaintenance.description pm)) ->
      ProvidedMaintenanceService.create_provided_maintenance pm user d
      = (inl IntegrityError, d))
     ∧ (fresh ProvidedMaintenance.provided_maintenance_id (provided_maintenance d) pm ->
        ProvidedMaintenance.check_mechanic_or_autoservice pm ->
        numeric_10_2 (ProvidedMaintenance.price pm) ->
        null_or (varchar 500) (ProvidedMaintenance.description pm) ->
        exists m a,
          Mechanic.mechanic_id <$> m = ProvidedMaintenance.mechanic_id pm
          ∧ Autoservice.autoservice_id <$> a = ProvidedMaintenance.autoservice_id pm
          ∧ (forall x, m = Some x -> x ∈ mechanics d)
          ∧ (forall x, a = Some x -> x ∈ autoservices d)
          ∧ ProvidedMaintenanceService.create_provided_maintenance pm user d
            = (inr (mkLoadedProvidedMaintenance pm m a, t),
               with_provided_maintenance (provided_maintenance d ++ [pm]) d))).
Proof.
  intros Hd. split_and!.
  - intros Hk. unfold ProvidedMaintenanceService.create_provided_maintenance.
    apply bind_fail. by apply get_provided_maintenance_type_out_of_range.
  - intros Hk Hno. unfold ProvidedMaintenanceService.create_provided_maintenance.
    apply bind_fail. by apply get_provided_maintenance_type_missing.
  - intros t Ht Hti Hmay.
    pose proof (provided_maintenance_admits_managed d user pm t Ht Hti Hmay) as Hadm.
    destruct Hmay as [Hmech Hauto].
    destruct (mechanic_part_loaded d user _ Hd Hmech) as (m & Hm & Hmi & Hmin).
    destruct (autoservice_part_loaded d user _ Hd Hauto) as (a & Ha & Hai & Hain).
    assert (ProvidedMaintenanceService.create_provided_maintenance pm user d
            = (p ← create BaseProvidedMaintenanceRepository pm;
               mret (mkLoadedProvidedMaintenance p m a, t)) d) as Hrun.
    { unfold ProvidedMaintenanceService.create_provided_maintenance.
      erewrite bind_run; [|rewrite <-Hti; by apply get_provided_maintenance_type_found].
      erewrite bind_run; [|exact Hm]. erewrite bind_run; [|exact Ha]. done. }
    rewrite Hrun. split.
    + intros Hnot. apply bind_fail. unfold create. rewrite decide_False; [done|].
      simpl. tauto.
    + intros Hf Hc Hp Hs. exists m, a. split_and!; try done.
      erewrite bind_run; [done|]. unfold create. rewrite decide_True; [done|].
      simpl. tauto.
Qed.

Lemma create_provided_maintenance_past_the_checks_witness :
  ProvidedMaintenanceService.create_provided_maintenance
    (ProvidedMaintenance.mk 41 90000 None 40000 None (Some 30)) bob demo
  = (inl IntegrityError, demo)
  ∧ ProvidedMaintenanceService.create_provided_maintenance
      (ProvidedMaintenance.mk 41 90000 None 99 None (Some 30)) bob demo
    = (inl ProvidedMaintenanceTypeNotFoundError, demo)
  ∧ ProvidedMaintenanceService.create_provided_maintenance
      (ProvidedMaintenance.mk 41 10000000000 None 1 None (Some 30)) bob demo
    = (inl IntegrityError, demo)
  ∧ exists m a,
      ProvidedMaintenanceService.create_provided_maintenance
        (ProvidedMaintenance.mk 41 90000 None 1 None (Some 30)) bob demo
      = (inr (mkLoadedProvidedMaintenance
                (ProvidedMaintenance.mk 41 90000 None 1 None (Some 30)) m a,
              ProvidedMaintenanceType.mk 1 (codes "Oil change") 1),
         with_provided_maintenance
           (provided_maintenance demo
            ++ [ProvidedMaintenance.mk 41 90000 None 1 None (Some 30)]) demo).
Proof.
  assert (consistent demo) as Hd by (split; by_compute).
  assert (may_manage demo bob None (Some 30)) as Hmay.
  { split; [done|]. split.
    - exists garage. split; [by_compute|reflexivity].
    - exists (AutoserviceUser.mk 2 30 [autoservice_manage_provided_maintenance]).
      split_and!; [by_compute|reflexivity|reflexivity|by_compute]. }
  split_and!.
  - destruct (create_provided_maintenance_past_the_checks demo
                (ProvidedMaintenance.mk 41 90000 None 40000 None (Some 30)) bob Hd)
      as (Hrange & _).
    apply Hrange. by_compute.
  - destruct (create_provided_maintenance_past_the_checks demo
                (ProvidedMaintenance.mk 41 90000 None 99 None (Some 30)) bob Hd)
      as (_ & Hmissing & _).
    apply Hmissing; [by_compute|]. apply Forall_forall. by_compute.
  - destruct (create_provided_maintenance_past_the_checks demo
                (ProvidedMaintenance.mk 41 10000000000 None 1 None (Some 30)) bob Hd)
      as (_ & _ & Hfound).
    destruct (Hfound (ProvidedMaintenanceType.mk 1 (codes "Oil change") 1))
      as [Hrefused _]; [by_compute|reflexivity|exact Hmay|].
    apply Hrefused. intros (_ & _ & Hp & _). revert Hp. by_compute.
  - destruct (create_provided_maintenance_past_the_checks demo
                (ProvidedMaintenance.mk 41 90000 None 1 None (Some 30)) bob Hd)
      as (_ & _ & Hfound).
    destruct (Hfound (ProvidedMaintenanceType.mk 1 (codes "Oil change") 1))
      as [_ Hok]; [by_compute|reflexivity|exact Hmay|].
    destruct Hok as (m & a & _ & _ & _ & _ & Hrun);
      [unfold fresh; by_compute|by right|by_compute|done|].
    by exists m, a.
Defined.

(** ** More on the associations of a provided maintenance *)

(** A stored mechanic is the user's, or the test of the mechanic raises. *)
Lemma mechanic_check_cases d user o :
  consistent d -> null_or (refers Mechanic.mechanic_id (mechanics d)) o ->
  null_or (owns_mechanic d user) o
  ∨ match o with
    | Some mechanic_id =>
        mechanic ← MechanicService.get_mechanic_by_mechanic_id mechanic_id;
        if decide (Mechanic.uid mechanic ≠ User.uid user)
        then raise MechanicBelongsToAnotherUserError
        else mret (Some mechanic)
    | None => mret None
    end d = (inl MechanicBelongsToAnotherUserError, d).
Proof.
  intros Hd Href. destruct o as [i|]; [|by left]. simpl in *.
  apply list_elem_of_fmap in Href as (m & -> & Hm).
  destruct (decide (Mechanic.uid m = User.uid user)) as [Hu|Hu].
  - left. by exists m.
  - right. erewrite bind_run; [|by apply get_mechanic_found]. by case_decide.
Qed.

(** A stored autoservice grants the user the permission, or the test of
    the autoservice raises one of the two permission errors. *)
Lemma autoservice_part_cases d user o :
  consistent d -> null_or (refers Autoservice.autoservice_id (autoservices d)) o ->
  null_or (manages_autoservice d user) o
  ∨ exists e,
      e ∈ [AutoserviceUserNotFoundError; AutoserviceUserDoesntHavePermissionsError]
      ∧ match o with
        | Some autoservice_id =>
            autoservice ←
              AutoserviceService.get_autoservice_by_autoservice_id autoservice_id;
            _ ← AutoserviceService.validate_autoservice_manage_provided_maintenance_permissions
                  autoservice user;
            mret (Some autoservice)
        | None => mret None
        end d = (inl e, d).
Proof.
  intros Hd Href. destruct o as [j|]; [|by left]. simpl in *.
  apply list_elem_of_fmap in Href as (a & -> & Ha).
  destruct (find_row autoservice_user_key (User.uid user, Autoservice.autoservice_id a)
              (autoservice_users d)) as [(r & Hr & Hk)|Hno].
  - injection Hk as Hu Hi.
    destruct (decide (autoservice_manage_provided_maintenance
                        ∈ AutoserviceUser.permissions r)) as [Hp|Hp].
    + left. split; [by exists a|]. by exists r.
    + right. exists AutoserviceUserDoesntHavePermissionsError. split; [by_compute|].
      erewrite bind_run; [|by apply get_autoservice_found].
      apply bind_fail. by apply (validate_permissions_refused d user a r).
  - right. exists AutoserviceUserNotFoundError. split; [by_compute|].
    erewrite bind_run; [|by apply get_autoservice_found].
    apply bind_fail, validate_permissions_no_row.
    intros r Hr [Hu Hi]. apply (Hno r Hr). unfold autoservice_user_key. congruence.
Qed.

(** How [_get_provided_maintenance_with_owner] ends on a stored provided
    maintenance. *)
Lemma get_provided_maintenance_with_owner_cases d user p :
  consistent d -> referential d -> p ∈ provided_maintenance d ->
  (may_manage d user (ProvidedMaintenance.mechanic_id p)
     (ProvidedMaintenance.autoservice_id p)
   ∧ exists m a,
       Mechanic.mechanic_id <$> m = ProvidedMaintenance.mechanic_id p
       ∧ Autoservice.autoservice_id <$> a = ProvidedMaintenance.autoservice_id p
       ∧ ProvidedMaintenanceService._get_provided_maintenance_with_owner
           (ProvidedMaintenance.provided_maintenance_id p) user d
         = (inr (mkLoadedProvidedMaintenance p m a), d))
  ∨ (exists e,
       e ∈ [MechanicBelongsToAnotherUserError; AutoserviceUserNotFoundError;
            AutoserviceUserDoesntHavePermissionsError]
       ∧ ProvidedMaintenanceService._get_provided_maintenance_with_owner
           (ProvidedMaintenance.provided_maintenance_id p) user d
         = (inl e, d)).
Proof.
  intros Hd Hr Hp.
  pose proof (provided_maintenance_fk d Hr) as Hfk. rewrite Forall_forall in Hfk.
  destruct (Hfk p Hp) as (_ & Hrm & Hra).
  unfold ProvidedMaintenanceService._get_provided_maintenance_with_owner.
  erewrite bind_run; [|by apply get_provided_maintenance_found].
  destruct (mechanic_check_cases d user _ Hd Hrm) as [Hmech|Hfail].
  - destruct (mechanic_check_loaded d user _ Hd Hmech) as (m & Hm & Hmi & _).
    erewrite bind_run; [|exact Hm].
    destruct (autoservice_part_cases d user _ Hd Hra) as [Hauto|(e & He & Hfail)].
    + destruct (autoservice_part_loaded d user _ Hd Hauto) as (a & Ha & Hai & _).
      left. split; [done|]. exists m, a. split_and!; [done..|].
      by erewrite bind_run; [|exact Ha].
    + right. exists e. split.
      * apply elem_of_cons. by right.
      * by apply bind_fail.
  - right. exists MechanicBelongsToAnotherUserError. split; [by_compute|].
    by apply bind_fail.
Qed.

(** X19: [_get_provided_maintenance_with_owner] raises
    [ProvidedMaintenanceNotFoundError] for an identifier that no provided
    maintenance has.  For a stored one, in a store whose keys and foreign
    keys hold, it returns the row with the performers it names exactly
    when they are the user's to manage, and otherwise raises one of the
    three ownership and permission errors: the performers of a stored row
    are never reported missing. *)
Theorem get_provided_maintenance_with_owner_outcome (d : DB) (user : User.t) :
  consistent d -> referential d ->
  (forall i,
     (forall p, p ∈ provided_maintenance d ->
        ProvidedMaintenance.provided_maintenance_id p ≠ i) ->
     ProvidedMaintenanceService._get_provided_maintenance_with_owner i user d
     = (inl ProvidedMaintenanceNotFoundError, d))
  ∧ (forall p, p ∈ provided_maintenance d ->
     (may_manage d user (ProvidedMaintenance.mechanic_id p)
        (ProvidedMaintenance.autoservice_id p) ->
      exists m a,
        Mechanic.mechanic_id <$> m = ProvidedMaintenance.mechanic_id p
        ∧ Autoservice.autoservice_id <$> a = ProvidedMaintenance.autoservice_id p
        ∧ ProvidedMaintenanceService._get_provided_maintenance_with_owner
            (ProvidedMaintenance.provided_maintenance_id p) user d
          = (inr (mkLoadedProvidedMaintenance p m a), d))
     ∧ (¬ may_manage d user (ProvidedMaintenance.mechanic_id p)
            (ProvidedMaintenance.autoservice_id p) ->
        exists e,
          e ∈ [MechanicBelongsToAnotherUserError; AutoserviceUserNotFoundError;
               AutoserviceUserDoesntHavePermissionsError]
          ∧ ProvidedMaintenanceService._get_provided_maintenance_with_owner
              (ProvidedMaintenance.provided_maintenance_id p) user d
            = (inl e, d))).
Proof.
  intros Hd Hr. split.
  - intros i Hno.
    unfold ProvidedMaintenanceService._get_provided_maintenance_with_owner.
    apply bind_fail. by apply get_provided_maintenance_missing.
  - intros p Hp.
    destruct (get_provided_maintenance_with_owner_cases d user p Hd Hr Hp)
      as [[Hmay Hok]|Hfail].
    + split; [done|]. intros Hnot. by destruct Hnot.
    + split; [|done]. intros Hmay. destruct Hfail as (e & He & Hrun).
      destruct Hmay as [Hmech Hauto].
      destruct (mechanic_check_loaded d user _ Hd Hmech) as (m & Hm & _).
      destruct (autoservice_part_loaded d user _ Hd Hauto) as (a & Ha & _).
      unfold ProvidedMaintenanceService._get_provided_maintenance_with_owner in Hrun.
      erewrite bind_run in Hrun; [|by apply get_provided_maintenance_found].
      erewrite bind_run in Hrun; [|exact Hm].
      erewrite bind_run in Hrun; [|exact Ha]. done.
Qed.

Lemma get_provided_maintenance_with_owner_outcome_witness :
  (exists m a,
     ProvidedMaintenanceService._get_provided_maintenance_with_owner 40 alice demo
     = (inr (mkLoadedProvidedMaintenance
               (ProvidedMaintenance.mk 40 150000 None 1 (Some 20) None) m a), demo))
  ∧ exists e,
      e ∈ [MechanicBelongsToAnotherUserError; AutoserviceUserNotFoundError;
           AutoserviceUserDoesntHavePermissionsError]
      ∧ ProvidedMaintenanceService._get_provided_maintenance_with_owner 40 bob demo
        = (inl e, demo).
Proof.
  assert (consistent demo) as Hd by (split; by_compute).
  assert (referential demo) as Hr by (split; unfold refers; by_compute).
  set (p := ProvidedMaintenance.mk 40 150000 None 1 (Some 20) None).
  assert (p ∈ provided_maintenance demo) as Hp by by_compute.
  split.
  - destruct (get_provided_maintenance_with_owner_outcome demo alice Hd Hr)
      as [_ Hstored].
    destruct (Hstored p Hp) as [Hok _].
    destruct Hok as (m & a & _ & _ & Hrun); [|by exists m, a].
    split; [|done].
    exists (Mechanic.mk 20 (codes "Alice") None (codes "Moscow") None None None
              true false 1).
    split_and!; [by_compute|reflexivity|reflexivity].
  - destruct (get_provided_maintenance_with_owner_outcome demo bob Hd Hr)
      as [_ Hstored].
    destruct (Hstored p Hp) as [_ Hfail]. apply Hfail.
    intros [(m & Hm & Hi & Hu) _]. revert Hu.
    apply (unique_row Mechanic.mechanic_id (mechanics demo) m
             (Mechanic.mk 20 (codes "Alice") None (codes "Moscow") None None None
                true false 1)) in Hi as ->; [done|by_compute|done|by_compute].
Defined.









(** ** Whose requests change what *)

Section Keeps.
Context {B : Type} (f : DB -> B).

Lemma bind_keeps {A C} (m : M A) (k : A -> M C) :
  keeps f m -> (forall a, keeps f (k a)) -> keeps f (m ≫= k).
Proof.
  intros Hm Hk d. specialize (Hm d). unfold mbind, M_bind.
  destruct (m d) as [[e|a] d1]; simpl in *; [done|]. rewrite <-Hm. apply Hk.
Qed.

Lemma readonly_keeps {A} (m : M A) : readonly m -> keeps f m.
Proof. intros Hm d. by rewrite Hm. Qed.

Lemma create_keeps {T K} (R : Repository T K) (data : T) :
  (forall l d, f (with_rows R l d) = f d) -> keeps f (create R data).
Proof. intros HR d. unfold create. case_decide; simpl; [apply HR|done]. Qed.

Lemma update_keeps {T K} `{!EqDecision K} (R : Repository T K) (g : T -> T) (k : K) :
  (forall l d, f (with_rows R l d) = f d) -> keeps f (update R g k).
Proof.
  intros HR d. unfold update.
  destruct (filter _ _) as [|x [|y l]]; simpl; [done|apply HR|done].
Qed.

(** What a request leaves alone when its service does. *)
Lemma autocommit_keeps {A} (m : M A) handlers d :
  keeps f m -> f (autocommit d (except handlers m d)) = f d.
Proof.
  intros Hm. specialize (Hm d). unfold autocommit, except.
  by destruct (m d) as [[e|r] d'].
Qed.
End Keeps.

(** Reads, and writes to other tables, in sequence. *)
Ltac keeps_tac :=
  repeat match goal with
    | |- keeps _ (_ ≫= _) => apply bind_keeps; [|intros ?]
    | |- keeps _ (mret _) => apply readonly_keeps, ret_readonly
    | |- keeps _ (raise _) => apply readonly_keeps, raise_readonly
    | |- keeps _ (get_one_or_none _ _) =>
        apply readonly_keeps, get_one_or_none_readonly
    | |- keeps _ (bind_param _ _ _) =>
        apply readonly_keeps, bind_param_readonly, get_one_or_none_readonly
    | |- keeps _ (create _ _) => apply create_keeps; done
    | |- keeps _ (update _ _ _) => apply update_keeps; done
    | |- keeps _ (match ?x with _ => _ end) => destruct x
    | |- keeps _ (AutoserviceService.create_autoservice _ _) =>
        unfold AutoserviceService.create_autoservice
    | |- keeps _ _ => progress unfold_services
    end.

Lemma post_autoservice_cases d user data :
  handle d (PostAutoservice user data) = d
  ∨ handle d (PostAutoservice user data) = with_owned_autoservice data user d.
Proof.
  simpl. unfold AutoserviceController.create_autoservice, except, autocommit.
  destruct (AutoserviceService.create_autoservice data user d) as [[e|r] d'] eqn:Hrun;
    [by left|].
  right. by apply create_autoservice_inv in Hrun as (_ & _ & _ & ->).
Qed.

(** Only [create_autoservice] writes to [autoservice_users]. *)
Lemma handle_autoservice_users d q :
  autoservice_users (handle d q) = autoservice_users d
  ∨ exists user data,
      q = PostAutoservice user data
      ∧ autoservice_users (handle d q)
        = autoservice_users d
          ++ [AutoserviceUser.mk (User.uid user) (Autoservice.autoservice_id data)
                all_permissions].
Proof.
  destruct q as [u x|u i x|u x|u i x|u x|u i x|x|u x|u x|u x];
    try (left; simpl; apply autocommit_keeps; by keeps_tac).
  destruct (post_autoservice_cases d u x) as [->| ->]; [by left|].
  right. by exists u, x.
Qed.

(** X22: A user holds a permission in an autoservice only by having created
    the autoservice: the requests of others, and the user's other requests,
    grant nothing. *)
Theorem permissions_come_from_creation
    (d : DB) (qs : list request) (user : User.t) (a : UUID)
    (p : AutoserviceUserPermissions) :
  Forall (fun q => ¬ creates_autoservice_as (User.uid user) q) qs ->
  holds (serve d qs) user a p -> holds d user a p.
Proof.
  unfold serve. revert d. induction qs as [|q qs IH]; intros d Hqs; [done|].
  apply Forall_cons in Hqs as [Hq Hqs]. simpl. intros Hh.
  apply IH in Hh; [|done]. destruct Hh as (r & Hr & Hu & Ha & Hp).
  destruct (handle_autoservice_users d q) as [Hsame|(u & x & -> & Hnew)].
  - rewrite Hsame in Hr. by exists r.
  - rewrite Hnew in Hr. apply elem_of_app in Hr as [Hr|Hr]; [by exists r|].
    apply list_elem_of_singleton in Hr as ->. by destruct Hq.
Qed.

Lemma permissions_come_from_creation_witness :
  ¬ holds
      (serve demo
         [PostAutoservice carol
            (Autoservice.mk 31 (codes "Carol's") None (codes "7701234567")
               (codes "1027700132195") (codes "Kazan") (codes "Bauman 1") None None);
          PatchAutoservice bob 31 (Autoservice.mk_partial None None None None)])
      bob 31 autoservice_manage.
Proof.
  intros Hh.
  apply (permissions_come_from_creation demo _ bob 31 autoservice_manage) in Hh.
  - destruct Hh as (r & Hr & Hu & Ha & _). revert Hr Ha.
    repeat (intros [->|Hr]%elem_of_cons; [done|revert Hr]). by intros ?%elem_of_nil.
  - repeat (apply Forall_cons; split; [simpl; by_compute || tauto|]).
    apply Forall_nil_2.
Defined.

Lemma create_customer_inv customer user d r d' :
  CustomerService.create_customer customer user d = (inr r, d') ->
  d' = d ∨ d' = with_customers (customers d ++ [r]) d.
Proof.
  unfold CustomerService.create_customer. intros H.
  apply bind_read_inv in H as ([saved|] & _ & H); [| |by readonly_tac].
  - apply ret_inv in H as [_ ->]. by left.
  - apply create_inv in H as (-> & _ & ->). by right.
Qed.

Lemma create_mechanic_inv mechanic user d r d' :
  MechanicService.create_mechanic mechanic user d = (inr r, d') ->
  d' = d ∨ d' = with_mechanics (mechanics d ++ [r]) d.
Proof.
  unfold MechanicService.create_mechanic. intros H.
  apply bind_read_inv in H as ([saved|] & _ & H); [| |by readonly_tac].
  - apply ret_inv in H as [_ ->]. by left.
  - apply create_inv in H as (-> & _ & ->). by right.
Qed.

Lemma patch_customer_inv i data user d r d' :
  CustomerService.patch_customer i data user d = (inr r, d') ->
  (exists c, c ∈ customers d ∧ Customer.customer_id c = i
     ∧ Customer.uid c = User.uid user)
  ∧ d' = with_customers
           (amend Customer.customer_id i (Customer.setattrs data) (customers d)) d.
Proof.
  unfold CustomerService.patch_customer. intros H.
  read H c Hc. apply get_customer_inv in Hc as (_ & Hc & Hi).
  case_decide as Hu; [done|]. apply update_inv in H as ->. subst i.
  split; [|done]. by exists c.
Qed.

Lemma patch_mechanic_inv i data user d r d' :
  MechanicService.patch_mechanic i data user d = (inr r, d') ->
  (exists m, m ∈ mechanics d ∧ Mechanic.mechanic_id m = i
     ∧ Mechanic.uid m = User.uid user)
  ∧ d' = with_mechanics
           (amend Mechanic.mechanic_id i (Mechanic.setattrs data) (mechanics d)) d.
Proof.
  unfold MechanicService.patch_mechanic. intros H.
  read H m Hm. apply get_mechanic_inv in Hm as (_ & Hm & Hi).
  case_decide as Hu; [done|]. apply update_inv in H as ->. subst i.
  split; [|done]. by exists m.
Qed.

(** A customer row outlives every request that is not a patch by its
    user. *)
Lemma handle_customer_kept d q c :
  consistent d -> c ∈ customers d -> ¬ patches_customer_as (Customer.uid c) q ->
  c ∈ customers (handle d q).
Proof.
  intros Hd Hc Hq.
  destruct q as [u x|u i x|u x|u i x|u x|u i x|x|u x|u x|u x];
    try (match goal with
         | |- _ ∈ customers (handle ?d0 ?q) =>
             assert (customers (handle d0 q) = customers d0) as ->
               by (simpl; apply autocommit_keeps; by keeps_tac)
         end; done).
  - simpl. unfold CustomerController.create_customer, except, autocommit.
    destruct (CustomerService.create_customer x u d) as [[e|r] d'] eqn:Hrun; [done|].
    apply create_customer_inv in Hrun as [->| ->]; [done|]. simpl.
    apply elem_of_app. by left.
  - simpl. unfold CustomerController.patch_customer, except, autocommit.
    destruct (CustomerService.patch_customer i x u d) as [[e|r] d'] eqn:Hrun; [done|].
    apply patch_customer_inv in Hrun as [(c' & Hc' & Hi & Hu) ->]. simpl.
    apply amend_other; [done|]. intros Hci. apply Hq. simpl. rewrite <-Hu.
    f_equal. apply (unique_row Customer.customer_id (customers d)); [apply Hd|..];
      congruence.
Qed.

Lemma handle_mechanic_kept d q m :
  consistent d -> m ∈ mechanics d -> ¬ patches_mechanic_as (Mechanic.uid m) q ->
  m ∈ mechanics (handle d q).
Proof.
  intros Hd Hm Hq.
  destruct q as [u x|u i x|u x|u i x|u x|u i x|x|u x|u x|u x];
    try (match goal with
         | |- _ ∈ mechanics (handle ?d0 ?q) =>
             assert (mechanics (handle d0 q) = mechanics d0) as ->
               by (simpl; apply autocommit_keeps; by keeps_tac)
         end; done).
  - simpl. unfold MechanicController.create_mechanic, except, autocommit.
    destruct (MechanicService.create_mechanic x u d) as [[e|r] d'] eqn:Hrun; [done|].
    apply create_mechanic_inv in Hrun as [->| ->]; [done|]. simpl.
    apply elem_of_app. by left.
  - simpl. unfold MechanicController.patch_mechanic, except, autocommit.
    destruct (MechanicService.patch_mechanic i x u d) as [[e|r] d'] eqn:Hrun; [done|].
    apply patch_mechanic_inv in Hrun as [(m' & Hm' & Hi & Hu) ->]. simpl.
    apply amend_other; [done|]. intros Hmi. apply Hq. simpl. rewrite <-Hu.
    f_equal. apply (unique_row Mechanic.mechanic_id (mechanics d)); [apply Hd|..];
      congruence.
Qed.

Lemma handle_consistent d q : consistent d -> consistent (handle d q).
Proof. apply invariant_rtc; [apply consistent_invariant|apply handle_evolves]. Qed.

(** X23: Only its user changes a profile: a customer (a mechanic) row is
    stored unchanged after any requests among which none is a patch of a
    customer (a mechanic) by the row's user. *)
Theorem profile_changes_only_by_owner (d : DB) (qs : list request) :
  consistent d ->
  (forall c, c ∈ customers d ->
     Forall (fun q => ¬ patches_customer_as (Customer.uid c) q) qs ->
     c ∈ customers (serve d qs))
  ∧ (forall m, m ∈ mechanics d ->
     Forall (fun q => ¬ patches_mechanic_as (Mechanic.uid m) q) qs ->
     m ∈ mechanics (serve d qs)).
Proof.
  unfold serve. revert d. induction qs as [|q qs IH]; intros d Hd; [done|].
  destruct (IH (handle d q) (handle_consistent d q Hd)) as [IHc IHm].
  split.
  - intros c Hc [Hq Hqs]%Forall_cons. simpl. apply IHc; [|done].
    by apply handle_customer_kept.
  - intros m Hm [Hq Hqs]%Forall_cons. simpl. apply IHm; [|done].
    by apply handle_mechanic_kept.
Qed.

Lemma profile_changes_only_by_owner_witness :
  Customer.mk 10 (codes "Alice") None 1
    ∈ customers
        (serve demo
           [PatchCustomer bob 10 (Customer.mk_partial (Some (codes "Bobby")) None);
            PostCustomer bob (Customer.mk 12 (codes "Bob") None 0);
            PatchCustomer bob 12 (Customer.mk_partial (Some (codes "Bobby")) None)]).
Proof.
  assert (consistent demo) as Hd by (split; by_compute).
  destruct (profile_changes_only_by_owner demo
              [PatchCustomer bob 10 (Customer.mk_partial (Some (codes "Bobby")) None);
               PostCustomer bob (Customer.mk 12 (codes "Bob") None 0);
               PatchCustomer bob 12 (Customer.mk_partial (Some (codes "Bobby")) None)]
              Hd) as [Hc _].
  apply Hc; [by_compute|].
  repeat (apply Forall_cons; split; [simpl; by_compute || tauto|]).
  apply Forall_nil_2.
Defined.

(** ** The first profile of a user *)

(** X24: For a user without a customer (a mechanic) profile the creation is
    decided by the key of the request: a new key stores the request under
    the user's [uid]; a key that is taken raises [IntegrityError], which
    the controller does not handle. *)
Theorem create_profile_of_new_user (d : DB) (user : User.t) :
  ((forall c, c ∈ customers d -> Customer.uid c ≠ User.uid user) ->
   forall customer,
     (Customer.customer_id customer ∉ Customer.customer_id <$> customers d ->
      CustomerService.create_customer customer user d
      = (inr (Customer.with_uid (User.uid user) customer),
         with_customers
           (customers d ++ [Customer.with_uid (User.uid user) customer]) d))
     ∧ (Customer.customer_id customer ∈ Customer.customer_id <$> customers d ->
        CustomerController.create_customer user customer d
        = (inl (Unhandled IntegrityError), d)))
  ∧ ((forall m, m ∈ mechanics d -> Mechanic.uid m ≠ User.uid user) ->
     forall mechanic,
       (Mechanic.mechanic_id mechanic ∉ Mechanic.mechanic_id <$> mechanics d ->
        MechanicService.create_mechanic mechanic user d
        = (inr (Mechanic.with_uid (User.uid user) mechanic),
           with_mechanics
             (mechanics d ++ [Mechanic.with_uid (User.uid user) mechanic]) d))
       ∧ (Mechanic.mechanic_id mechanic ∈ Mechanic.mechanic_id <$> mechanics d ->
          MechanicController.create_mechanic user mechanic d
          = (inl (Unhandled IntegrityError), d))).
Proof.
  split.
  - intros Hno customer.
    assert (CustomerService.create_customer customer user d
            = create CustomerRepository (Customer.with_uid (User.uid user) customer) d)
      as Hrun.
    { unfold CustomerService.create_customer.
      erewrite bind_run; [|by apply (get_one_or_none_missing _ CustomerRepository)].
      done. }
    unfold CustomerController.create_customer, except. rewrite Hrun.
    unfold create. split; intros Hid.
    + rewrite decide_True; [done|]. split; [done|]. unfold fresh. simpl.
      intros (c & Hu & Hc)%list_elem_of_fmap. by apply (Hno c).
    + rewrite decide_False; [done|]. intros [Hf _]. by apply Hf.
  - intros Hno mechanic.
    assert (MechanicService.create_mechanic mechanic user d
            = create MechanicRepository (Mechanic.with_uid (User.uid user) mechanic) d)
      as Hrun.
    { unfold MechanicService.create_mechanic.
      erewrite bind_run; [|by apply (get_one_or_none_missing _ MechanicRepository)].
      done. }
    unfold MechanicController.create_mechanic, except. rewrite Hrun.
    unfold create. split; intros Hid.
    + rewrite decide_True; [done|]. split; [done|]. unfold fresh. simpl.
      intros (m & Hu & Hm)%list_elem_of_fmap. by apply (Hno m).
    + rewrite decide_False; [done|]. intros [Hf _]. by apply Hf.
Qed.

Lemma create_profile_of_new_user_witness :
  CustomerController.create_customer bob (Customer.mk 10 (codes "Bob") None 0) demo
  = (inl (Unhandled IntegrityError), demo).
Proof.
  destruct (create_profile_of_new_user demo bob) as [Hc _].
  destruct (Hc ltac:(apply Forall_forall; by_compute)
              (Customer.mk 10 (codes "Bob") None 0)) as [_ Htaken].
  apply Htaken. by_compute.
Defined.

(** ** What a [POST] of a provided maintenance is answered *)

(** The test of the mechanic in [create_provided_maintenance] passes, or
    raises one of its two errors. *)
Lemma mechanic_part_cases d user o :
  consistent d ->
  null_or (owns_mechanic d user) o
  ∨ exists e,
      e ∈ [MechanicNotFoundError; MechanicBelongsToAnotherUserError]
      ∧ match o with
        | Some mechanic_id =>
            mechanic ← MechanicService.get_mechanic_by_mechanic_id mechanic_id;
            _ ← MechanicService.validate_mechanic_owner mechanic user;
            mret (Some mechanic)
        | None => mret None
        end d = (inl e, d).
Proof.
  intros Hd. destruct o as [i|]; [|by left]. simpl.
  destruct (find_row Mechanic.mechanic_id i (mechanics d)) as [(m & Hm & Hi)|Hno].
  - destruct (decide (Mechanic.uid m = User.uid user)) as [Hu|Hu].
    + left. by exists m.
    + right. exists MechanicBelongsToAnotherUserError. split; [by_compute|].
      erewrite bind_run; [|rewrite <-Hi; by apply get_mechanic_found].
      apply bind_fail. unfold MechanicService.validate_mechanic_owner.
      by case_decide.
  - right. exists MechanicNotFoundError. split; [by_compute|].
    apply bind_fail. by apply get_mechanic_missing.
Qed.

(** The test of the autoservice passes, or raises one of its three
    errors. *)
Lemma autoservice_part_cases_any d user o :
  consistent d ->
  null_or (manages_autoservice d user) o
  ∨ exists e,
      e ∈ [AutoserviceNotFoundError; AutoserviceUserNotFoundError;
           AutoserviceUserDoesntHavePermissionsError]
      ∧ match o with
        | Some autoservice_id =>
            autoservice ←
              AutoserviceService.get_autoservice_by_autoservice_id autoservice_id;
            _ ← AutoserviceService.validate_autoservice_manage_provided_maintenance_permissions
                  autoservice user;
            mret (Some autoservice)
        | None => mret None
        end d = (inl e, d).
Proof.
  intros Hd. destruct o as [j|]; [|by left].
  destruct (find_row Autoservice.autoservice_id j (autoservices d))
    as [(a & Ha & Hj)|Hno].
  - destruct (autoservice_part_cases d user (Some j) Hd) as [Hok|(e & He & Hrun)].
    + simpl. unfold refers. rewrite <-Hj. by apply list_elem_of_fmap_2.
    + by left.
    + right. exists e. split; [|done]. apply elem_of_cons. by right.
  - right. exists AutoserviceNotFoundError. split; [by_compute|]. simpl.
    apply bind_fail. by apply get_autoservice_missing.
Qed.

(** The ways a run of [create_provided_maintenance] ends. *)
Lemma create_provided_maintenance_outcome d pm user :
  consistent d ->
  (¬ smallint (ProvidedMaintenance.provided_maintenance_type_id pm)
   ∧ ProvidedMaintenanceService.create_provided_maintenance pm user d
     = (inl IntegrityError, d))
  ∨ (smallint (ProvidedMaintenance.provided_maintenance_type_id pm)
     ∧ (forall t, t ∈ provided_maintenance_types d ->
          ProvidedMaintenanceType.provided_maintenance_type_id t
          ≠ ProvidedMaintenance.provided_maintenance_type_id pm)
     ∧ ProvidedMaintenanceService.create_provided_maintenance pm user d
       = (inl ProvidedMaintenanceTypeNotFoundError, d))
  ∨ (exists t, t ∈ provided_maintenance_types d
       ∧ ProvidedMaintenanceType.provided_maintenance_type_id t
         = ProvidedMaintenance.provided_maintenance_type_id pm
       ∧ smallint (ProvidedMaintenance.provided_maintenance_type_id pm)
       ∧ ((exists e,
             e ∈ [MechanicNotFoundError; MechanicBelongsToAnotherUserError;
                  AutoserviceNotFoundError; AutoserviceUserNotFoundError;
                  AutoserviceUserDoesntHavePermissionsError]
             ∧ ProvidedMaintenanceService.create_provided_maintenance pm user d
               = (inl e, d))
          ∨ (may_manage d user (ProvidedMaintenance.mechanic_id pm)
               (ProvidedMaintenance.autoservice_id pm)
             ∧ ((¬ provided_maintenance_admits d pm
                 ∧ ProvidedMaintenanceService.create_provided_maintenance pm user d
                   = (inl IntegrityError, d))
                ∨ (provided_maintenance_admits d pm
                   ∧ exists r,
                       ProvidedMaintenanceService.create_provided_maintenance
                         pm user d
                       = (inr r,
                          with_provided_maintenance
                            (provided_maintenance d ++ [pm]) d)))))).
Proof.
  intros Hd. unfold ProvidedMaintenanceService.create_provided_maintenance.
  destruct (find_row ProvidedMaintenanceType.provided_maintenance_type_id
              (ProvidedMaintenance.provided_maintenance_type_id pm)
              (provided_maintenance_types d)) as [(t & Ht & Hti)|Hno].
  - do 2 right. exists t. split_and!; [done..| |].
    { rewrite <-Hti.
      exact (proj1 (Forall_forall _ _) (provided_maintenance_types_type _ Hd) t Ht). }
    erewrite bind_run; [|rewrite <-Hti; by apply get_provided_maintenance_type_found].
    destruct (mechanic_part_cases d user (ProvidedMaintenance.mechanic_id pm) Hd)
      as [Hmech|(e & He & Hrun)].
    + destruct (mechanic_part_loaded d user _ Hd Hmech) as (m & Hm & _).
      erewrite bind_run; [|exact Hm].
      destruct (autoservice_part_cases_any d user
                  (ProvidedMaintenance.autoservice_id pm) Hd)
        as [Hauto|(e & He & Hrun)].
      * destruct (autoservice_part_loaded d user _ Hd Hauto) as (a & Ha & _).
        erewrite bind_run; [|exact Ha].
        right. split; [done|].
        destruct (decide (provided_maintenance_admits d pm)) as [Hadm|Hadm].
        -- right. split; [done|]. eexists.
           erewrite bind_run; [done|]. unfold create. by rewrite decide_True.
        -- left. split; [done|]. apply bind_fail. unfold create.
           by rewrite decide_False.
      * left. exists e. split; [|by apply bind_fail].
        do 2 (apply elem_of_cons; right). done.
    + left. exists e. split; [|by apply bind_fail].
      apply elem_of_cons in He as [->|He]; [by_compute|].
      apply list_elem_of_singleton in He as ->. by_compute.
  - destruct (decide (smallint (ProvidedMaintenance.provided_maintenance_type_id pm)))
      as [Hk|Hk].
    + right. left. split_and!; [done..|]. apply bind_fail.
      by apply get_provided_maintenance_type_missing.
    + left. split; [done|]. apply bind_fail.
      by apply get_provided_maintenance_type_out_of_range.
Qed.

(** X25: [MaintenanceController.create_provided_maintenance] answers a type
    identifier of [SmallInteger] that no type has with [NotFoundException],
    and one outside [SmallInteger] with an [IntegrityError] that it does
    not handle; whenever it refuses, the store is as it was and the answer
    is [NotFoundException], [PermissionDeniedException] or the unhandled
    [IntegrityError], never [ConflictException]; and the [IntegrityError]
    arises only for a type identifier outside [SmallInteger], or past the
    checks, when the type is stored and the performers are the user's to
    manage but the table refuses the row: its key is taken, it names no
    performer, its price is outside [Numeric(10, 2)] or its description
    is longer than 500 characters. *)
Theorem create_provided_maintenance_responses
    (d : DB) (pm : ProvidedMaintenance.t) (user : User.t) :
  consistent d ->
  (¬ smallint (ProvidedMaintenance.provided_maintenance_type_id pm) ->
   MaintenanceController.create_provided_maintenance user pm d
   = (inl (Unhandled IntegrityError), d))
  ∧ (smallint (ProvidedMaintenance.provided_maintenance_type_id pm) ->
     (forall t, t ∈ provided_maintenance_types d ->
        ProvidedMaintenanceType.provided_maintenance_type_id t
        ≠ ProvidedMaintenance.provided_maintenance_type_id pm) ->
     MaintenanceController.create_provided_maintenance user pm d
     = (inl NotFoundException, d))
  ∧ (forall h d',
     MaintenanceController.create_provided_maintenance user pm d = (inl h, d') ->
     d' = d
     ∧ (h = NotFoundException ∨ h = PermissionDeniedException
        ∨ h = Unhandled IntegrityError))
  ∧ (forall d',
     MaintenanceController.create_provided_maintenance user pm d
     = (inl (Unhandled IntegrityError), d') ->
     ¬ smallint (ProvidedMaintenance.provided_maintenance_type_id pm)
     ∨ ((exists t, t ∈ provided_maintenance_types d
           ∧ ProvidedMaintenanceType.provided_maintenance_type_id t
             = ProvidedMaintenance.provided_maintenance_type_id pm)
        ∧ may_manage d user (ProvidedMaintenance.mechanic_id pm)
            (ProvidedMaintenance.autoservice_id pm)
        ∧ ¬ (fresh ProvidedMaintenance.provided_maintenance_id
               (provided_maintenance d) pm
             ∧ ProvidedMaintenance.check_mechanic_or_autoservice pm
             ∧ numeric_10_2 (ProvidedMaintenance.price pm)
             ∧ null_or (varchar 500) (ProvidedMaintenance.description pm)))).
Proof.
  intros Hd. unfold MaintenanceController.create_provided_maintenance, except.
  destruct (create_provided_maintenance_outcome d pm user Hd)
    as [[Hk Hrun]|[(Hk & Hno & Hrun)|(t & Ht & Hti & Hk
        & [(e & He & Hrun)|(Hmay & [[Hadm Hrun]|[Hadm [r Hrun]]])])]];
    rewrite Hrun.
  - simpl. split_and!; [done|done| |by left]. intros h d' [= <- <-]. auto.
  - simpl. split_and!; [done|done| |done]. intros h d' [= <- <-]. auto.
  - assert (exists h,
              (h = NotFoundException ∨ h = PermissionDeniedException)
              ∧ default (Unhandled e)
                  match e with
                  | ProvidedMaintenanceTypeNotFoundError | MechanicNotFoundError
                  | AutoserviceNotFoundError => Some NotFoundException
                  | MechanicBelongsToAnotherUserError | AutoserviceUserNotFoundError
                  | AutoserviceUserDoesntHavePermissionsError =>
                      Some PermissionDeniedException
                  | _ => None
                  end = h) as (h0 & Hh0 & ->).
    { repeat (apply elem_of_cons in He as [->|He]; [eexists; split; [|done]; auto|]).
      by inversion He. }
    split_and!.
    + done.
    + intros _ Hno. by destruct (Hno t Ht).
    + intros h d' [= <- <-]. split; [done|]. destruct Hh0; auto.
    + intros d' [= Hh _]. by destruct Hh0 as [->| ->].
  - simpl. split_and!.
    + done.
    + intros _ Hno. by destruct (Hno t Ht).
    + intros h d' [= <- <-]. auto.
    + intros d' _. right. split_and!; [by eauto|done|].
      intros Hf. apply Hadm.
      by apply (provided_maintenance_admits_managed d user pm t).
  - split_and!; [done| |done..]. intros _ Hno. by destruct (Hno t Ht).
Qed.

Lemma create_provided_maintenance_responses_witness :
  MaintenanceController.create_provided_maintenance alice
    (ProvidedMaintenance.mk 41 90000 None 7 (Some 20) None) demo
  = (inl NotFoundException, demo)
  ∧ MaintenanceController.create_provided_maintenance alice
      (ProvidedMaintenance.mk 41 90000 None 40000 (Some 20) None) demo
    = (inl (Unhandled IntegrityError), demo).
Proof.
  assert (consistent demo) as Hd by (split; by_compute).
  split.
  - destruct (create_provided_maintenance_responses demo
                (ProvidedMaintenance.mk 41 90000 None 7 (Some 20) None) alice Hd)
      as (_ & Hmissing & _).
    apply Hmissing; [by_compute|]. apply Forall_forall. by_compute.
  - destruct (create_provided_maintenance_responses demo
                (ProvidedMaintenance.mk 41 90000 None 40000 (Some 20) None) alice Hd)
      as (Hrange & _).
    apply Hrange. by_compute.
Defined.

(** ** More on the VIN *)

Lemma ascii_upper_is_ascii c : is_ascii c = true -> is_ascii (ascii_upper c) = true.
Proof.
  unfold is_ascii, ascii_upper, between. intros H%N.ltb_lt.
  destruct (_ && _) eqn:Hb; apply N.ltb_lt; [|done]. lia.
Qed.

Lemma ascii_upper_idempotent c : ascii_upper (ascii_upper c) = ascii_upper c.
Proof.
  unfold ascii_upper, between.
  destruct ((97 <=? c) && (c <=? 122)) eqn:Hb; [|by rewrite Hb].
  apply andb_true_iff in Hb as [H1%N.leb_le H2%N.leb_le].
  rewrite (proj2 (andb_false_iff _ _)); [done|].
  left. apply N.leb_gt. lia.
Qed.

Lemma ascii_upper_space U c :
  is_ascii c = true -> is_space U (ascii_upper c) = is_space U c.
Proof.
  intros Hc. unfold is_space. rewrite ascii_upper_is_ascii, Hc by done.
  unfold ascii_upper, between.
  destruct ((97 <=? c) && (c <=? 122)) eqn:Hb; [|done].
  apply andb_true_iff in Hb as [H1%N.leb_le H2%N.leb_le].
  unfold ascii_space, between.
  repeat match goal with
    | |- context [?a <=? ?b] =>
        destruct (N.leb_spec a b); simpl; try lia
    | |- context [?a =? ?b] =>
        destruct (N.eqb_spec a b); simpl; try lia
    end; done.
Qed.

(** X26: [validate_vin] ignores white space wherever it stands. *)
Theorem validate_vin_ignores_spaces (U : unicode) (s1 s2 : str) (c : codepoint) :
  is_space U c = true ->
  Vehicle.validate_vin U (Some (s1 ++ c :: s2)) = Vehicle.validate_vin U (Some (s1 ++ s2)).
Proof.
  intros Hc. unfold Vehicle.validate_vin, sub_spaces.
  rewrite !filter_app, filter_cons_False; [done|]. by rewrite Hc.
Qed.

Lemma validate_vin_ignores_spaces_witness :
  Vehicle.validate_vin ascii_only (Some (codes "JH4KA8260 MC000000"))
  = Vehicle.validate_vin ascii_only (Some (codes "JH4KA8260MC000000")).
Proof.
  apply (validate_vin_ignores_spaces ascii_only (codes "JH4KA8260")
           (codes "MC000000") 32).
  reflexivity.
Defined.

(** X27: [validate_vin] reads an ASCII string as it reads the string with its
    lower-case letters raised. *)
Theorem validate_vin_ignores_ascii_case (U : unicode) (s : str) :
  Forall (fun c => is_ascii c = true) s ->
  Vehicle.validate_vin U (Some (ascii_upper <$> s)) = Vehicle.validate_vin U (Some s).
Proof.
  intros Hs.
  assert (upper U (sub_spaces U (ascii_upper <$> s)) = upper U (sub_spaces U s))
    as Heq; [|unfold Vehicle.validate_vin; by rewrite Heq].
  unfold upper, sub_spaces. induction Hs as [|c s Hc Hs IH]; [done|].
  rewrite fmap_cons.
  destruct (is_space U c) eqn:Hsp.
  - rewrite !filter_cons_False; [done|by rewrite Hsp|].
    by rewrite ascii_upper_space, Hsp.
  - rewrite !filter_cons_True; [|done|by rewrite ascii_upper_space].
    rewrite !bind_cons, IH. f_equal. unfold upper_char.
    by rewrite ascii_upper_is_ascii, Hc, ascii_upper_idempotent.
Qed.

Lemma validate_vin_ignores_ascii_case_witness :
  Vehicle.validate_vin ascii_only (Some (codes "JH4KA8260MC000000"))
  = Vehicle.validate_vin ascii_only (Some (codes "jh4ka8260mc000000")).
Proof.
  apply (validate_vin_ignores_ascii_case ascii_only (codes "jh4ka8260mc000000")).
  apply Forall_forall. intros c Hc. revert c Hc. apply Forall_forall.
  by_compute.
Defined.
